(** * Server manager: deployment, build, rollback, retention and token store

    A shallow embedding of the orchestration core of the server manager
    (the Express and MCP entry point of [servers/server-manager]): the token
    store and the auth middleware, the instance registry with provisioning
    and removal, the build pipeline, the rollback manager and the image
    retention sweep.

    Persistent documents (tokens.json, deployments.json,
    build-history.json), the instance directories and the container runtime
    are fields of one [World]; every JavaScript function that touches them is
    a function from the world to a result and the next world. *)

From Stdlib Require Import ZArith Lia Ascii String List Bool.
From stdpp Require Import base decidable option list strings gmap pretty.

Local Open Scope string_scope.
Local Open Scope list_scope.

(* ===================================================================== *)
(** ** JavaScript values used by the server *)
(* ===================================================================== *)

Module JS.

(** Truthiness of a string: only the empty string is falsy. *)
Definition truthy (s : string) : bool :=
  match s with EmptyString => false | String _ _ => true end.

(** [a || b] on strings. *)
Definition or_else (a b : string) : string := if truthy a then a else b.

(** [a || b] where [a] may be [undefined]. *)
Definition opt_or_else (a : option string) (b : string) : string :=
  match a with Some s => or_else s b | None => b end.

(** [s.startsWith(p)]. *)
Definition startsWith (p s : string) : bool := String.prefix p s.

(** [s.replace(pat, rep)] with a string pattern: the first occurrence only. *)
Definition replace (pat rep s : string) : string :=
  match String.index 0 pat s with
  | Some i =>
      String.substring 0 i s +:+ rep +:+
      String.substring (i + String.length pat)
                       (String.length s - (i + String.length pat)) s
  | None => s
  end.

(** [s.substring(0, n)]. *)
Definition substring0 (n : nat) (s : string) : string := String.substring 0 n s.

(** [String(n).padStart(2, "0")]. *)
Definition pad2 (n : nat) : string :=
  let s := pretty n in
  if (String.length s <? 2)%nat then "0" +:+ s else s.

(** Names every object literal and every [JSON.parse] result inherits from
    [Object.prototype]; [obj[k]] is a truthy function or object for each. *)
Definition object_prototype_keys : list string :=
  [ "constructor"; "__proto__"; "hasOwnProperty"; "isPrototypeOf";
    "propertyIsEnumerable"; "toLocaleString"; "toString"; "valueOf";
    "__defineGetter__"; "__defineSetter__";
    "__lookupGetter__"; "__lookupSetter__" ].

Definition inherited (k : string) : bool :=
  bool_decide (k ∈ object_prototype_keys).

(** An object used as a dictionary: its own properties, in enumeration
    order. *)
Abbreviation obj V := (list (string * V)).

Section Obj.
Context {V : Type}.

(** Own property lookup. *)
Fixpoint get_own (o : obj V) (k : string) : option V :=
  match o with
  | [] => None
  | (k', v) :: o' => if decide (k' = k) then Some v else get_own o' k
  end.

(** [!!o[k]] when every stored value is an object: an own property, or a
    member of [Object.prototype]. *)
Definition has_truthy (o : obj V) (k : string) : bool :=
  match get_own o k with
  | Some _ => true
  | None => inherited k
  end.

(** [Object.keys(o)]. *)
Definition keys (o : obj V) : list string := o.*1.

(** A canonical array index: ["0"], or digits without a leading zero, at
    most 2^32 - 2. Such keys are enumerated first, in numeric order. *)
Definition is_digit (c : ascii) : bool :=
  let n := nat_of_ascii c in (48 <=? n)%nat && (n <=? 57)%nat.

Fixpoint digits_value (acc : N) (s : string) : option N :=
  match s with
  | EmptyString => Some acc
  | String c s' =>
      if is_digit c
      then digits_value (acc * 10 + N.of_nat (nat_of_ascii c - 48))%N s'
      else None
  end.

Definition array_index (k : string) : option N :=
  match k with
  | EmptyString => None
  | String "0" EmptyString => Some 0%N
  | String "0" _ => None
  | _ => match digits_value 0%N k with
         | Some n => if (n <=? 4294967294)%N then Some n else None
         | None => None
         end
  end.

(** Position of a new integer key among the own properties. *)
Fixpoint insert_index (n : N) (k : string) (v : V) (o : obj V) : obj V :=
  match o with
  | [] => [(k, v)]
  | (k', v') :: o' =>
      match array_index k' with
      | Some n' => if (n' <? n)%N then (k', v') :: insert_index n k v o'
                   else (k, v) :: o
      | None => (k, v) :: o
      end
  end.

Fixpoint replace_own (k : string) (v : V) (o : obj V) : obj V :=
  match o with
  | [] => []
  | (k', v') :: o' =>
      if decide (k' = k) then (k, v) :: o' else (k', v') :: replace_own k v o'
  end.

(** [o[k] = v] for a key that is not an accessor of the prototype. *)
Definition set (k : string) (v : V) (o : obj V) : obj V :=
  match get_own o k with
  | Some _ => replace_own k v o
  | None =>
      match array_index k with
      | Some n => insert_index n k v o
      | None => o ++ [(k, v)]
      end
  end.

(** [delete o[k]]. *)
Definition delete (k : string) (o : obj V) : obj V :=
  filter (λ kv, kv.1 ≠ k) o.
End Obj.

End JS.

(* ===================================================================== *)
(** ** Regular expressions, as used by the name validators *)
(* ===================================================================== *)

Module Regex.

Inductive re : Type :=
| Void
| Eps
| Class (p : ascii → bool)
| Cat (r s : re)
| Alt (r s : re)
| Star (r : re).

Fixpoint nullable (r : re) : bool :=
  match r with
  | Void => false
  | Eps => true
  | Class _ => false
  | Cat r s => nullable r && nullable s
  | Alt r s => nullable r || nullable s
  | Star _ => true
  end.

Fixpoint deriv (c : ascii) (r : re) : re :=
  match r with
  | Void => Void
  | Eps => Void
  | Class p => if p c then Eps else Void
  | Cat r s =>
      if nullable r then Alt (Cat (deriv c r) s) (deriv c s)
      else Cat (deriv c r) s
  | Alt r s => Alt (deriv c r) (deriv c s)
  | Star r => Cat (deriv c r) (Star r)
  end.

Fixpoint accepts (r : re) (w : list ascii) : bool :=
  match w with
  | [] => nullable r
  | c :: w' => accepts (deriv c r) w'
  end.

(** [/^r$/.test(s)]: without the [m] flag the anchors are the two ends of
    the input. *)
Definition test (r : re) (s : string) : bool :=
  accepts r (list_ascii_of_string s).

(** The words of a regular expression. *)
Inductive lang : re → list ascii → Prop :=
| lang_eps : lang Eps []
| lang_class p c : p c = true → lang (Class p) [c]
| lang_cat r s u v : lang r u → lang s v → lang (Cat r s) (u ++ v)
| lang_alt_l r s u : lang r u → lang (Alt r s) u
| lang_alt_r r s u : lang s u → lang (Alt r s) u
| lang_star_nil r : lang (Star r) []
| lang_star_more r u v : lang r u → lang (Star r) v → lang (Star r) (u ++ v).

Definition in_range (lo hi : nat) (c : ascii) : bool :=
  let n := nat_of_ascii c in (lo <=? n)%nat && (n <=? hi)%nat.

(** [[a-z0-9]] *)
Definition lower_alnum (c : ascii) : bool :=
  in_range 97 122 c || in_range 48 57 c.

(** [[a-z0-9-]] *)
Definition lower_alnum_hyphen (c : ascii) : bool :=
  lower_alnum c || in_range 45 45 c.

(** [/^[a-z0-9][a-z0-9-]*[a-z0-9]$/] *)
Definition slug_re : re :=
  Cat (Class lower_alnum) (Cat (Star (Class lower_alnum_hyphen)) (Class lower_alnum)).

(** [/^[a-z0-9]$/] *)
Definition single_re : re := Class lower_alnum.

End Regex.

(** The line feed and the double quote. *)
Definition nl : string := String (ascii_of_nat 10) EmptyString.
Definition dq : string := String (ascii_of_nat 34) EmptyString.

(* ===================================================================== *)
(** ** Data model *)
(* ===================================================================== *)

(** Instants are milliseconds since the epoch; the ISO-8601 strings the
    server stores are [toISOString] of such an instant and are read back
    with [new Date(..).getTime()]. *)
Definition instant : Type := Z.
Bind Scope Z_scope with instant.

(** An entry of tokens.json; [tok_id], [tok_label], [tok_role] and
    [tok_created_at] are its [id], [label], [role] and [created_at]. *)
Record TokenRecord : Type := {
  tok_id : string;
  token_hash : string;
  tok_label : string;
  tok_role : string;
  tok_created_at : instant;
  last_used_at : option instant
}.

(** An entry of the [instances] object of deployments.json, under its name;
    [inst_postgres_image] is its [postgres_image]. *)
Record InstanceRecord : Type := {
  display_name : string;
  subdomain : string;
  url : string;
  api_key : string;
  db_password : string;
  inst_postgres_image : string;
  created_at : instant;
  status : string
}.

Record Defaults : Type := {
  image : string;
  source : string;
  domain_suffix : string;
  postgres_image : string
}.

Record DeploymentConfig : Type := {
  defaults : option Defaults;
  instances : JS.obj InstanceRecord
}.

(** An entry of build-history.json; [bld_id] is its [id]. *)
Record BuildRecord : Type := {
  bld_id : string;
  tag : string;
  timestamp : instant;
  git_commit : string;
  git_message : string;
  image_id : option string;
  success : bool;
  error : option string;
  duration_ms : Z;
  triggered_by : string;
  instances_restarted : list string
}.

(** The subprocesses the orchestration core spawns through [exec]. *)
Inductive Cmd : Type :=
| DockerPsGrep (name : string)
    (* docker ps -a --format '{{.Names}}' | grep -E '^(ship-N|db-N)$' *)
| Chmod600 (path : string)
| ComposeUp (name : string)              (* docker compose up -d, in the instance directory *)
| ComposeDown (name : string) (volumes : bool)
    (* docker compose down [-v] --remove-orphans *)
| DockerRmF (name : string)              (* docker rm -f ship-N db-N *)
| RmRf (dir : string)
| GitRevParse (src : string)             (* git -C src rev-parse --short HEAD *)
| GitLogSubject (src : string)           (* git -C src log -1 --pretty=format:%s *)
| DockerTag (from to : string)           (* docker tag matrx-ship:from matrx-ship:to *)
| DockerBuild (build_tag src : string)   (* docker build -t matrx-ship:latest -t matrx-ship:T src *)
| DockerInspectId (image_tag : string)   (* docker inspect matrx-ship:T --format '{{.Id}}' *)
| ComposeRecreateApp (name : string)     (* docker compose up -d --force-recreate app *)
| DockerImagesTags                       (* docker images matrx-ship --format '{{.Tag}}' *)
| DockerRmi (image_tag : string).        (* docker rmi matrx-ship:T *)

(** What [exec] returns: [output] is the trimmed standard output, line by
    line; [err] is the trimmed standard error or the exception message. *)
Record ExecResult : Type := {
  ok : bool;
  output : list string;
  err : string
}.

Definition exec_ok (out : list string) : ExecResult :=
  {| ok := true; output := out; err := "" |}.
Definition exec_fail (e : string) : ExecResult :=
  {| ok := false; output := []; err := e |}.

(** The output as one string, as JavaScript sees it. *)
Fixpoint join_lines (ls : list string) : string :=
  match ls with
  | [] => ""
  | [l] => l
  | l :: ls' => l +:+ nl +:+ join_lines ls'
  end.

Definition text (r : ExecResult) : string := join_lines (output r).

(** The host: the three JSON documents ([None]: the file is missing or does
    not parse), the files below the apps directory, and the container
    runtime (the rows of [docker images matrx-ship] as tag and image id, the
    names of the existing containers, the state of the source checkout).
    [fault] names the subprocesses that fail for reasons outside the model
    (daemon errors, time-outs, an image in use), with their error text; a
    subprocess that fails leaves the host as it was. [trace] logs every
    subprocess spawned, oldest first. *)
Record World : Type := {
  tokens_file : option (list TokenRecord);
  deployments_file : option DeploymentConfig;
  history_file : option (list BuildRecord);
  files : gmap string string;
  images : list (string * string);
  containers : list string;
  git_head : string;
  git_subject : string;
  next_image : string;
  fault : Cmd → option string;
  trace : list Cmd
}.

Definition set_tokens_file (v : option (list TokenRecord)) (w : World) : World :=
  {| tokens_file := v; deployments_file := deployments_file w;
     history_file := history_file w; files := files w; images := images w;
     containers := containers w; git_head := git_head w;
     git_subject := git_subject w; next_image := next_image w;
     fault := fault w; trace := trace w |}.

Definition set_deployments_file (v : option DeploymentConfig) (w : World) : World :=
  {| tokens_file := tokens_file w; deployments_file := v;
     history_file := history_file w; files := files w; images := images w;
     containers := containers w; git_head := git_head w;
     git_subject := git_subject w; next_image := next_image w;
     fault := fault w; trace := trace w |}.

Definition set_history_file (v : option (list BuildRecord)) (w : World) : World :=
  {| tokens_file := tokens_file w; deployments_file := deployments_file w;
     history_file := v; files := files w; images := images w;
     containers := containers w; git_head := git_head w;
     git_subject := git_subject w; next_image := next_image w;
     fault := fault w; trace := trace w |}.

Definition set_files (v : gmap string string) (w : World) : World :=
  {| tokens_file := tokens_file w; deployments_file := deployments_file w;
     history_file := history_file w; files := v; images := images w;
     containers := containers w; git_head := git_head w;
     git_subject := git_subject w; next_image := next_image w;
     fault := fault w; trace := trace w |}.

Definition set_images (v : list (string * string)) (w : World) : World :=
  {| tokens_file := tokens_file w; deployments_file := deployments_file w;
     history_file := history_file w; files := files w; images := v;
     containers := containers w; git_head := git_head w;
     git_subject := git_subject w; next_image := next_image w;
     fault := fault w; trace := trace w |}.

Definition set_containers (v : list string) (w : World) : World :=
  {| tokens_file := tokens_file w; deployments_file := deployments_file w;
     history_file := history_file w; files := files w; images := images w;
     containers := v; git_head := git_head w;
     git_subject := git_subject w; next_image := next_image w;
     fault := fault w; trace := trace w |}.

Definition log_cmd (c : Cmd) (w : World) : World :=
  {| tokens_file := tokens_file w; deployments_file := deployments_file w;
     history_file := history_file w; files := files w; images := images w;
     containers := containers w; git_head := git_head w;
     git_subject := git_subject w; next_image := next_image w;
     fault := fault w; trace := trace w ++ [c] |}.

(* ===================================================================== *)
(** ** The container runtime and the file system behind [exec] *)
(* ===================================================================== *)

Definition HOST_SRV : string := "/host-srv".
Definition DOMAIN_SUFFIX : string := "dev.codematrx.com".

(** [path.join] of a directory and one plain segment. *)
Definition join (dir seg : string) : string := dir +:+ "/" +:+ seg.

Definition APPS_DIR : string := join HOST_SRV "apps".

Definition NONE_TAG : string := "<none>".

(** The image a tag of the shared repository resolves to. Untagged rows are
    listed under the placeholder [<none>], which is no reference. *)
Fixpoint resolve_tag (rows : list (string * string)) (t : string) : option string :=
  match rows with
  | [] => None
  | (t', i) :: rows' =>
      if decide (t' = t ∧ t ≠ NONE_TAG) then Some i else resolve_tag rows' t
  end.

(** Point tag [t] at image [i]: the row of [t] is rewritten, or a new row is
    listed first. *)
Definition point_tag (t i : string) (rows : list (string * string))
  : list (string * string) :=
  match resolve_tag rows t with
  | Some _ => (λ row, if decide (row.1 = t) then (t, i) else row) <$> rows
  | None => (t, i) :: rows
  end.

Definition untag (t : string) (rows : list (string * string))
  : list (string * string) :=
  filter (λ row, row.1 ≠ t) rows.

Definition stack_containers (name : string) : list string :=
  [ "ship-" +:+ name; "db-" +:+ name ].

Definition without (gone l : list string) : list string :=
  filter (λ c, c ∉ gone) l.

(** What a subprocess does when nothing outside the model makes it fail. *)
Definition run (c : Cmd) (w : World) : ExecResult * World :=
  match c with
  | DockerPsGrep name =>
      match filter (λ c, c ∈ stack_containers name) (containers w) with
      | [] => (exec_fail "Command failed", w)
      | hits => (exec_ok hits, w)
      end
  | Chmod600 _ => (exec_ok [], w)
  | ComposeUp name =>
      (exec_ok [],
       set_containers (without (stack_containers name) (containers w)
                       ++ stack_containers name) w)
  | ComposeDown name _ =>
      (exec_ok [], set_containers (without (stack_containers name) (containers w)) w)
  | DockerRmF name =>
      (exec_ok (stack_containers name),
       set_containers (without (stack_containers name) (containers w)) w)
  | RmRf dir =>
      (exec_ok [],
       set_files (filter (λ kv, JS.startsWith (dir +:+ "/") kv.1 = false) (files w)) w)
  | GitRevParse _ => (exec_ok [git_head w], w)
  | GitLogSubject _ => (exec_ok [git_subject w], w)
  | DockerTag from to =>
      match resolve_tag (images w) from with
      | Some i => (exec_ok [], set_images (point_tag to i (images w)) w)
      | None => (exec_fail "No such image", w)
      end
  | DockerBuild build_tag _ =>
      (exec_ok [],
       set_images (point_tag build_tag (next_image w)
                     (point_tag "latest" (next_image w) (images w))) w)
  | DockerInspectId t =>
      match resolve_tag (images w) t with
      | Some i => (exec_ok [i], w)
      | None => (exec_fail "No such object", w)
      end
  | ComposeRecreateApp _ => (exec_ok [], w)
  | DockerImagesTags => (exec_ok ((images w).*1), w)
  | DockerRmi t =>
      match resolve_tag (images w) t with
      | Some _ => (exec_ok ["Untagged: matrx-ship:" +:+ t], set_images (untag t (images w)) w)
      | None => (exec_fail "No such image", w)
      end
  end.

(** [exec(cmd, opts)]: spawn the subprocess, catch its failure. *)
Definition exec (c : Cmd) (w : World) : ExecResult * World :=
  let w1 := log_cmd c w in
  match fault w c with
  | Some e => (exec_fail e, w1)
  | None => run c w1
  end.

(* ===================================================================== *)
(** ** Token store *)
(* ===================================================================== *)

Definition loadTokens (w : World) : list TokenRecord :=
  default [] (tokens_file w).

(** [saveTokens]: the document is rewritten as a whole (the [chmod] that
    follows is spawned outside [exec] and its failure is ignored). *)
Definition saveTokens (store : list TokenRecord) (w : World) : World :=
  set_tokens_file (Some store) w.

Definition touch (now : instant) (t : TokenRecord) : TokenRecord :=
  {| tok_id := tok_id t; token_hash := token_hash t; tok_label := tok_label t;
     tok_role := tok_role t; tok_created_at := tok_created_at t;
     last_used_at := Some now |}.

Section TokenStore.

(** [createHash("sha256").update(token).digest("hex")] *)
Variable hashToken : string → string.

(** [process.env.MCP_BEARER_TOKEN] *)
Variable envToken : option string.

Definition verifyToken (bearerToken : string) (now : instant) (w : World)
  : option TokenRecord * World :=
  if negb (JS.truthy bearerToken) then (None, w)
  else
    let hash := hashToken bearerToken in
    let store := loadTokens w in
    match list_find (λ t, token_hash t = hash) store with
    | None => (None, w)
    | Some (i, entry) =>
        let entry' := touch now entry in
        (Some entry', saveTokens (<[i := entry']> store) w)
    end.

Definition env_configured : bool :=
  match envToken with
  | Some t => JS.truthy t
  | None => false
  end.

(** First boot: import the bootstrap credential as an admin token. *)
Definition initTokenStore (rand : string) (now : instant) (w : World) : World :=
  match envToken with
  | None => w
  | Some t =>
      if negb (JS.truthy t) then w
      else
        let store := loadTokens w in
        let envHash := hashToken t in
        if bool_decide (Exists (λ t, token_hash t = envHash) store) then w
        else
          saveTokens
            (store ++
             [ {| tok_id := "tok_" +:+ rand; token_hash := envHash;
                  tok_label := "Admin (auto-imported from MCP_BEARER_TOKEN)";
                  tok_role := "admin"; tok_created_at := now;
                  last_used_at := None |} ]) w
  end.

(** *** Auth middleware *)

Inductive AuthFailure : Type :=
| BearerTokenRequired     (* 401 Unauthorized: Bearer token required *)
| InvalidToken.           (* 401 Unauthorized: invalid token *)

(** The middleware either calls [next()], having attached the matching
    entry to the request when there is one, or answers 401. *)
Inductive Gate : Type :=
| Next (tokenEntry : option TokenRecord)
| Unauthorized (why : AuthFailure).

Definition authMiddleware (authorization : option string) (now : instant)
    (w : World) : Gate * World :=
  if negb env_configured then (Next None, w)
  else
    match authorization with
    | None => (Unauthorized BearerTokenRequired, w)
    | Some auth =>
        if negb (JS.truthy auth) || negb (JS.startsWith "Bearer " auth)
        then (Unauthorized BearerTokenRequired, w)
        else
          let token := JS.replace "Bearer " "" auth in
          match verifyToken token now w with
          | (None, w') => (Unauthorized InvalidToken, w')
          | (Some entry, w') => (Next (Some entry), w')
          end
    end.

(** [requireRole(...roles)]: [true] when the request goes on, [false]
    for 403. *)
Definition requireRole (roles : list string) (g : option TokenRecord) : bool :=
  match g with
  | None => true
  | Some entry =>
      if negb (JS.truthy (tok_role entry)) then true
      else bool_decide (tok_role entry ∈ roles)
  end.

(** *** Token routes *)

Inductive TokenCreateResponse : Type :=
| TokenCreate400 (msg : string)
| TokenCreate201 (id token label role : string) (created : instant).

(** POST /api/tokens *)
Definition post_tokens (label role : string) (rawToken rand : string)
    (now : instant) (w : World) : TokenCreateResponse * World :=
  if negb (JS.truthy label) then (TokenCreate400 "label required", w)
  else if negb (bool_decide (role ∈ ["admin"; "deployer"; "viewer"]))
  then (TokenCreate400 "role must be admin, deployer, or viewer", w)
  else
    let store := loadTokens w in
    let entry :=
      {| tok_id := "tok_" +:+ rand; token_hash := hashToken rawToken;
         tok_label := label; tok_role := role; tok_created_at := now;
         last_used_at := None |} in
    (TokenCreate201 (tok_id entry) rawToken label role now,
     saveTokens (store ++ [entry]) w).

Inductive TokenDeleteResponse : Type :=
| TokenDelete404            (* Token not found *)
| TokenDelete400            (* Cannot delete the last token *)
| TokenDelete200 (removed_id removed_label : string).

(** DELETE /api/tokens/:id *)
Definition delete_tokens (id : string) (w : World)
  : TokenDeleteResponse * World :=
  let store := loadTokens w in
  match list_find (λ t, tok_id t = id) store with
  | None => (TokenDelete404, w)
  | Some (idx, removed) =>
      if bool_decide (length store = 1) then (TokenDelete400, w)
      else (TokenDelete200 (tok_id removed) (tok_label removed),
            saveTokens (delete idx store) w)
  end.

(** Every operation of the server that reads or writes the token
    document. *)
Inductive TokenOp : Type :=
| OpInit (rand : string) (now : instant)
| OpVerify (bearerToken : string) (now : instant)
| OpList
| OpCreate (label role rawToken rand : string) (now : instant)
| OpDelete (id : string).

Definition token_step (op : TokenOp) (w : World) : World :=
  match op with
  | OpInit rand now => initTokenStore rand now w
  | OpVerify b now => (verifyToken b now w).2
  | OpList => w
  | OpCreate label role raw rand now => (post_tokens label role raw rand now w).2
  | OpDelete id => (delete_tokens id w).2
  end.

End TokenStore.

(* ===================================================================== *)
(** ** Deployment store, provisioning and removal *)
(* ===================================================================== *)

(** The lines of a template literal, each closed by a line feed. *)
Fixpoint unlines (ls : list string) : string :=
  match ls with
  | [] => ""
  | l :: ls' => l +:+ nl +:+ unlines ls'
  end.

Definition default_config : DeploymentConfig :=
  {| defaults := Some {| image := "matrx-ship:latest";
                         source := "/srv/projects/matrx-ship";
                         domain_suffix := DOMAIN_SUFFIX;
                         postgres_image := "postgres:17-alpine" |};
     instances := [] |}.

Definition loadDeployments (w : World) : DeploymentConfig :=
  default default_config (deployments_file w).

Definition saveDeployments (config : DeploymentConfig) (w : World) : World :=
  set_deployments_file (Some config) w.

Definition with_instances (i : JS.obj InstanceRecord) (c : DeploymentConfig)
  : DeploymentConfig :=
  {| defaults := defaults c; instances := i |}.

(** [{ ...config, defaults: { ...config.defaults, postgres_image } }]; a field
    that is absent reads as the empty string. *)
Definition with_postgres_image (pg : string) (c : DeploymentConfig)
  : DeploymentConfig :=
  {| defaults :=
       Some match defaults c with
            | Some d => {| image := image d; source := source d;
                           domain_suffix := domain_suffix d; postgres_image := pg |}
            | None => {| image := ""; source := ""; domain_suffix := "";
                         postgres_image := pg |}
            end;
     instances := instances c |}.

(** [config.defaults?.postgres_image] and its siblings. *)
Definition default_of (f : Defaults → string) (c : DeploymentConfig) : option string :=
  f <$> defaults c.

Definition generateCompose (name : string) (config : DeploymentConfig) : string :=
  let pgImage :=
    JS.opt_or_else (default_of postgres_image config) "postgres:17-alpine" in
  unlines
    [ "# Auto-generated for ship instance: " +:+ name;
      "# Do not edit manually — managed by MCP server-manager";
      "services:";
      "  app:";
      "    image: matrx-ship:latest";
      "    container_name: ship-" +:+ name;
      "    restart: unless-stopped";
      "    environment:";
      "      DATABASE_URL: postgresql://ship:${POSTGRES_PASSWORD}@db:5432/ship";
      "      MATRX_SHIP_API_KEY: ${MATRX_SHIP_API_KEY:-}";
      "      MATRX_SHIP_ADMIN_SECRET: ${MATRX_SHIP_ADMIN_SECRET:-}";
      "      PROJECT_NAME: ${PROJECT_NAME}";
      "      VERCEL_ACCESS_TOKEN: ${VERCEL_ACCESS_TOKEN:-}";
      "      VERCEL_PROJECT_ID: ${VERCEL_PROJECT_ID:-}";
      "      VERCEL_TEAM_ID: ${VERCEL_TEAM_ID:-}";
      "      VERCEL_WEBHOOK_SECRET: ${VERCEL_WEBHOOK_SECRET:-}";
      "      GITHUB_WEBHOOK_SECRET: ${GITHUB_WEBHOOK_SECRET:-}";
      "    depends_on:";
      "      db:";
      "        condition: service_healthy";
      "    networks:";
      "      - internal";
      "      - proxy";
      "    labels:";
      "      - " +:+ dq +:+ "traefik.enable=true" +:+ dq;
      "      - " +:+ dq +:+ "traefik.http.routers.ship-" +:+ name
        +:+ ".rule=Host(`ship-" +:+ name +:+ "." +:+ DOMAIN_SUFFIX +:+ "`)" +:+ dq;
      "      - " +:+ dq +:+ "traefik.http.routers.ship-" +:+ name
        +:+ ".entrypoints=websecure" +:+ dq;
      "      - " +:+ dq +:+ "traefik.http.routers.ship-" +:+ name
        +:+ ".tls.certresolver=letsencrypt" +:+ dq;
      "      - " +:+ dq +:+ "traefik.http.services.ship-" +:+ name
        +:+ ".loadbalancer.server.port=3000" +:+ dq;
      "";
      "  db:";
      "    image: " +:+ pgImage;
      "    container_name: db-" +:+ name;
      "    restart: unless-stopped";
      "    volumes:";
      "      - pgdata:/var/lib/postgresql/data";
      "    environment:";
      "      POSTGRES_DB: ship";
      "      POSTGRES_USER: ship";
      "      POSTGRES_PASSWORD: ${POSTGRES_PASSWORD}";
      "    healthcheck:";
      "      test: [" +:+ dq +:+ "CMD-SHELL" +:+ dq +:+ ", "
        +:+ dq +:+ "pg_isready -U ship" +:+ dq +:+ "]";
      "      interval: 5s";
      "      timeout: 5s";
      "      retries: 5";
      "    networks:";
      "      - internal";
      "";
      "volumes:";
      "  pgdata:";
      "";
      "networks:";
      "  internal:";
      "    driver: bridge";
      "  proxy:";
      "    external: true" ].

Section Provisioner.

(** [Date.prototype.toISOString] *)
Variable toISOString : instant → string.

Definition generateEnv (name displayName dbPassword apiKey : string)
    (now : instant) : string :=
  unlines
    [ "# Instance: " +:+ name;
      "# Generated: " +:+ toISOString now;
      "";
      "POSTGRES_PASSWORD=" +:+ dbPassword;
      "PROJECT_NAME=" +:+ displayName;
      "MATRX_SHIP_API_KEY=" +:+ apiKey;
      "MATRX_SHIP_ADMIN_SECRET=";
      "";
      "# Vercel integration (optional)";
      "VERCEL_ACCESS_TOKEN=";
      "VERCEL_PROJECT_ID=";
      "VERCEL_TEAM_ID=";
      "VERCEL_WEBHOOK_SECRET=";
      "";
      "# GitHub integration (optional)";
      "GITHUB_WEBHOOK_SECRET=" ].

(** What [createInstance] returns: [{ error }] or the description of the
    new instance. *)
Record Created : Type := {
  cr_success : bool;
  cr_instance : string;
  cr_url : string;
  cr_admin_url : string;
  cr_api_key : string;
  cr_containers : string * string;
  cr_directory : string;
  cr_compose_output : string
}.

Inductive CreateResult : Type :=
| CreateError (msg : string)
| CreateDone (c : Created).

Definition set_status (s : string) (r : InstanceRecord) : InstanceRecord :=
  {| display_name := display_name r; subdomain := subdomain r; url := url r;
     api_key := api_key r; db_password := db_password r;
     inst_postgres_image := inst_postgres_image r;
     created_at := created_at r; status := s |}.

(** [rand_db] and [rand_key] are the two draws of [randomHex(16)];
    [now_env] and [now_created] the two readings of the clock. An absent
    optional argument is the empty string, which is as falsy. *)
Definition createInstance (name display api_key_arg pg_image : string)
    (rand_db rand_key : string) (now_env now_created : instant) (w : World)
  : CreateResult * World :=
  let config := loadDeployments w in
  if JS.has_truthy (instances config) name
  then (CreateError ("Instance '" +:+ name +:+ "' already exists."), w)
  else
    let '(nameCheck, w) := exec (DockerPsGrep name) w in
    if ok nameCheck && JS.truthy (text nameCheck)
    then (CreateError ("Container ship-" +:+ name +:+ " or db-" +:+ name
                       +:+ " already exists."), w)
    else
      let dbPassword := rand_db in
      let finalApiKey := JS.or_else api_key_arg ("sk_ship_" +:+ rand_key) in
      let instanceDir := join APPS_DIR name in
      let composeOverride :=
        if JS.truthy pg_image then with_postgres_image pg_image config else config in
      let w := set_files
                 (<[ join instanceDir "docker-compose.yml" :=
                       generateCompose name composeOverride ]> (files w)) w in
      let w := set_files
                 (<[ join instanceDir ".env" :=
                       generateEnv name display dbPassword finalApiKey now_env ]>
                    (files w)) w in
      let '(_, w) := exec (Chmod600 (join instanceDir ".env")) w in
      let record :=
        {| display_name := display;
           subdomain := "ship-" +:+ name;
           url := "https://ship-" +:+ name +:+ "." +:+ DOMAIN_SUFFIX;
           api_key := finalApiKey;
           db_password := dbPassword;
           inst_postgres_image :=
             JS.or_else pg_image
               (JS.opt_or_else (default_of postgres_image config) "postgres:17-alpine");
           created_at := now_created;
           status := "created" |} in
      let config := with_instances (JS.set name record (instances config)) config in
      let w := saveDeployments config w in
      let '(startResult, w) := exec (ComposeUp name) w in
      let w :=
        if ok startResult
        then saveDeployments
               (with_instances
                  (JS.set name (set_status "running" record) (instances config))
                  config) w
        else w in
      (CreateDone
         {| cr_success := ok startResult;
            cr_instance := name;
            cr_url := "https://ship-" +:+ name +:+ "." +:+ DOMAIN_SUFFIX;
            cr_admin_url := "https://ship-" +:+ name +:+ "." +:+ DOMAIN_SUFFIX +:+ "/admin";
            cr_api_key := finalApiKey;
            cr_containers := ("ship-" +:+ name, "db-" +:+ name);
            cr_directory := "/srv/apps/" +:+ name +:+ "/";
            cr_compose_output := JS.or_else (text startResult) (err startResult) |},
       w).

(** POST /api/instances, after the auth gate. *)
Inductive ProvisionResponse : Type :=
| Provision400 (msg : string)
| Provision409 (msg : string)
| Provision201 (c : Created).

Definition post_instances (name display api_key_arg pg_image : string)
    (rand_db rand_key : string) (now_env now_created : instant) (w : World)
  : ProvisionResponse * World :=
  if negb (JS.truthy name) || negb (JS.truthy display)
  then (Provision400 "name and display_name required", w)
  else if negb (Regex.test Regex.slug_re name)
  then (Provision400 "Invalid name format", w)
  else
    match createInstance name display api_key_arg pg_image
                         rand_db rand_key now_env now_created w with
    | (CreateError msg, w') => (Provision409 msg, w')
    | (CreateDone c, w') => (Provision201 c, w')
    end.

(** The [app_create] tool: its schema checks the name, then the handler
    provisions. [None]: the arguments are rejected by the schema. *)
Definition app_create (name display api_key_arg pg_image : string)
    (rand_db rand_key : string) (now_env now_created : instant) (w : World)
  : option CreateResult * World :=
  if negb (Regex.test Regex.slug_re name) then (None, w)
  else
    let '(r, w') := createInstance name display api_key_arg pg_image
                                   rand_db rand_key now_env now_created w in
    (Some r, w').

End Provisioner.

(** The project-name check of the [ship init] command, which forwards the
    name to [app_create]. *)
Definition ship_init_name_ok (projectName : string) : bool :=
  negb (negb (Regex.test Regex.slug_re projectName)
        && negb (Regex.test Regex.single_re projectName)).

Record Removed : Type := {
  rm_removed : string;
  rm_data_deleted : bool;
  rm_compose_down : ExecResult;
  rm_directory_deleted : option ExecResult
}.

Inductive RemoveResult : Type :=
| RemoveError (msg : string)
| RemoveDone (r : Removed).      (* success: true *)

Definition existsSync (path : string) (w : World) : bool :=
  bool_decide (is_Some (files w !! path)).

Definition removeInstance (name : string) (delete_data : bool) (w : World)
  : RemoveResult * World :=
  let config := loadDeployments w in
  if negb (JS.has_truthy (instances config) name)
  then (RemoveError ("Instance '" +:+ name +:+ "' not found"), w)
  else
    let instanceDir := join APPS_DIR name in
    let '(compose_down, w) :=
      if existsSync (join instanceDir "docker-compose.yml") w
      then exec (ComposeDown name delete_data) w
      else
        let '(_, w) := exec (DockerRmF name) w in
        (exec_ok ["Containers removed directly"], w) in
    let '(directory_deleted, w) :=
      if delete_data
      then let '(r, w) := exec (RmRf instanceDir) w in (Some r, w)
      else (None, w) in
    let config := with_instances (JS.delete name (instances config)) config in
    let w := saveDeployments config w in
    (RemoveDone {| rm_removed := name; rm_data_deleted := delete_data;
                   rm_compose_down := compose_down;
                   rm_directory_deleted := directory_deleted |}, w).

(* ===================================================================== *)
(** ** Build history *)
(* ===================================================================== *)

Definition loadBuildHistory (w : World) : list BuildRecord :=
  default [] (history_file w).

Definition saveBuildHistory (builds : list BuildRecord) (w : World) : World :=
  set_history_file (Some builds) w.

(** [history.builds.unshift(entry)]: newest first. *)
Definition recordBuild (entry : BuildRecord) (w : World) : World :=
  saveBuildHistory (entry :: loadBuildHistory w) w.

(** The local-time getters of a [Date]; [month] counts from zero. *)
Record LocalTime : Type := {
  fullYear : nat; month : nat; date : nat;
  hours : nat; minutes : nat; seconds : nat
}.

Definition generateBuildTag (now : LocalTime) : string :=
  pretty (fullYear now) +:+ JS.pad2 (month now + 1) +:+ JS.pad2 (date now)
  +:+ "-" +:+ JS.pad2 (hours now) +:+ JS.pad2 (minutes now) +:+ JS.pad2 (seconds now).

(** [resolveHostPath], on a path that is already absolute and normal. *)
Definition resolveHostPath (normalized : string) : string :=
  if JS.startsWith "/srv/" normalized || bool_decide (normalized = "/srv")
  then JS.replace "/srv" HOST_SRV normalized
  else if JS.startsWith "/data/" normalized || bool_decide (normalized = "/data")
  then JS.replace "/data" "/host-data" normalized
  else normalized.

(** [out?.replace("sha256:", "").substring(0, 12) || null] *)
Definition short_image_id (out : string) : option string :=
  let s := JS.substring0 12 (JS.replace "sha256:" "" out) in
  if JS.truthy s then Some s else None.

(* ===================================================================== *)
(** ** Retention sweep *)
(* ===================================================================== *)

Definition ONE_WEEK : Z := 7 * 24 * 60 * 60 * 1000.
Definition ONE_MONTH : Z := 30 * 24 * 60 * 60 * 1000.

(** [Set.prototype.add] on a set kept in insertion order. *)
Definition set_add (x : string) (s : list string) : list string :=
  if bool_decide (x ∈ s) then s else s ++ [x].

Definition retained_candidate (b : BuildRecord) : bool :=
  success b && JS.truthy (tag b) && negb (JS.startsWith "rollback" (tag b)).

(** The test of the [find] callbacks: [t >= start && t < end] for the
    [k]-th period of length [period] counted back from [now]. *)
Definition in_period (now period : Z) (k : Z) (b : BuildRecord) : bool :=
  let periodStart := (now - (k + 1) * period)%Z in
  let periodEnd := (now - k * period)%Z in
  (periodStart <=? timestamp b)%Z && (timestamp b <? periodEnd)%Z.

(** One [for] loop of the policy: for [k = 0 .. n-1], keep the first build
    of the log that falls in the [k]-th period. *)
Definition keep_periods (now period : Z) (n : nat) (builds : list BuildRecord)
    (keep : list string) : list string :=
  foldl (λ keep k,
           match List.find (in_period now period (Z.of_nat k)) builds with
           | Some b => set_add (tag b) keep
           | None => keep
           end)
        keep (seq 0 n).

Definition sentinel_tags : list string := ["latest"; "rollback"; "pre-rollback"].

Definition tagsToKeep (now : instant) (history : list BuildRecord) : list string :=
  let successfulBuilds := filter (λ b, retained_candidate b = true) history in
  let keep := sentinel_tags in
  let keep := foldl (λ keep b, set_add (tag b) keep) keep (take 3 successfulBuilds) in
  let keep := keep_periods now ONE_WEEK 4 successfulBuilds keep in
  let keep := keep_periods now ONE_MONTH 3 successfulBuilds keep in
  keep.

(** The removal loop over the listed tags. *)
Fixpoint sweep (keep : list string) (allTags : list string) (removed : list string)
    (w : World) : list string * World :=
  match allTags with
  | [] => (removed, w)
  | t :: rest =>
      if bool_decide (t = NONE_TAG) || bool_decide (t ∈ keep)
      then sweep keep rest removed w
      else
        let '(rm, w) := exec (DockerRmi t) w in
        sweep keep rest (if ok rm then removed ++ [t] else removed) w
  end.

Record CleanupResult : Type := {
  kept : list string;
  removed : list string;
  total_tags_before : Z;
  total_tags_after : Z
}.

(** [now] is the reading of [Date.now()]. *)
Definition cleanupBuildImages (now : instant) (w : World) : CleanupResult * World :=
  let history := loadBuildHistory w in
  let keep := tagsToKeep now history in
  let '(allTagsResult, w) := exec DockerImagesTags w in
  let allTags :=
    if ok allTagsResult
    then filter (λ l, JS.truthy l = true) (output allTagsResult)
    else [] in
  let '(removed, w) := sweep keep allTags [] w in
  ({| kept := filter (λ t, t ∈ allTags) keep;
      removed := removed;
      total_tags_before := Z.of_nat (length allTags);
      total_tags_after := (Z.of_nat (length allTags) - Z.of_nat (length removed))%Z |},
   w).

(* ===================================================================== *)
(** ** Build pipeline *)
(* ===================================================================== *)

Inductive RestartResult : Type :=
| RestartNotFound                 (* { error: "not found" } *)
| RestartRan (r : ExecResult).

(** The restart loop of the pipeline: targets that are no property of the
    registry are marked and skipped. *)
Fixpoint restart_targets (registry : JS.obj InstanceRecord) (targets : list string)
    (restarts : JS.obj RestartResult) (w : World)
  : JS.obj RestartResult * World :=
  match targets with
  | [] => (restarts, w)
  | t :: rest =>
      if negb (JS.has_truthy registry t)
      then restart_targets registry rest (JS.set t RestartNotFound restarts) w
      else
        let '(r, w) := exec (ComposeRecreateApp t) w in
        restart_targets registry rest (JS.set t (RestartRan r) restarts) w
  end.

(** The readings of the clock and the draw of [randomHex(6)] during one run
    of the pipeline. *)
Record BuildAmbient : Type := {
  started_at : instant;          (* new Date().toISOString() on entry *)
  tag_time : LocalTime;          (* new Date() in generateBuildTag *)
  recorded_at : instant;         (* Date.now() for duration_ms *)
  finished_at : instant;         (* new Date().toISOString() on exit *)
  swept_at : instant;            (* Date.now() in the retention sweep *)
  build_rand : string
}.

Record RebuildFailure : Type := {
  rf_step : string;
  rf_error : string;
  rf_started_at : instant;
  rf_finished_at : instant
}.

Record RebuildSuccess : Type := {
  rs_image_rebuilt : bool;
  rs_build_tag : option string;
  rs_image_id : option string;
  rs_instances_restarted : list string;
  rs_started_at : instant;
  rs_finished_at : instant;
  rs_build : option ExecResult;
  rs_restarts : JS.obj RestartResult
}.

Inductive RebuildResult : Type :=
| RebuildFailed (f : RebuildFailure)      (* success: false *)
| RebuildDone (s : RebuildSuccess).       (* success: true *)

(** [name] and [triggered_by] are [""] when absent. *)
Definition rebuildInstances (name : string) (skip_build : bool) (triggered : string)
    (amb : BuildAmbient) (w : World) : RebuildResult * World :=
  let config := loadDeployments w in
  let buildTag := generateBuildTag (tag_time amb) in
  let src := resolveHostPath
               (JS.opt_or_else (default_of source config) "/srv/projects/matrx-ship") in
  let '(gitCommit, w) := exec (GitRevParse src) w in
  let '(gitLog, w) := exec (GitLogSubject src) w in
  let entry (image : option string) (good : bool) (problem : option string)
            (restarted : list string) : BuildRecord :=
    {| bld_id := "bld_" +:+ build_rand amb;
       tag := buildTag;
       timestamp := started_at amb;
       git_commit := JS.or_else (text gitCommit) "unknown";
       git_message := JS.or_else (text gitLog) "unknown";
       image_id := image;
       success := good;
       error := problem;
       duration_ms := (recorded_at amb - started_at amb)%Z;
       triggered_by := JS.or_else triggered "unknown";
       instances_restarted := restarted |} in
  let restart_step (build : option ExecResult) (imageId : option string) (w : World) :=
    let targets := if JS.truthy name then [name] else JS.keys (instances config) in
    let '(restarts, w) := restart_targets (instances config) targets [] w in
    let w :=
      if negb skip_build
      then (cleanupBuildImages (swept_at amb)
              (recordBuild (entry imageId true None targets) w)).2
      else w in
    (RebuildDone
       {| rs_image_rebuilt := negb skip_build;
          rs_build_tag := if skip_build then None else Some buildTag;
          rs_image_id := imageId;
          rs_instances_restarted := targets;
          rs_started_at := started_at amb;
          rs_finished_at := finished_at amb;
          rs_build := build;
          rs_restarts := restarts |}, w) in
  if negb skip_build then
    let '(_, w) := exec (DockerTag "latest" "rollback") w in
    let '(build, w) := exec (DockerBuild buildTag src) w in
    if negb (ok build) then
      let w := recordBuild (entry None false (Some (err build)) []) w in
      (RebuildFailed
         {| rf_step := "build"; rf_error := err build;
            rf_started_at := started_at amb; rf_finished_at := finished_at amb |}, w)
    else
      let '(imgInspect, w) := exec (DockerInspectId "latest") w in
      restart_step (Some build) (short_image_id (text imgInspect)) w
  else restart_step None None w.

(* ===================================================================== *)
(** ** Rollback *)
(* ===================================================================== *)

(** The rollback loop: every target is recreated, registry or not. *)
Fixpoint restart_every (targets : list string) (restarts : JS.obj ExecResult)
    (w : World) : JS.obj ExecResult * World :=
  match targets with
  | [] => (restarts, w)
  | t :: rest =>
      let '(r, w) := exec (ComposeRecreateApp t) w in
      restart_every rest (JS.set t r restarts) w
  end.

Inductive RollbackError : Type :=
| TagRequired                        (* tag is required *)
| TagNotFound (t : string)           (* Image tag matrx-ship:T not found *)
| RetagFailed (why : string).        (* Failed to retag: ... *)

Record RolledBack : Type := {
  rolled_back_to : string;
  rb_image_id : option string;
  rb_instances_restarted : list string;
  rb_restarts : JS.obj ExecResult
}.

Inductive RollbackResult : Type :=
| RollbackFailed (e : RollbackError)  (* success: false *)
| RollbackDone (r : RolledBack).      (* success: true *)

Definition rollbackBuild (target : string) (rand : string) (now : instant) (w : World)
  : RollbackResult * World :=
  if negb (JS.truthy target) then (RollbackFailed TagRequired, w)
  else
    let '(check, w) := exec (DockerInspectId target) w in
    if negb (ok check) then (RollbackFailed (TagNotFound target), w)
    else
      let '(_, w) := exec (DockerTag "latest" "pre-rollback") w in
      let '(retag, w) := exec (DockerTag target "latest") w in
      if negb (ok retag) then (RollbackFailed (RetagFailed (err retag)), w)
      else
        let config := loadDeployments w in
        let targets := JS.keys (instances config) in
        let '(restarts, w) := restart_every targets [] w in
        let w :=
          recordBuild
            {| bld_id := "bld_" +:+ rand;
               tag := "rollback-to-" +:+ target;
               timestamp := now;
               git_commit := "rollback";
               git_message := "Rollback to image tag: " +:+ target;
               image_id := short_image_id (text check);
               success := true;
               error := None;
               duration_ms := 0;
               triggered_by := "rollback";
               instances_restarted := targets |} w in
        (RollbackDone
           {| rolled_back_to := target;
              rb_image_id := short_image_id (text check);
              rb_instances_restarted := targets;
              rb_restarts := restarts |}, w).


(* ===================================================================== *)
(** ** Vocabulary of the properties *)
(* ===================================================================== *)


Definition is_restart (c : Cmd) : bool :=
  match c with
  | ComposeRecreateApp _ => true
  | _ => false
  end.

(** The restarts a trace contains. *)
Definition restarts_in (tr : list Cmd) : list Cmd :=
  filter (λ c, is_restart c = true) tr.

Definition restarted_ok (r : RestartResult) : bool :=
  match r with
  | RestartRan e => ok e
  | RestartNotFound => false
  end.

(** The targets of a pipeline run whose application service was recreated. *)
Definition actually_restarted (restarts : JS.obj RestartResult) : list string :=
  (filter (λ kv, restarted_ok kv.2 = true) restarts).*1.

(* ===================================================================== *)
(** ** Sample hosts *)
(* ===================================================================== *)

Definition no_fault : Cmd → option string := λ _, None.

(** A fresh host: no document on disk, no image, no container. *)
Definition fresh_host : World :=
  {| tokens_file := None; deployments_file := None; history_file := None;
     files := ∅; images := []; containers := [];
     git_head := "4f2a9c1"; git_subject := "Initial commit";
     next_image := "sha256:0123456789abcdef0123456789abcdef";
     fault := no_fault; trace := [] |}.

Definition acme_record : InstanceRecord :=
  {| display_name := "Acme Corp"; subdomain := "ship-acme";
     url := "https://ship-acme.dev.codematrx.com";
     api_key := "sk_ship_00ff"; db_password := "c0ffee";
     inst_postgres_image := "postgres:17-alpine";
     created_at := 1767225600000; status := "running" |}.

(** A host with one tenant, [acme], and one image under two tags. *)
Definition acme_host : World :=
  {| tokens_file := None;
     deployments_file :=
       Some (with_instances [("acme", acme_record)] default_config);
     history_file := None;
     files := {[ join (join APPS_DIR "acme") "docker-compose.yml" := "services:";
                 join (join APPS_DIR "acme") ".env" := "POSTGRES_PASSWORD=c0ffee" ]};
     images := [ ("latest", "sha256:aaaaaaaaaaaaaaaa");
                 ("20260101-000000", "sha256:aaaaaaaaaaaaaaaa");
                 ("20251201-000000", "sha256:bbbbbbbbbbbbbbbb") ];
     containers := ["ship-acme"; "db-acme"];
     git_head := "4f2a9c1"; git_subject := "Initial commit";
     next_image := "sha256:cccccccccccccccc";
     fault := no_fault; trace := [] |}.

(** The same host on a day the named subprocess fails. *)
Definition failing (bad : Cmd → bool) (why : string) (w : World) : World :=
  {| tokens_file := tokens_file w; deployments_file := deployments_file w;
     history_file := history_file w; files := files w; images := images w;
     containers := containers w; git_head := git_head w;
     git_subject := git_subject w; next_image := next_image w;
     fault := λ c, if bad c then Some why else fault w c; trace := trace w |}.



Definition is_compose_down (c : Cmd) : bool :=
  match c with ComposeDown _ _ => true | _ => false end.

Definition sample_ambient : BuildAmbient :=
  {| started_at := 1767225600000;
     tag_time := {| fullYear := 2026; month := 0; date := 1;
                    hours := 0; minutes := 0; seconds := 0 |};
     recorded_at := 1767225660000;
     finished_at := 1767225659000;
     swept_at := 1767225661000;
     build_rand := "a1b2c3d4e5f6" |}.

(** A stand-in for the digest in the sample hosts. *)
Definition sample_hash (token : string) : string := "sha256(" +:+ token +:+ ")".

Definition admin_token : TokenRecord :=
  {| tok_id := "tok_000001"; token_hash := sample_hash "s3cret-admin";
     tok_label := "Admin"; tok_role := "admin";
     tok_created_at := 1767225600000; last_used_at := None |}.

Definition deployer_token : TokenRecord :=
  {| tok_id := "tok_000002"; token_hash := sample_hash "s3cret-ci";
     tok_label := "CI"; tok_role := "deployer";
     tok_created_at := 1767225600000; last_used_at := None |}.

Definition one_token_host : World := set_tokens_file (Some [admin_token]) fresh_host.

Definition two_token_host : World :=
  set_tokens_file (Some [admin_token; deployer_token]) fresh_host.

(** The bearer token a request presents, if it presents one. *)
Definition credential_of (authorization : option string) : option string :=
  match authorization with
  | Some auth =>
      if JS.truthy auth && JS.startsWith "Bearer " auth
      then let token := JS.replace "Bearer " "" auth in
           if JS.truthy token then Some token else None
      else None
  | None => None
  end.


(** A host whose current image differs from the one behind the
    [pre-rollback] safety tag. *)
Definition rolled_back_host : World :=
  set_images [ ("latest", "sha256:aaaaaaaaaaaaaaaa");
               ("pre-rollback", "sha256:bbbbbbbbbbbbbbbb");
               ("20260101-000000", "sha256:aaaaaaaaaaaaaaaa");
               ("20260102-000000", "sha256:bbbbbbbbbbbbbbbb") ] acme_host.

(** [b] is what [builds.find(inPeriod)] returns: the first build of the log
    inside the [k]-th period counted back from [now]. *)
Definition first_in_period (now period : Z) (k : nat) (builds : list BuildRecord)
    (b : BuildRecord) : Prop :=
  ∃ newer older,
    builds = newer ++ b :: older
    ∧ in_period now period (Z.of_nat k) b = true
    ∧ Forall (λ x, in_period now period (Z.of_nat k) x = false) newer.

(** *** The calendar reading of the retention schedule *)

Definition DAY : Z := 24 * 60 * 60 * 1000.

(** The calendar week of an instant (UTC, weeks from Monday): the epoch was
    a Thursday. *)
Definition calendar_week (t : instant) : Z := ((t + 3 * DAY) `div` (7 * DAY))%Z.

(** The calendar month of an instant (UTC), as months since year 0 of the
    proleptic Gregorian calendar. *)
Definition calendar_month (t : instant) : Z :=
  (let z := t `div` DAY + 719468 in
   let era := z `div` 146097 in
   let doe := z - era * 146097 in
   let yoe := (doe - doe `div` 1460 + doe `div` 36524 - doe `div` 146096) `div` 365 in
   let doy := doe - (365 * yoe + yoe `div` 4 - yoe `div` 100) in
   let mp := (5 * doy + 2) `div` 153 in
   let m := if mp <? 10 then mp + 3 else mp - 9 in
   let y := yoe + era * 400 + (if m <=? 2 then 1 else 0) in
   y * 12 + (m - 1))%Z.

(** The keep-set as the words "per calendar week" and "per calendar month"
    describe it: the sentinels, the three most recent retained builds, and
    two selections of retained builds, one with at most one build per
    calendar week among the current and the four preceding weeks, one with
    at most one build per calendar month among the current and the three
    preceding months. *)
Definition calendar_keep_set (now : instant) (history : list BuildRecord)
    (keep : list string) : Prop :=
  let good := filter (λ b, retained_candidate b = true) history in
  ∃ weekly monthly : list BuildRecord,
    (∀ b, b ∈ weekly → b ∈ good)
    ∧ (∀ b, b ∈ monthly → b ∈ good)
    ∧ (∀ b, b ∈ weekly →
         (0 ≤ calendar_week now - calendar_week (timestamp b) ≤ 4)%Z)
    ∧ (∀ b b', b ∈ weekly → b' ∈ weekly →
         calendar_week (timestamp b) = calendar_week (timestamp b') → b = b')
    ∧ (∀ b, b ∈ monthly →
         (0 ≤ calendar_month now - calendar_month (timestamp b) ≤ 3)%Z)
    ∧ (∀ b b', b ∈ monthly → b' ∈ monthly →
         calendar_month (timestamp b) = calendar_month (timestamp b') → b = b')
    ∧ ∀ t, t ∈ keep ↔
           t ∈ sentinel_tags ∨ t ∈ tag <$> take 3 good
           ∨ t ∈ tag <$> weekly ∨ t ∈ tag <$> monthly.

Definition build_at (t : string) (at_ms : instant) : BuildRecord :=
  {| bld_id := "bld_" +:+ t; tag := t; timestamp := at_ms;
     git_commit := "4f2a9c1"; git_message := "Initial commit";
     image_id := Some "aaaaaaaaaaaa"; success := true; error := None;
     duration_ms := 60000; triggered_by := "api"; instances_restarted := ["acme"] |}.

(** 2026-03-17 12:17:00 UTC. *)
Definition march_17 : instant := 1773749820000.

(** Three builds from the morning of 17 March, and two builds made one
    millisecond apart at midday on 16 January, sixty days earlier. *)
Definition winter_history : list BuildRecord :=
  [ build_at "20260317-111700" (march_17 - 3600000);
    build_at "20260317-101700" (march_17 - 7200000);
    build_at "20260317-091700" (march_17 - 10800000);
    build_at "20260116-121700" (march_17 - 2 * ONE_MONTH);
    build_at "20260116-121659" (march_17 - 2 * ONE_MONTH - 1) ].

Definition winter_host : World :=
  set_images [ ("latest", "sha256:aaaaaaaaaaaaaaaa");
               ("20260317-111700", "sha256:aaaaaaaaaaaaaaaa");
               ("20260317-101700", "sha256:bbbbbbbbbbbbbbbb");
               ("20260317-091700", "sha256:cccccccccccccccc");
               ("20260116-121700", "sha256:dddddddddddddddd");
               ("20260116-121659", "sha256:eeeeeeeeeeeeeeee");
               ("20251225-000000", "sha256:ffffffffffffffff");
               ("<none>", "sha256:9999999999999999") ]
    (set_history_file (Some winter_history) acme_host).

(** Two hosts in the same state: they differ at most in the log of the
    subprocesses spawned. *)
Definition same_state (w w' : World) : Prop :=
  tokens_file w' = tokens_file w
  ∧ deployments_file w' = deployments_file w
  ∧ history_file w' = history_file w
  ∧ files w' = files w
  ∧ images w' = images w
  ∧ containers w' = containers w
  ∧ fault w' = fault w.

(** The [allTags] of the sweep: the non-empty lines of the tag listing, or
    nothing when the listing fails. *)
Definition listed_tags (w : World) : list string :=
  match fault w DockerImagesTags with
  | Some _ => []
  | None => filter (λ l, JS.truthy l = true) ((images w).*1)
  end.

(* ===================================================================== *)
(** ** Build history queries *)
(* ===================================================================== *)

Record BuildHistoryPage : Type := {
  page_builds : list BuildRecord;
  page_total : nat
}.

(** [l.slice(0, limit)] for an integral [limit]: a negative limit counts
    from the end. *)
Definition slice_to {A : Type} (limit : Z) (l : list A) : list A :=
  if (limit <? 0)%Z
  then take (length l - Z.to_nat (- limit)) l
  else take (Z.to_nat limit) l.

(** [getBuildHistory({ limit, include_failed })]; [limit] is an integral
    number, or absent. *)
Definition getBuildHistory (limit : option Z) (include_failed : bool) (w : World)
  : BuildHistoryPage :=
  let history := loadBuildHistory w in
  let builds := history in
  let builds :=
    if negb include_failed then filter (λ b, success b = true) builds else builds in
  let builds :=
    match limit with
    | Some l => if (l =? 0)%Z then builds else slice_to l builds
    | None => builds
    end in
  {| page_builds := builds; page_total := length history |}.

(** GET /api/build-history, after the auth gate: [parseInt(query.limit) || 50];
    [None] is the [NaN] of a missing or non-numeric parameter. *)
Definition get_build_history (limit_query : option Z) (include_failed : bool)
    (w : World) : BuildHistoryPage :=
  let limit :=
    match limit_query with
    | Some l => if (l =? 0)%Z then 50%Z else l
    | None => 50%Z
    end in
  getBuildHistory (Some limit) include_failed w.

(* ===================================================================== *)
(** ** Routes behind the gate *)
(* ===================================================================== *)

(** POST /api/instances/:name/start, after the gate. *)
Inductive StartResponse : Type :=
| Start404                          (* Instance not found *)
| Start200 (r : ExecResult).

Definition post_instance_start (name : string) (w : World) : StartResponse * World :=
  let instanceDir := join APPS_DIR name in
  if negb (existsSync (join instanceDir "docker-compose.yml") w) then (Start404, w)
  else let '(r, w) := exec (ComposeUp name) w in (Start200 r, w).

(** POST /api/rollback, after the gate: [body.tag || query.tag], absent as
    the empty string. *)
Inductive RollbackResponse : Type :=
| Rollback400_tag_required
| RollbackAnswer (status : nat) (r : RollbackResult).

Definition post_rollback (body_tag query_tag : string) (rand : string) (now : instant)
    (w : World) : RollbackResponse * World :=
  let target := JS.or_else body_tag query_tag in
  if negb (JS.truthy target) then (Rollback400_tag_required, w)
  else
    let '(result, w) := rollbackBuild target rand now w in
    (RollbackAnswer (match result with RollbackDone _ => 200 | RollbackFailed _ => 400 end)
                    result, w).

(** POST /api/rebuild, after the gate: the caller is named by the label of
    the token, or [api]. *)
Definition post_rebuild (name : string) (skip_build : bool) (amb : BuildAmbient)
    (tokenEntry : option TokenRecord) (w : World) : (nat * RebuildResult) * World :=
  let triggered_by :=
    JS.or_else (match tokenEntry with Some e => tok_label e | None => "" end) "api" in
  let '(result, w) := rebuildInstances name skip_build triggered_by amb w in
  ((match result with RebuildDone _ => 200 | RebuildFailed _ => 500 end, result), w).

Section Api.

Variable hashToken : string → string.
Variable envToken : option string.
Variable toISOString : instant → string.

(** The answer of a route [app.METHOD(path, authMiddleware, requireRole(..),
    handler)]: the handler ran, or a middleware answered first. *)
Inductive Routed (R : Type) : Type :=
| Ran (r : R)
| Status401 (why : AuthFailure)
| Status403.
Arguments Ran {R} r.
Arguments Status401 {R} why.
Arguments Status403 {R}.

(** [roles] is [None] for a route without [requireRole]. *)
Definition route {R : Type} (roles : option (list string))
    (handler : option TokenRecord → World → R * World)
    (authorization : option string) (now : instant) (w : World)
  : Routed R * World :=
  match authMiddleware hashToken envToken authorization now w with
  | (Unauthorized why, w') => (Status401 why, w')
  | (Next tokenEntry, w') =>
      if match roles with
         | Some rs => requireRole rs tokenEntry
         | None => true
         end
      then let '(r, w'') := handler tokenEntry w' in (Ran r, w'')
      else (Status403, w')
  end.

(** The mutating requests of the REST API, with the readings of the clock
    and the random draws their handlers consume. *)
Inductive Request : Type :=
| ProvisionInstance (name display key pg rand_db rand_key : string)
                    (now_env now_created : instant)
| DeleteInstance (name : string) (delete_data : bool)
| StartInstance (name : string)
| Rebuild (name : string) (skip_build : bool) (amb : BuildAmbient)
| Rollback (body_tag query_tag rand : string) (now : instant)
| BuildCleanup (now : instant)
| CreateToken (label role rawToken rand : string) (now : instant)
| DeleteToken (id : string).

(** The host after the server has answered a request. *)
Definition serve (req : Request) (authorization : option string) (now : instant)
    (w : World) : World :=
  match req with
  | ProvisionInstance name display key pg rand_db rand_key now_env now_created =>
      (route (Some ["admin"; "deployer"])
             (λ _, post_instances toISOString name display key pg
                                  rand_db rand_key now_env now_created)
             authorization now w).2
  | DeleteInstance name delete_data =>
      (route (Some ["admin"]) (λ _, removeInstance name delete_data)
             authorization now w).2
  | StartInstance name =>
      (route (Some ["admin"; "deployer"]) (λ _, post_instance_start name)
             authorization now w).2
  | Rebuild name skip_build amb =>
      (route (Some ["admin"; "deployer"]) (post_rebuild name skip_build amb)
             authorization now w).2
  | Rollback body_tag query_tag rand at_ms =>
      (route (Some ["admin"]) (λ _, post_rollback body_tag query_tag rand at_ms)
             authorization now w).2
  | BuildCleanup at_ms =>
      (route (Some ["admin"]) (λ _, cleanupBuildImages at_ms) authorization now w).2
  | CreateToken label role rawToken rand at_ms =>
      (route (Some ["admin"]) (λ _, post_tokens hashToken label role rawToken rand at_ms)
             authorization now w).2
  | DeleteToken id =>
      (route (Some ["admin"]) (λ _, delete_tokens id) authorization now w).2
  end.

End Api.

Arguments Ran {R} r.
Arguments Status401 {R} why.
Arguments Status403 {R}.

(** A registry entry as provisioning writes it: the subdomain and the URL
    are derived from the name, and the status is [created] or [running]. *)
Definition record_derived (name : string) (r : InstanceRecord) : Prop :=
  subdomain r = "ship-" +:+ name
  ∧ url r = "https://ship-" +:+ name +:+ "." +:+ DOMAIN_SUFFIX
  ∧ (status r = "created" ∨ status r = "running").

Definition registry_derived (w : World) : Prop :=
  ∀ name r, (name, r) ∈ instances (loadDeployments w) → record_derived name r.

(* ===================================================================== *)
(** ** The project name of [ship init] *)
(* ===================================================================== *)

Definition hyphen : ascii := "-"%char.

(** [.replace(/[^a-z0-9-]/g, "-")] *)
Definition dash_foreign (s : list ascii) : list ascii :=
  (λ c, if Regex.lower_alnum_hyphen c then c else hyphen) <$> s.

Fixpoint drop_hyphens (s : list ascii) : list ascii :=
  match s with
  | c :: s' => if decide (c = hyphen) then drop_hyphens s' else s
  | [] => []
  end.

(** [.replace(/^-+|-+$/g, "")]: the leading run and the trailing run of
    hyphens go. *)
Definition trim_hyphens (s : list ascii) : list ascii :=
  reverse (drop_hyphens (reverse (drop_hyphens s))).

(** [.replace(/-{2,}/g, "-")]: every run of two hyphens or more becomes
    one hyphen. *)
Fixpoint squeeze_hyphens (s : list ascii) : list ascii :=
  match s with
  | c :: s' =>
      match s' with
      | c' :: _ =>
          if decide (c = hyphen ∧ c' = hyphen)
          then squeeze_hyphens s'
          else c :: squeeze_hyphens s'
      | [] => [c]
      end
  | [] => []
  end.

Section ShipInit.

(** [String.prototype.toLowerCase] *)
Variable toLowerCase : string → string.

(** The project name taken from the base name of the working directory. *)
Definition derived_project_name (basename : string) : string :=
  string_of_list_ascii
    (squeeze_hyphens
       (trim_hyphens
          (dash_foreign (list_ascii_of_string (toLowerCase basename))))).

Inductive InitName : Type :=
| NameUndetermined                 (* Could not determine project name *)
| NameInvalid (projectName : string)
| NameAccepted (projectName : string).

(** The name [ship init] goes on with: the first positional argument, or
    else the name derived from the directory, checked. *)
Definition init_project_name (positional basename : string) : InitName :=
  let projectName :=
    if JS.truthy positional then positional else derived_project_name basename in
  if negb (JS.truthy projectName) then NameUndetermined
  else if ship_init_name_ok projectName then NameAccepted projectName
  else NameInvalid projectName.

End ShipInit.

(* ===================================================================== *)
(** ** Vocabulary of the further properties *)
(* ===================================================================== *)

(** Commands that delete no file. *)
Definition keeps_files (c : Cmd) : Prop :=
  match c with RmRf _ => False | _ => True end.

(** A name without a path separator. *)
Definition no_slash (name : string) : Prop :=
  "/"%char ∉ list_ascii_of_string name.

(** The compose file and the secrets file of an instance. *)
Definition compose_path (name : string) : string :=
  join (join APPS_DIR name) "docker-compose.yml".
Definition env_path (name : string) : string :=
  join (join APPS_DIR name) ".env".

(** The targets of a pipeline run. *)
Definition restart_set (name : string) (w : World) : list string :=
  if JS.truthy name then [name] else JS.keys (instances (loadDeployments w)).

(** Commands that touch neither a container nor a file. *)
Definition keeps_host (c : Cmd) : Prop :=
  match c with
  | ComposeUp _ | ComposeDown _ _ | DockerRmF _ | RmRf _ => False
  | _ => True
  end.

(** Two hosts that differ at most in the image table, the build history and
    the subprocess log. *)
Definition host_frame (w w' : World) : Prop :=
  tokens_file w' = tokens_file w
  ∧ deployments_file w' = deployments_file w
  ∧ files w' = files w
  ∧ containers w' = containers w
  ∧ fault w' = fault w
  ∧ next_image w' = next_image w.

(** The source tree the pipeline builds from. *)
Definition build_source (w : World) : string :=
  resolveHostPath
    (JS.opt_or_else (default_of source (loadDeployments w)) "/srv/projects/matrx-ship").

(** A string that starts with a decimal digit. *)
Definition starts_with_digit (s : string) : Prop :=
  match s with
  | String c _ => JS.is_digit c = true
  | EmptyString => False
  end.

(** The history of [w'] is the history of [w], or one record on top of it. *)
Definition history_grows (w w' : World) : Prop :=
  loadBuildHistory w' = loadBuildHistory w
  ∨ ∃ entry, loadBuildHistory w' = entry :: loadBuildHistory w.

(** The requests whose handler reaches [recordBuild]. *)
Definition records_build (req : Request) : bool :=
  match req with
  | Rebuild _ skip_build _ => negb skip_build
  | Rollback _ _ _ _ => true
  | _ => false
  end.

(** The requests whose handler reaches [saveDeployments]. *)
Definition writes_registry (req : Request) : bool :=
  match req with
  | ProvisionInstance _ _ _ _ _ _ _ _ | DeleteInstance _ _ => true
  | _ => false
  end.
(* ===================================================================== *)
(** * Properties *)
(* ===================================================================== *)

Local Open Scope nat_scope.

(** ** The matcher decides the language of the expression *)

Module RegexFacts.
Import Regex.

Lemma lang_cat_inv r s w :
  lang (Cat r s) w → ∃ u v, w = u ++ v ∧ lang r u ∧ lang s v.
Proof. inversion 1; subst. by eexists _, _. Qed.

Lemma lang_alt_inv r s w : lang (Alt r s) w → lang r w ∨ lang s w.
Proof. inversion 1; subst; [by left | by right]. Qed.

Lemma lang_class_inv p w : lang (Class p) w → ∃ c, w = [c] ∧ p c = true.
Proof. inversion 1; subst. by eexists. Qed.

Lemma lang_cat_cons r s c u v : lang r (c :: u) → lang s v → lang (Cat r s) (c :: u ++ v).
Proof. intros Hu Hv. change (lang (Cat r s) ((c :: u) ++ v)). by constructor. Qed.

Lemma nullable_lang r : nullable r = true ↔ lang r [].
Proof.
  induction r as [| |p|r IHr s IHs|r IHr s IHs|r IHr]; simpl.
  - split; [discriminate | inversion 1].
  - split; [constructor | done].
  - split; [discriminate | inversion 1].
  - rewrite andb_true_iff, IHr, IHs. split.
    + intros [Hr Hs]. change (lang (Cat r s) ([] ++ [])). by constructor.
    + intros (u & v & Heq & Hu & Hv)%lang_cat_inv.
      symmetry in Heq. apply app_eq_nil in Heq as [-> ->]. done.
  - rewrite orb_true_iff, IHr, IHs. split.
    + intros [H|H]; [by apply lang_alt_l | by apply lang_alt_r].
    + apply lang_alt_inv.
  - split; [constructor | done].
Qed.

(** A non-empty word of [Star r] starts with a non-empty word of [r]. *)
Lemma lang_star_cons r c w :
  lang (Star r) (c :: w) →
  ∃ u v, w = u ++ v ∧ lang r (c :: u) ∧ lang (Star r) v.
Proof.
  intros H. remember (Star r) as sr eqn:Hsr. remember (c :: w) as cw eqn:Hcw.
  revert w Hcw.
  induction H as [| | | | | |r' u v Hu _ Hv IHv]; intros w Hcw; try discriminate.
  injection Hsr as ->.
  destruct u as [|c' u]; simpl in Hcw.
  - by apply IHv.
  - injection Hcw as -> <-. by exists u, v.
Qed.

Lemma deriv_lang r c w : lang (deriv c r) w ↔ lang r (c :: w).
Proof.
  revert w.
  induction r as [| |p|r IHr s IHs|r IHr s IHs|r IHr]; intros w; simpl.
  - split; inversion 1.
  - split; inversion 1.
  - destruct (p c) eqn:Hp; split.
    + inversion 1; subst. by constructor.
    + inversion 1; subst. constructor.
    + inversion 1.
    + inversion 1; subst. congruence.
  - assert (Hcat : lang (Cat (deriv c r) s) w → lang (Cat r s) (c :: w)).
    { intros (u & v & -> & Hu & Hv)%lang_cat_inv.
      apply lang_cat_cons; [by apply IHr | done]. }
    assert (Hback : lang (Cat r s) (c :: w) →
                    lang (Cat (deriv c r) s) w ∨ (lang r [] ∧ lang (deriv c s) w)).
    { intros (u & v & Heq & Hu & Hv)%lang_cat_inv.
      destruct u as [|c' u]; simpl in Heq.
      - subst v. right. split; [done | by apply IHs].
      - injection Heq as <- ->. left. constructor; [by apply IHr | done]. }
    destruct (nullable r) eqn:Hn; split.
    + intros [H|H]%lang_alt_inv; [by apply Hcat |].
      change (lang (Cat r s) ([] ++ c :: w)).
      constructor; [by apply nullable_lang | by apply IHs].
    + intros H. destruct (Hback H) as [H'|[_ H']];
        [by apply lang_alt_l | by apply lang_alt_r].
    + apply Hcat.
    + intros H. destruct (Hback H) as [H'|[H' _]]; [done |].
      apply nullable_lang in H'. congruence.
  - split.
    + intros [H|H]%lang_alt_inv; [apply lang_alt_l; by apply IHr | apply lang_alt_r; by apply IHs].
    + intros [H|H]%lang_alt_inv; [apply lang_alt_l; by apply IHr | apply lang_alt_r; by apply IHs].
  - split.
    + intros (u & v & -> & Hu & Hv)%lang_cat_inv.
      apply IHr in Hu. change (lang (Star r) ((c :: u) ++ v)). by constructor.
    + intros H. apply lang_star_cons in H as (u & v & -> & Hu & Hv).
      constructor; [by apply IHr | done].
Qed.

Lemma accepts_lang r w : accepts r w = true ↔ lang r w.
Proof.
  revert r. induction w as [|c w IH]; intros r; simpl.
  - apply nullable_lang.
  - rewrite IH. apply deriv_lang.
Qed.

Lemma lang_star_class p w : lang (Star (Class p)) w ↔ Forall (λ c, p c = true) w.
Proof.
  split.
  - intros H. remember (Star (Class p)) as sr eqn:Hsr.
    induction H as [| | | | | |r u v Hu _ Hv IHv]; try discriminate; [constructor |].
    injection Hsr as ->. apply lang_class_inv in Hu as (c & -> & Hc).
    constructor; [done | by apply IHv].
  - induction 1 as [|c w Hc _ IH]; [constructor |].
    change (lang (Star (Class p)) ([c] ++ w)). constructor; [by constructor | done].
Qed.

(** The words of the slug pattern: a lower-case letter or digit, any run of
    letters, digits and hyphens, and a closing letter or digit. *)
Lemma slug_lang w :
  lang slug_re w ↔
  ∃ a mid z, w = a :: mid ++ [z] ∧ lower_alnum a = true ∧
             Forall (λ c, lower_alnum_hyphen c = true) mid ∧ lower_alnum z = true.
Proof.
  unfold slug_re. split.
  - intros (u & v & -> & (a & -> & Ha)%lang_class_inv
              & (m & t & -> & Hm%lang_star_class & (z & -> & Hz)%lang_class_inv)%lang_cat_inv)%lang_cat_inv.
    by exists a, m, z.
  - intros (a & mid & z & -> & Ha & Hmid & Hz).
    change (lang (Cat (Class lower_alnum)
                    (Cat (Star (Class lower_alnum_hyphen)) (Class lower_alnum)))
              ([a] ++ (mid ++ [z]))).
    constructor; [by constructor |].
    constructor; [by apply lang_star_class | by constructor].
Qed.

Lemma slug_test_spec name :
  test slug_re name = true ↔
  ∃ a mid z, list_ascii_of_string name = a :: mid ++ [z] ∧ lower_alnum a = true ∧
             Forall (λ c, lower_alnum_hyphen c = true) mid ∧ lower_alnum z = true.
Proof. unfold test. rewrite accepts_lang. apply slug_lang. Qed.

(** No slug has fewer than two characters. *)
Lemma slug_test_length name :
  test slug_re name = true → (2 ≤ String.length name)%nat.
Proof.
  intros (a & mid & z & Heq & _)%slug_test_spec.
  rewrite <- (string_of_list_ascii_of_string name), Heq.
  clear Heq. simpl. destruct mid; simpl; lia.
Qed.

End RegexFacts.

(** ** What a subprocess can and cannot change *)


Lemma exec_fault c w : fault (exec c w).2 = fault w.
Proof.
  unfold exec. destruct (fault w c); [done |].
  destruct c; simpl; repeat case_match; done.
Qed.

Lemma exec_trace c w : trace (exec c w).2 = trace w ++ [c].
Proof.
  unfold exec. destruct (fault w c); [done |].
  destruct c; simpl; repeat case_match; done.
Qed.

Lemma exec_documents c w :
  tokens_file (exec c w).2 = tokens_file w ∧
  deployments_file (exec c w).2 = deployments_file w ∧
  history_file (exec c w).2 = history_file w.
Proof.
  unfold exec. destruct (fault w c); [done |].
  destruct c; simpl; repeat case_match; done.
Qed.



(** ** Tags of the image table *)

Lemma resolve_tag_point_ne rows t i t' :
  t ≠ t' → resolve_tag (point_tag t i rows) t' = resolve_tag rows t'.
Proof.
  intros Hne. unfold point_tag. destruct (resolve_tag rows t) as [j|].
  - clear j. induction rows as [|[k v] rows IH]; [done |].
    rewrite fmap_cons. simpl.
    destruct (decide (k = t)) as [->|Hk]; simpl; rewrite IH.
    + destruct (decide (t = t' ∧ t' ≠ NONE_TAG)) as [[? _]|_]; [congruence | done].
    + done.
  - simpl. destruct (decide (t = t' ∧ t' ≠ NONE_TAG)) as [[? _]|_]; [congruence | done].
Qed.

Lemma resolve_tag_Some_elem rows t i :
  resolve_tag rows t = Some i → t ∈ rows.*1 ∧ t ≠ NONE_TAG.
Proof.
  induction rows as [|[k v] rows IH]; [done |]. simpl.
  case_decide as Hk.
  - intros _. destruct Hk as [-> ?]. split; [left | done].
  - intros [? ?]%IH. split; [by right | done].
Qed.

Lemma resolve_tag_elem rows t :
  t ∈ rows.*1 → t ≠ NONE_TAG → is_Some (resolve_tag rows t).
Proof.
  intros Hin Hne. induction rows as [|[k v] rows IH]; simpl in *.
  - by apply elem_of_nil in Hin.
  - case_decide as Hk; [by eexists |].
    apply elem_of_cons in Hin as [->|Hin]; [naive_solver | by apply IH].
Qed.

Lemma resolve_tag_point_eq rows t i :
  t ≠ NONE_TAG → resolve_tag (point_tag t i rows) t = Some i.
Proof.
  intros Hne. unfold point_tag. destruct (resolve_tag rows t) as [j|] eqn:Hr.
  - assert (Hin : is_Some (resolve_tag rows t)) by (by eexists).
    clear j Hr. induction rows as [|[k v] rows IH].
    + simpl in *. by destruct Hin.
    + rewrite fmap_cons. simpl in *.
      destruct (decide (k = t)) as [->|Hk]; simpl.
      * destruct (decide (t = t ∧ t ≠ NONE_TAG)) as [_|Hn]; [done | by destruct Hn].
      * destruct (decide (k = t ∧ t ≠ NONE_TAG)) as [[? _]|_]; [congruence |]. by apply IH.
  - simpl. destruct (decide (t = t ∧ t ≠ NONE_TAG)) as [_|Hn]; [done | by destruct Hn].
Qed.

Lemma untag_elem rows t k : k ∈ (untag t rows).*1 ↔ k ∈ rows.*1 ∧ k ≠ t.
Proof.
  unfold untag. rewrite !list_elem_of_fmap. split.
  - intros ([k' v] & -> & [Hin Hne]%list_elem_of_filter). simpl in *.
    split; [|done]. by exists (k', v).
  - intros [([k' v] & -> & Hin) Hne]. exists (k', v). split; [done |].
    by apply list_elem_of_filter.
Qed.


(** ** Build pipeline: a failed build *)



(** ** Provisioning *)

Lemma has_truthy_own {V} (o : JS.obj V) k v :
  JS.get_own o k = Some v → JS.has_truthy o k = true.
Proof. unfold JS.has_truthy. by intros ->. Qed.

Lemma has_truthy_false {V} (o : JS.obj V) k :
  JS.has_truthy o k = false ↔ JS.get_own o k = None ∧ JS.inherited k = false.
Proof.
  unfold JS.has_truthy. destruct (JS.get_own o k); split; try done.
  - by intros [? _].
  - by intros [_ ?].
Qed.

(** C7. Provisioning under the name of a registry entry is refused with the
    conflict answer (409 on the REST route, [{ error }] from the tool), and
    the host is exactly as before: the entry, with its api key, database
    password, status and timestamps, and every rendered file. *)
Theorem provisioning_existing_name_conflicts
    toISOString name display key pg rand_db rand_key now_env now_created w original :
  Regex.test Regex.slug_re name = true →
  JS.truthy display = true →
  JS.get_own (instances (loadDeployments w)) name = Some original →
  ∃ msg,
    post_instances toISOString name display key pg
                   rand_db rand_key now_env now_created w = (Provision409 msg, w)
    ∧ app_create toISOString name display key pg
                 rand_db rand_key now_env now_created w = (Some (CreateError msg), w)
    ∧ JS.get_own (instances (loadDeployments w)) name = Some original.
Proof.
  intros Hslug Hdisplay Hown.
  exists ("Instance '" +:+ name +:+ "' already exists.").
  assert (Hname : JS.truthy name = true).
  { apply RegexFacts.slug_test_length in Hslug. destruct name; simpl in *; [lia | done]. }
  unfold post_instances, app_create, createInstance.
  rewrite Hname, Hdisplay, Hslug, (has_truthy_own _ _ _ Hown). done.
Qed.

Lemma provisioning_existing_name_conflicts_witness :
  ∃ msg,
    post_instances (λ _, "2026-01-01T00:00:00.000Z") "acme" "Acme Again" "" ""
                   "deadbeef" "feedface" 0 0 acme_host = (Provision409 msg, acme_host)
    ∧ JS.get_own (instances (loadDeployments acme_host)) "acme" = Some acme_record.
Proof.
  destruct (provisioning_existing_name_conflicts
              (λ _, "2026-01-01T00:00:00.000Z") "acme" "Acme Again" "" ""
              "deadbeef" "feedface" 0 0 acme_host acme_record)
    as (msg & H1 & _ & H3); [reflexivity | reflexivity | reflexivity |].
  by exists msg.
Defined.

(** The name check of the REST route: a request with a display name is
    answered 400 exactly when the name does not match the slug pattern, and
    a 400 leaves the host untouched. *)
Lemma post_instances_validates
    toISOString name display key pg rand_db rand_key now_env now_created w :
  JS.truthy display = true →
  ((∃ msg, (post_instances toISOString name display key pg
                           rand_db rand_key now_env now_created w).1 = Provision400 msg)
   ↔ Regex.test Regex.slug_re name = false)
  ∧ (∀ msg w', post_instances toISOString name display key pg
                              rand_db rand_key now_env now_created w
               = (Provision400 msg, w') → w' = w).
Proof.
  intros Hdisplay. unfold post_instances. rewrite Hdisplay.
  destruct (Regex.test Regex.slug_re name) eqn:Hslug.
  - assert (Hname : JS.truthy name = true).
    { apply RegexFacts.slug_test_length in Hslug. destruct name; simpl in *; [lia | done]. }
    rewrite Hname. cbn [negb orb].
    destruct (createInstance _ _ _ _ _ _ _ _ _ _) as [[msg|c] w1]; split.
    + split; [intros [? [=]] | done].
    + intros ? ? [=].
    + split; [intros [? [=]] | done].
    + intros ? ? [=].
  - destruct (JS.truthy name); cbn [negb orb]; split.
    + split; [done | by eexists].
    + by intros ? ? [= _ <-].
    + split; [done | by eexists].
    + by intros ? ? [= _ <-].
Qed.

(** C8. A one-character name such as [a], which the project-name check of
    the deployment client lets through, is refused by both provisioning
    entry points: the slug pattern needs two characters. *)
Theorem single_character_name_rejected
    toISOString display key pg rand_db rand_key now_env now_created w :
  ship_init_name_ok "a" = true
  ∧ Regex.test Regex.single_re "a" = true
  ∧ (∃ msg, post_instances toISOString "a" display key pg
                           rand_db rand_key now_env now_created w
            = (Provision400 msg, w))
  ∧ app_create toISOString "a" display key pg
               rand_db rand_key now_env now_created w = (None, w).
Proof.
  split; [reflexivity |]. split; [reflexivity |]. split; [|reflexivity].
  unfold post_instances. destruct (JS.truthy display); cbn; by eexists.
Qed.

(** ** Removal *)

(** A name that is neither a registry entry nor a member of
    [Object.prototype] is reported as not found, and nothing happens. *)
Lemma removeInstance_absent name delete_data w :
  JS.get_own (instances (loadDeployments w)) name = None →
  JS.inherited name = false →
  removeInstance name delete_data w
  = (RemoveError ("Instance '" +:+ name +:+ "' not found"), w).
Proof.
  intros Hown Hinh. unfold removeInstance.
  by rewrite (proj2 (has_truthy_false _ _) (conj Hown Hinh)).
Qed.

Lemma get_own_delete {V} (o : JS.obj V) k : JS.get_own (JS.delete k o) k = None.
Proof.
  unfold JS.delete. induction o as [|[k' v] o IH]; [done |].
  rewrite filter_cons. simpl. destruct (decide (k' ≠ k)) as [Hk|Hk]; simpl.
  - destruct (decide (k' = k)); [done | exact IH].
  - exact IH.
Qed.

Lemma get_own_delete_ne {V} (o : JS.obj V) k k' :
  k ≠ k' → JS.get_own (JS.delete k o) k' = JS.get_own o k'.
Proof.
  intros Hne. unfold JS.delete. induction o as [|[k0 v] o IH]; [done |].
  rewrite filter_cons. simpl. destruct (decide (k0 ≠ k)) as [Hk|Hk]; simpl.
  - by rewrite IH.
  - rewrite IH. destruct (decide (k0 = k')) as [->|]; [|done].
    apply dec_stable in Hk. congruence.
Qed.

(** A registered name is always deregistered and the call reports success,
    whatever the teardown subprocesses answer. *)
Lemma removeInstance_registered name delete_data w r :
  JS.get_own (instances (loadDeployments w)) name = Some r →
  ∃ res w',
    removeInstance name delete_data w = (RemoveDone res, w')
    ∧ rm_removed res = name
    ∧ JS.get_own (instances (loadDeployments w')) name = None
    ∧ (∀ other, other ≠ name →
         JS.get_own (instances (loadDeployments w')) other
         = JS.get_own (instances (loadDeployments w)) other).
Proof.
  intros Hown. unfold removeInstance. rewrite (has_truthy_own _ _ _ Hown). cbn [negb].
  destruct (existsSync _ w);
    [destruct (exec (ComposeDown name delete_data) w) as [down w1]
    |destruct (exec (DockerRmF name) w) as [down w1]];
    (destruct delete_data; [destruct (exec (RmRf _) w1) as [gone w2] |]);
    eexists _, _; (split; [reflexivity |]); cbn;
    (split; [done |]); (split; [apply get_own_delete |]);
    intros other Hne; by apply get_own_delete_ne.
Qed.

(** C10, at the name [constructor]: the registry of a fresh host has no such
    entry, yet removal does not report an error. [registry.constructor] is
    the inherited [Object] function, so the guard lets the call through: the
    containers [ship-constructor] and [db-constructor] are force-removed,
    the registry document is rewritten, and the answer is [success: true]. *)
Theorem removeInstance_inherited_name_not_refused :
  JS.get_own (instances (loadDeployments fresh_host)) "constructor" = None
  ∧ (removeInstance "constructor" false fresh_host).1
    = RemoveDone {| rm_removed := "constructor"; rm_data_deleted := false;
                    rm_compose_down := exec_ok ["Containers removed directly"];
                    rm_directory_deleted := None |}
  ∧ trace (removeInstance "constructor" false fresh_host).2
    = [DockerRmF "constructor"]
  ∧ deployments_file (removeInstance "constructor" false fresh_host).2
    = Some default_config.
Proof. vm_compute. done. Qed.

(** The teardown of a registered instance fails, and the instance is
    deregistered all the same. *)
Lemma removeInstance_teardown_failure_example :
  ok (exec (ComposeDown "acme" false) (failing is_compose_down "daemon error" acme_host)).1
  = false
  ∧ ∃ res, (removeInstance "acme" false
              (failing is_compose_down "daemon error" acme_host)).1 = RemoveDone res
           ∧ ok (rm_compose_down res) = false
  ∧ instances (loadDeployments
                 (removeInstance "acme" false
                    (failing is_compose_down "daemon error" acme_host)).2) = [].
Proof. split; [reflexivity |]. eexists. split; [vm_compute; reflexivity |]. by vm_compute. Qed.

(** ** Build pipeline: the restart list *)


(** C9, at a target that is no registry entry: the build succeeds, the
    restart loop marks [ghost] as not found and spawns no restart, and the
    success record still lists [ghost] under [instances_restarted]. *)
Theorem rebuild_records_unrestarted_target :
  JS.get_own (instances (loadDeployments acme_host)) "ghost" = None
  ∧ ∃ s entry,
      (rebuildInstances "ghost" false "api" sample_ambient acme_host).1 = RebuildDone s
      ∧ rs_restarts s = [("ghost", RestartNotFound)]
      ∧ actually_restarted (rs_restarts s) = []
      ∧ restarts_in
          (trace (rebuildInstances "ghost" false "api" sample_ambient acme_host).2) = []
      ∧ head (loadBuildHistory
                (rebuildInstances "ghost" false "api" sample_ambient acme_host).2)
        = Some entry
      ∧ success entry = true
      ∧ instances_restarted entry = ["ghost"].
Proof.
  split; [reflexivity |]. eexists _, _.
  split; [vm_compute; reflexivity |].
  split; [reflexivity |]. split; [reflexivity |].
  split; [by vm_compute |]. split; [vm_compute; reflexivity |]. done.
Qed.

(** A registered target whose restart fails is listed as restarted too. *)
Lemma rebuild_records_failed_restart_example :
  ∃ s entry,
    (rebuildInstances "" false "api" sample_ambient
       (failing is_restart "no such service" acme_host)).1 = RebuildDone s
    ∧ actually_restarted (rs_restarts s) = []
    ∧ head (loadBuildHistory
              (rebuildInstances "" false "api" sample_ambient
                 (failing is_restart "no such service" acme_host)).2) = Some entry
    ∧ instances_restarted entry = ["acme"].
Proof.
  eexists _, _. split; [vm_compute; reflexivity |].
  split; [reflexivity |]. split; [vm_compute; reflexivity | reflexivity].
Qed.

(** ** Token store *)

Lemma loadTokens_saveTokens store w : loadTokens (saveTokens store w) = store.
Proof. done. Qed.

Lemma list_find_lt {A} (P : A → Prop) `{∀ x, Decision (P x)} l i x :
  list_find P l = Some (i, x) → l !! i = Some x ∧ P x.
Proof. intros Hf. apply list_find_Some in Hf as (? & ? & _). done. Qed.

(** After an entry is spliced out, what remains are the other entries. *)
Lemma elem_of_delete_lookup {A} (l : list A) i x :
  x ∈ delete i l → ∃ j, j ≠ i ∧ l !! j = Some x.
Proof.
  intros [j Hj]%list_elem_of_lookup.
  destruct (decide (j < i)) as [Hlt|Hge].
  - rewrite list_lookup_delete_lt in Hj by done. exists j. split; [lia | done].
  - rewrite list_lookup_delete_ge in Hj by lia. exists (S j). split; [lia | done].
Qed.

(** C6. The one token of a one-token store cannot be deleted: the request
    is answered 400 and the store is as before. With two tokens or more the
    deletion of a token succeeds, and the raw value of the deleted token no
    longer authenticates (no other entry carrying the same hash). Hence no
    operation on the token document turns a non-empty store into an empty
    one. *)
Theorem last_token_is_never_deleted hashToken envToken (w : World) :
  (∀ id idx last,
     length (loadTokens w) = 1 →
     list_find (λ t, tok_id t = id) (loadTokens w) = Some (idx, last) →
     delete_tokens id w = (TokenDelete400, w))
  ∧ (∀ id idx removed,
       2 ≤ length (loadTokens w) →
       list_find (λ t, tok_id t = id) (loadTokens w) = Some (idx, removed) →
       delete_tokens id w
       = (TokenDelete200 (tok_id removed) (tok_label removed),
          saveTokens (delete idx (loadTokens w)) w)
       ∧ ∀ raw now,
           hashToken raw = token_hash removed →
           (∀ j t, j ≠ idx → loadTokens w !! j = Some t →
                   token_hash t ≠ token_hash removed) →
           verifyToken hashToken raw now (delete_tokens id w).2
           = (None, (delete_tokens id w).2))
  ∧ (∀ op, loadTokens w ≠ [] →
           loadTokens (token_step hashToken envToken op w) ≠ []).
Proof.
  split; [|split].
  - intros id idx last Hlen Hfind. unfold delete_tokens.
    rewrite Hfind, bool_decide_eq_true_2; done.
  - intros id idx removed Hlen Hfind.
    assert (Hdel : delete_tokens id w
                   = (TokenDelete200 (tok_id removed) (tok_label removed),
                      saveTokens (delete idx (loadTokens w)) w)).
    { unfold delete_tokens. rewrite Hfind, bool_decide_eq_false_2; [done | lia]. }
    split; [done |]. intros raw now Hraw Hunique. rewrite Hdel. cbn [snd].
    unfold verifyToken. destruct (JS.truthy raw); [|done]. cbn [negb].
    rewrite loadTokens_saveTokens.
    destruct (list_find _ (delete idx (loadTokens w))) as [[j t]|] eqn:Hf; [|done].
    apply list_find_lt in Hf as [Hj Ht].
    apply list_elem_of_lookup_2, elem_of_delete_lookup in Hj as (j' & Hne & Hj').
    destruct (Hunique j' t Hne Hj'). congruence.
  - intros op Hne. destruct op as [rand now|b now| |label role raw rand now|id]; cbn.
    + unfold initTokenStore. destruct envToken as [t|]; [|done].
      destruct (JS.truthy t); [|done]. cbn [negb].
      case_bool_decide; [done |]. rewrite loadTokens_saveTokens.
      by destruct (loadTokens w).
    + unfold verifyToken. destruct (JS.truthy b); [|done]. cbn [negb].
      destruct (list_find _ _) as [[i t]|]; [|done]. cbn.
      intros Hnil. apply (f_equal length) in Hnil.
      rewrite length_insert in Hnil. by destruct (loadTokens w).
    + done.
    + unfold post_tokens. destruct (JS.truthy label); [|done]. cbn [negb].
      case_bool_decide; [|done]. cbn. by destruct (loadTokens w).
    + unfold delete_tokens.
      destruct (list_find _ _) as [[i t]|] eqn:Hf; [|done].
      case_bool_decide as Hlen; [done |]. cbn.
      apply list_find_lt in Hf as [Hi _].
      intros Hnil. apply (f_equal length) in Hnil.
      rewrite length_delete in Hnil by (by eexists).
      apply lookup_lt_Some in Hi. simpl in Hnil.
      lia.
Qed.

Lemma last_token_is_never_deleted_witness :
  delete_tokens "tok_000001" one_token_host = (TokenDelete400, one_token_host)
  ∧ (delete_tokens "tok_000002" two_token_host).1 = TokenDelete200 "tok_000002" "CI"
  ∧ (verifyToken sample_hash "s3cret-ci" 0 two_token_host).1
    = Some (touch 0 deployer_token)
  ∧ (verifyToken sample_hash "s3cret-ci" 0
       (delete_tokens "tok_000002" two_token_host).2).1 = None
  ∧ loadTokens (token_step sample_hash (Some "s3cret-admin") (OpDelete "tok_000002")
                  two_token_host) ≠ [].
Proof.
  destruct (last_token_is_never_deleted sample_hash (Some "s3cret-admin") one_token_host)
    as (Hlast & _ & _).
  destruct (last_token_is_never_deleted sample_hash (Some "s3cret-admin") two_token_host)
    as (_ & Hdel & Hkeep).
  split; [exact (Hlast "tok_000001" 0 admin_token eq_refl eq_refl) |].
  destruct (Hdel "tok_000002" 1 deployer_token) as [Hres Hrevoked];
    [simpl; lia | reflexivity |].
  split; [by rewrite Hres |]. split; [reflexivity |]. split.
  - rewrite (Hrevoked "s3cret-ci" 0%Z); [done | reflexivity |].
    intros [|[|j]] t Hj Hlook; [by injection Hlook as <- | done | done].
  - apply Hkeep. discriminate.
Defined.

(** ** Auth gate *)

Lemma substring_whole s : String.substring 0 (String.length s) s = s.
Proof. induction s as [|c s IH]; [done |]. simpl. by rewrite IH. Qed.

Lemma prefix_append p s : String.prefix p (p +:+ s) = true.
Proof.
  induction p as [|c p IH]; [by destruct s |].
  change (String c p +:+ s) with (String c (p +:+ s)). cbn [String.prefix].
  destruct (ascii_dec c c); [exact IH | done].
Qed.

Lemma index_at_prefix p c s :
  String.prefix p (String c s) = true → String.index 0 p (String c s) = Some 0.
Proof. intros H. cbn [String.index]. by rewrite H. Qed.

Lemma substring_after_prefix p s :
  String.substring (String.length p)
    (String.length (p +:+ s) - String.length p) (p +:+ s) = s.
Proof.
  induction p as [|c p IH].
  - change ("" +:+ s) with s. cbn [String.length]. rewrite Nat.sub_0_r.
    apply substring_whole.
  - change (String c p +:+ s) with (String c (p +:+ s)). exact IH.
Qed.

(** Replacing a leading, non-empty [p] by the empty string strips it. *)
Lemma replace_prefix c p s : JS.replace (String c p) "" (String c p +:+ s) = s.
Proof.
  unfold JS.replace.
  change (String c p +:+ s) with (String c (p +:+ s)) at 1.
  rewrite index_at_prefix
    by (change (String c (p +:+ s)) with (String c p +:+ s); apply prefix_append).
  cbn [Nat.add]. rewrite substring_after_prefix.
  change (String c p +:+ s) with (String c (p +:+ s)). by cbn.
Qed.

Lemma replace_bearer token : JS.replace "Bearer " "" ("Bearer " +:+ token) = token.
Proof. apply replace_prefix. Qed.

Lemma verifyToken_unknown hashToken token now w :
  Forall (λ t, token_hash t ≠ hashToken token) (loadTokens w) →
  verifyToken hashToken token now w = (None, w).
Proof.
  intros Hall. unfold verifyToken. destruct (JS.truthy token); [|done]. cbn [negb].
  by rewrite (proj2 (list_find_None _ _) Hall).
Qed.

(** C5, as amended. The gate is keyed on the bootstrap credential alone.
    Without it every request is let through, whatever the token store
    holds. With it, a request is let through exactly when it presents a
    bearer token whose hash is in the store; a request with no, or with an
    unmatched, bearer token is answered 401 and the store is not written. *)
Theorem auth_gate_keyed_on_bootstrap_credential hashToken envToken now w :
  ((authMiddleware hashToken envToken None now w).1 = Next None
   ↔ env_configured envToken = false)
  ∧ (env_configured envToken = false →
     ∀ authorization,
       authMiddleware hashToken envToken authorization now w = (Next None, w))
  ∧ (env_configured envToken = true →
     ∀ authorization,
       match credential_of authorization with
       | None =>
           authMiddleware hashToken envToken authorization now w
           = (Unauthorized BearerTokenRequired, w)
           ∨ authMiddleware hashToken envToken authorization now w
             = (Unauthorized InvalidToken, w)
       | Some token =>
           (Forall (λ t, token_hash t ≠ hashToken token) (loadTokens w) →
            authMiddleware hashToken envToken authorization now w
            = (Unauthorized InvalidToken, w))
           ∧ (Exists (λ t, token_hash t = hashToken token) (loadTokens w) →
              ∃ entry, (authMiddleware hashToken envToken authorization now w).1
                       = Next (Some entry)
                       ∧ token_hash entry = hashToken token)
       end).
Proof.
  unfold authMiddleware. destruct (env_configured envToken) eqn:Henv; cbn [negb].
  - split; [split; [discriminate | discriminate] |]. split; [discriminate |].
    intros _ [auth|]; cbn; [|by left].
    destruct (JS.truthy auth); cbn; [|by left].
    destruct (JS.startsWith "Bearer " auth); cbn; [|by left].
    destruct (JS.truthy (JS.replace "Bearer " "" auth)) eqn:Htok.
    + split.
      * intros Hall. by rewrite verifyToken_unknown.
      * intros Hex. unfold verifyToken. rewrite Htok. cbn [negb].
        destruct (list_find _ _) as [[i t]|] eqn:Hf.
        -- apply list_find_lt in Hf as [_ Ht]. by exists (touch now t).
        -- apply list_find_None in Hf. apply Exists_exists in Hex as (t & Hin & Ht).
           rewrite Forall_forall in Hf. by destruct (Hf t Hin).
    + right. unfold verifyToken. by rewrite Htok.
  - split; [done |]. split; [done | discriminate].
Qed.

Lemma auth_gate_keyed_on_bootstrap_credential_witness :
  authMiddleware sample_hash None None 0 two_token_host = (Next None, two_token_host)
  ∧ authMiddleware sample_hash (Some "s3cret-admin") None 0 two_token_host
    = (Unauthorized BearerTokenRequired, two_token_host)
  ∧ authMiddleware sample_hash (Some "s3cret-admin") (Some "Bearer guess") 0 two_token_host
    = (Unauthorized InvalidToken, two_token_host).
Proof.
  destruct (auth_gate_keyed_on_bootstrap_credential sample_hash None 0 two_token_host)
    as (_ & Hopen & _).
  destruct (auth_gate_keyed_on_bootstrap_credential
              sample_hash (Some "s3cret-admin") 0 two_token_host) as (_ & _ & Hshut).
  split; [exact (Hopen eq_refl None) |]. split.
  - destruct (Hshut eq_refl None) as [H|H]; [exact H | discriminate H].
  - destruct (Hshut eq_refl (Some "Bearer guess")) as [H _].
    apply H. repeat constructor; discriminate.
Defined.

(** C5, as stated, fails: with a token in the store and no bootstrap
    credential, a request without any credential is admitted. *)
Lemma auth_gate_open_despite_tokens :
  loadTokens one_token_host ≠ []
  ∧ authMiddleware sample_hash None None 0 one_token_host = (Next None, one_token_host)
  ∧ ¬ (∀ hashToken envToken now w,
         (authMiddleware hashToken envToken None now w).1 = Next None
         ↔ (loadTokens w = [] ∧ env_configured envToken = false)).
Proof.
  split; [discriminate |]. split; [reflexivity |].
  intros Hclaim. destruct (Hclaim sample_hash None 0%Z one_token_host) as [Hopen _].
  destruct (Hopen eq_refl) as [Hempty _]. discriminate Hempty.
Qed.

(** ** Rollback *)

Lemma credential_of_bearer token :
  JS.truthy token = true → credential_of (Some ("Bearer " +:+ token)) = Some token.
Proof.
  intros Htok. unfold credential_of, JS.startsWith.
  rewrite prefix_append, replace_bearer, Htok. done.
Qed.


Lemma restarts_in_app tr tr' : restarts_in (tr ++ tr') = restarts_in tr ++ restarts_in tr'.
Proof. apply filter_app. Qed.

Lemma restarts_in_log c w :
  is_restart c = false → restarts_in (trace (log_cmd c w)) = restarts_in (trace w).
Proof.
  intros Hc. cbn. rewrite restarts_in_app. unfold restarts_in at 2.
  rewrite filter_cons, decide_False by (by rewrite Hc). cbn. apply app_nil_r.
Qed.

(** The answer of [docker inspect]. *)
Lemma exec_inspect t w :
  (exec (DockerInspectId t) w).2 = log_cmd (DockerInspectId t) w
  ∧ (ok (exec (DockerInspectId t) w).1 = true ↔
     fault w (DockerInspectId t) = None ∧ is_Some (resolve_tag (images w) t))
  ∧ (∀ i, resolve_tag (images w) t = Some i →
          ok (exec (DockerInspectId t) w).1 = true →
          text (exec (DockerInspectId t) w).1 = i).
Proof.
  unfold exec. destruct (fault w (DockerInspectId t)); cbn.
  - split; [done |]. split; [|done]. split; [done | by intros [? _]].
  - destruct (resolve_tag (images w) t) eqn:Hr; cbn.
    + split; [done |]. split; [by split |]. by intros ? [= ->].
    + split; [done |]. split; [|done]. split; [done | by intros [_ [? ?]]].
Qed.

(** The two ways [docker tag] can go. *)
Lemma exec_tag_cases from to w :
  (ok (exec (DockerTag from to) w).1 = false
   ∧ (exec (DockerTag from to) w).2 = log_cmd (DockerTag from to) w
   ∧ (fault w (DockerTag from to) = None → resolve_tag (images w) from = None)
   ∧ (∀ e, fault w (DockerTag from to) = Some e → err (exec (DockerTag from to) w).1 = e))
  ∨ (∃ i, fault w (DockerTag from to) = None
          ∧ resolve_tag (images w) from = Some i
          ∧ ok (exec (DockerTag from to) w).1 = true
          ∧ (exec (DockerTag from to) w).2
            = set_images (point_tag to i (images w)) (log_cmd (DockerTag from to) w)).
Proof.
  unfold exec. destruct (fault w (DockerTag from to)) as [e|]; cbn.
  - left. repeat split; [done |]. by intros ? [= ->].
  - destruct (resolve_tag (images w) from) as [i|] eqn:Hr; cbn.
    + right. by exists i.
    + left. by repeat split.
Qed.

Lemma exec_recreate t w :
  (exec (ComposeRecreateApp t) w).2 = log_cmd (ComposeRecreateApp t) w.
Proof. unfold exec. by destruct (fault w _). Qed.

Lemma restart_every_spec targets acc w :
  same_state w (restart_every targets acc w).2
  ∧ trace (restart_every targets acc w).2
    = trace w ++ (ComposeRecreateApp <$> targets).
Proof.
  revert acc w. induction targets as [|t targets IH]; intros acc w.
  - cbn. split; [by repeat split | by rewrite app_nil_r].
  - cbn [restart_every]. pose proof (exec_recreate t w) as Hw.
    destruct (exec (ComposeRecreateApp t) w) as [r w1]. cbn in Hw. subst w1.
    destruct (IH (JS.set t r acc) (log_cmd (ComposeRecreateApp t) w)) as [Hs Ht].
    split; [exact Hs |]. rewrite Ht. cbn. by rewrite <- app_assoc.
Qed.


(** The safety-net tag taken before a build or a rollback: best effort, and
    it moves no tag but its own. *)
Lemma safety_tag_step to w :
  to ≠ NONE_TAG →
  let w2 := (exec (DockerTag "latest" to) w).2 in
  fault w2 = fault w
  ∧ trace w2 = trace w ++ [DockerTag "latest" to]
  ∧ history_file w2 = history_file w
  ∧ deployments_file w2 = deployments_file w
  ∧ (∀ t, t ≠ to → resolve_tag (images w2) t = resolve_tag (images w) t)
  ∧ (is_Some (resolve_tag (images w) to) → is_Some (resolve_tag (images w2) to)).
Proof.
  intros Hto w2. subst w2.
  pose proof (exec_fault (DockerTag "latest" to) w) as Hf.
  pose proof (exec_trace (DockerTag "latest" to) w) as Ht.
  pose proof (exec_documents (DockerTag "latest" to) w) as (_ & Hd & Hh).
  do 4 (split; [done |]).
  destruct (exec_tag_cases "latest" to w) as [(_ & -> & _)|(i & _ & _ & _ & ->)]; cbn.
  - done.
  - split.
    + intros t Hne. by apply resolve_tag_point_ne.
    + intros _. rewrite resolve_tag_point_eq; done.
Qed.


Lemma rollback_without_tag rand now w :
  rollbackBuild "" rand now w = (RollbackFailed TagRequired, w).
Proof. done. Qed.



(** A rollback to the [pre-rollback] safety tag: the safety-net step first
    points that tag at the current image, so the re-tag that follows leaves
    the current tag where it was, while the record names the image the tag
    stood for on entry. *)
Lemma rollback_to_safety_tag_example :
  resolve_tag (images rolled_back_host) "latest" = Some "sha256:aaaaaaaaaaaaaaaa"
  ∧ resolve_tag (images rolled_back_host) "pre-rollback" = Some "sha256:bbbbbbbbbbbbbbbb"
  ∧ ∃ r, (rollbackBuild "pre-rollback" "a1b2c3" march_17 rolled_back_host).1
         = RollbackDone r
         ∧ rb_image_id r = Some "bbbbbbbbbbbb"
         ∧ resolve_tag
             (images (rollbackBuild "pre-rollback" "a1b2c3" march_17 rolled_back_host).2)
             "latest" = Some "sha256:aaaaaaaaaaaaaaaa".
Proof.
  split; [reflexivity |]. split; [reflexivity |]. eexists.
  split; [vm_compute; reflexivity |]. split; reflexivity.
Qed.

(** ** Retention: the keep-set *)

Lemma elem_of_set_add t x s : t ∈ set_add x s ↔ t = x ∨ t ∈ s.
Proof.
  unfold set_add. case_bool_decide as Hx.
  - split; [by right | intros [->|?]; done].
  - rewrite elem_of_app, list_elem_of_singleton. tauto.
Qed.

Lemma set_add_NoDup x s : NoDup s → NoDup (set_add x s).
Proof.
  intros Hs. unfold set_add. case_bool_decide as Hx; [done |].
  apply NoDup_app. split; [done |]. split; [|apply NoDup_singleton].
  intros y Hy ->%list_elem_of_singleton. done.
Qed.

Lemma elem_of_keep_builds t keep (bs : list BuildRecord) :
  t ∈ foldl (λ keep b, set_add (tag b) keep) keep bs ↔ t ∈ keep ∨ t ∈ tag <$> bs.
Proof.
  revert keep. induction bs as [|b bs IH]; intros keep; cbn.
  - rewrite elem_of_nil. tauto.
  - rewrite IH, elem_of_set_add, elem_of_cons. tauto.
Qed.

Lemma find_first_in_period now period k builds b :
  List.find (in_period now period (Z.of_nat k)) builds = Some b
  ↔ first_in_period now period k builds b.
Proof.
  unfold first_in_period. induction builds as [|x builds IH]; cbn.
  - split; [done |]. intros (newer & older & Heq & _). by destruct newer.
  - destruct (in_period now period (Z.of_nat k) x) eqn:Hx.
    + split.
      * intros [= ->]. by exists [], builds.
      * intros ([|y newer] & older & Heq & Hb & Hnewer).
        -- by injection Heq as -> _.
        -- injection Heq as -> _. apply Forall_cons in Hnewer as [Hy _]. congruence.
    + rewrite IH. split.
      * intros (newer & older & -> & Hb & Hnewer).
        exists (x :: newer), older. by repeat constructor.
      * intros ([|y newer] & older & Heq & Hb & Hnewer).
        -- injection Heq as -> _. congruence.
        -- injection Heq as -> ->. apply Forall_cons in Hnewer as [_ Hnewer].
           by exists newer, older.
Qed.

Lemma elem_of_keep_periods t now period n builds keep :
  t ∈ keep_periods now period n builds keep
  ↔ t ∈ keep ∨ ∃ k b, k < n ∧ first_in_period now period k builds b ∧ tag b = t.
Proof.
  unfold keep_periods.
  assert (Hgen : ∀ ks keep,
    t ∈ foldl (λ keep k,
                 match List.find (in_period now period (Z.of_nat k)) builds with
                 | Some b => set_add (tag b) keep
                 | None => keep
                 end) keep ks
    ↔ t ∈ keep ∨ ∃ k b, k ∈ ks ∧ first_in_period now period k builds b ∧ tag b = t).
  { clear keep. induction ks as [|k ks IH]; intros keep; cbn.
    - split; [by left |]. intros [?|(k & b & Hk & _)]; [done |].
      by apply elem_of_nil in Hk.
    - rewrite IH. clear IH.
      destruct (List.find _ builds) as [b|] eqn:Hfind.
      + rewrite elem_of_set_add. apply find_first_in_period in Hfind. split.
        * intros [[->|?]|(k' & b' & Hk' & Hb')]; [right | by left | right].
          -- exists k, b. split; [left | done].
          -- exists k', b'. split; [by right | done].
        * intros [?|(k' & b' & [->|Hk']%elem_of_cons & Hb' & Ht)]; [by left; right | |].
          -- apply find_first_in_period in Hfind, Hb'. left. left. congruence.
          -- right. by exists k', b'.
      + split.
        * intros [?|(k' & b' & Hk' & Hb')]; [by left | right].
          exists k', b'. split; [by right | done].
        * intros [?|(k' & b' & [->|Hk']%elem_of_cons & Hb' & Ht)]; [by left | |].
          -- apply find_first_in_period in Hb'. congruence.
          -- right. by exists k', b'. }
  rewrite Hgen. split; (intros [?|(k & b & Hk & Hb)]; [by left | right]);
    exists k, b; (split; [|done]).
  - apply elem_of_seq in Hk. lia.
  - apply elem_of_seq. lia.
Qed.

(** At most one build is kept for a period. *)
Lemma first_in_period_unique now period k builds b b' :
  first_in_period now period k builds b →
  first_in_period now period k builds b' → b = b'.
Proof. rewrite <- !find_first_in_period. congruence. Qed.

Lemma tagsToKeep_NoDup now history : NoDup (tagsToKeep now history).
Proof.
  unfold tagsToKeep, keep_periods.
  assert (Hfold : ∀ {A} (f : A → option string) (l : list A) keep,
             NoDup keep →
             NoDup (foldl (λ keep a, match f a with
                                     | Some t => set_add t keep
                                     | None => keep
                                     end) keep l)).
  { intros A f l. induction l as [|a l IH]; intros keep Hk; [done |]. cbn.
    apply IH. destruct (f a); [by apply set_add_NoDup | done]. }
  set (good := filter _ history).
  pose proof (Hfold _ (λ k, tag <$> List.find (in_period now ONE_MONTH (Z.of_nat k)) good))
    as Hmonths.
  pose proof (Hfold _ (λ k, tag <$> List.find (in_period now ONE_WEEK (Z.of_nat k)) good))
    as Hweeks.
  pose proof (Hfold _ (λ b : BuildRecord, Some (tag b))) as Hlast.
  cbn in Hmonths, Hweeks, Hlast.
  assert (Hrw : ∀ period ks keep,
    foldl (λ keep k,
             match List.find (in_period now period (Z.of_nat k)) good with
             | Some b => set_add (tag b) keep
             | None => keep
             end) keep ks
    = foldl (λ keep k,
               match tag <$> List.find (in_period now period (Z.of_nat k)) good with
               | Some t => set_add t keep
               | None => keep
               end) keep ks).
  { intros period ks. induction ks as [|k ks IH]; intros keep; [done |]. cbn.
    rewrite IH. by destruct (List.find _ good). }
  rewrite !Hrw. apply Hmonths, Hweeks, Hlast.
  apply (bool_decide_unpack (NoDup sentinel_tags)). by vm_compute.
Qed.

(** ** Retention: the sweep *)

(** The two ways [docker rmi] can go. *)
Lemma exec_rmi_cases t w :
  (ok (exec (DockerRmi t) w).1 = false
   ∧ (exec (DockerRmi t) w).2 = log_cmd (DockerRmi t) w
   ∧ (fault w (DockerRmi t) = None → resolve_tag (images w) t = None))
  ∨ (fault w (DockerRmi t) = None
     ∧ is_Some (resolve_tag (images w) t)
     ∧ ok (exec (DockerRmi t) w).1 = true
     ∧ (exec (DockerRmi t) w).2 = set_images (untag t (images w)) (log_cmd (DockerRmi t) w)).
Proof.
  unfold exec. destruct (fault w (DockerRmi t)) as [e|]; cbn.
  - left. by repeat split.
  - destruct (resolve_tag (images w) t) as [i|] eqn:Hr; cbn.
    + right. by repeat split.
    + left. by repeat split.
Qed.

(** What the removal loop does: it removes exactly the listed tags that are
    real tags, are outside the keep-set and whose removal does not fail,
    and it touches nothing else. *)
Lemma sweep_spec keep tags acc w :
  fault (sweep keep tags acc w).2 = fault w
  ∧ history_file (sweep keep tags acc w).2 = history_file w
  ∧ deployments_file (sweep keep tags acc w).2 = deployments_file w
  ∧ restarts_in (trace (sweep keep tags acc w).2) = restarts_in (trace w)
  ∧ ∃ gone,
      (sweep keep tags acc w).1 = acc ++ gone
      ∧ (∀ t, t ∈ gone ↔
              t ∈ tags ∧ t ≠ NONE_TAG ∧ (t ∉ keep)
              ∧ fault w (DockerRmi t) = None ∧ t ∈ (images w).*1)
      ∧ (∀ t, t ∈ (images (sweep keep tags acc w).2).*1 ↔
              t ∈ (images w).*1 ∧ t ∉ gone).
Proof.
  revert acc w. induction tags as [|t tags IH]; intros acc w; cbn [sweep].
  - do 4 (split; [done |]). exists []. rewrite app_nil_r. split; [done |].
    split; intros t; rewrite elem_of_nil; tauto.
  - destruct (bool_decide (t = NONE_TAG) || bool_decide (t ∈ keep)) eqn:Hskip.
    + destruct (IH acc w) as (Hf & Hh & Hd & Htr & gone & Hres & Hgone & Himg).
      do 4 (split; [done |]). exists gone. split; [done |]. split; [|done].
      intros t'. rewrite Hgone, elem_of_cons.
      apply orb_true_iff in Hskip as [Hs%bool_decide_eq_true|Hs%bool_decide_eq_true];
        (split; [tauto |]); intros ([->|?] & ? & ? & ? & ?); tauto.
    + apply orb_false_iff in Hskip as [Hn%bool_decide_eq_false Hk%bool_decide_eq_false].
      pose proof (exec_fault (DockerRmi t) w) as Hf1.
      pose proof (exec_documents (DockerRmi t) w) as (_ & Hd1 & Hh1).
      destruct (exec_rmi_cases t w) as [(Hok & Hw1 & Hnone)|(Hnf & Hsome & Hok & Hw1)];
        destruct (exec (DockerRmi t) w) as [rm w1]; cbn [fst snd] in *; rewrite Hok.
      * destruct (IH acc w1) as (Hf & Hh & Hd & Htr & gone & Hres & Hgone & Himg).
        assert (Hi1 : images w1 = images w) by (by subst w1).
        split; [congruence |]. split; [congruence |]. split; [congruence |].
        split; [rewrite Htr; subst w1; by apply restarts_in_log |].
        exists gone. split; [done |]. rewrite Hi1, Hf1 in *. split; [|done].
        intros t'. rewrite Hgone, elem_of_cons. split; [tauto |].
        intros ([->|?] & ? & ? & Hfault & Hin); [|tauto].
        apply Hnone in Hfault. apply resolve_tag_elem in Hin as [? ?]; [congruence | done].
      * destruct (IH (acc ++ [t]) w1) as (Hf & Hh & Hd & Htr & gone & Hres & Hgone & Himg).
        assert (Hi1 : images w1 = untag t (images w)) by (by subst w1).
        split; [congruence |]. split; [congruence |]. split; [congruence |].
        split; [rewrite Htr; subst w1; by apply restarts_in_log |].
        exists (t :: gone). split; [by rewrite Hres, <- app_assoc |].
        rewrite Hi1, Hf1 in *. destruct Hsome as [i Hi].
        apply resolve_tag_Some_elem in Hi as [Hin _]. split.
        -- intros t'. rewrite !elem_of_cons, Hgone, untag_elem.
           destruct (decide (t' = t)) as [->|Hne]; tauto.
        -- intros t'. rewrite Himg, untag_elem, not_elem_of_cons. tauto.
Qed.

Lemma exec_list_tags w :
  (exec DockerImagesTags w).2 = log_cmd DockerImagesTags w
  ∧ (if ok (exec DockerImagesTags w).1
     then filter (λ l, JS.truthy l = true) (output (exec DockerImagesTags w).1)
     else []) = listed_tags w.
Proof.
  unfold exec, listed_tags. by destruct (fault w DockerImagesTags).
Qed.

Lemma elem_of_listed_tags t w :
  t ∈ listed_tags w ↔
  fault w DockerImagesTags = None ∧ t ≠ "" ∧ t ∈ (images w).*1.
Proof.
  unfold listed_tags. destruct (fault w DockerImagesTags).
  - rewrite elem_of_nil. split; [done | by intros [? _]].
  - rewrite list_elem_of_filter. destruct t; cbn; split.
    + by intros [? _].
    + by intros (_ & ? & _).
    + by intros [_ ?].
    + by intros (_ & _ & ?).
Qed.

(** The retention sweep as a whole. *)
Lemma cleanup_spec now w :
  let keep := tagsToKeep now (loadBuildHistory w) in
  fault (cleanupBuildImages now w).2 = fault w
  ∧ history_file (cleanupBuildImages now w).2 = history_file w
  ∧ deployments_file (cleanupBuildImages now w).2 = deployments_file w
  ∧ restarts_in (trace (cleanupBuildImages now w).2) = restarts_in (trace w)
  ∧ kept (cleanupBuildImages now w).1 = filter (λ t, t ∈ listed_tags w) keep
  ∧ (∀ t, t ∈ removed (cleanupBuildImages now w).1 ↔
          t ∈ listed_tags w ∧ t ≠ NONE_TAG ∧ (t ∉ keep) ∧ fault w (DockerRmi t) = None)
  ∧ (∀ t, t ∈ (images (cleanupBuildImages now w).2).*1 ↔
          t ∈ (images w).*1 ∧ t ∉ removed (cleanupBuildImages now w).1).
Proof.
  intros keep. unfold cleanupBuildImages. fold keep. clearbody keep.
  destruct (exec_list_tags w) as [Hw0 Hlisted].
  destruct (exec DockerImagesTags w) as [listing w0]. cbn [fst snd] in *.
  rewrite Hlisted. subst w0. set (w0 := log_cmd DockerImagesTags w).
  destruct (sweep_spec keep (listed_tags w) [] w0)
    as (Hf & Hh & Hd & Htr & gone & Hres & Hgone & Himg).
  destruct (sweep keep (listed_tags w) [] w0) as [removed w1]. cbn [fst snd] in *.
  cbn in Hres. subst removed. cbn.
  do 3 (split; [done |]). split; [rewrite Htr; by apply restarts_in_log |].
  split; [done |]. split; [|done].
  intros t. rewrite Hgone. cbn. rewrite elem_of_listed_tags. tauto.
Qed.

(** C3, as amended. The keep-set is exactly: the three sentinel tags; the
    tags of the first three successful non-rollback builds of the
    newest-first log; for each of the four consecutive 7-day periods counted
    back from the instant of the sweep, the tag of the first such build of
    the log stamped inside the period, if any; and likewise for each of
    three consecutive 30-day periods. It holds no tag twice. Of the listed
    tags, those that are real tags outside the keep-set and whose removal
    does not fail are removed, and nothing else is. *)
Theorem retention_keeps_rolling_periods now w :
  let good := filter (λ b, retained_candidate b = true) (loadBuildHistory w) in
  let keep := tagsToKeep now (loadBuildHistory w) in
  (∀ t, t ∈ keep ↔
        t ∈ sentinel_tags
        ∨ t ∈ tag <$> take 3 good
        ∨ (∃ k b, k < 4 ∧ first_in_period now ONE_WEEK k good b ∧ tag b = t)
        ∨ (∃ k b, k < 3 ∧ first_in_period now ONE_MONTH k good b ∧ tag b = t))
  ∧ NoDup keep
  ∧ (∀ period k b b',
       first_in_period now period k good b →
       first_in_period now period k good b' → b = b')
  ∧ (∀ t, t ∈ removed (cleanupBuildImages now w).1 ↔
          t ∈ listed_tags w ∧ t ≠ NONE_TAG ∧ (t ∉ keep) ∧ fault w (DockerRmi t) = None)
  ∧ (∀ t, t ∈ (images (cleanupBuildImages now w).2).*1 ↔
          t ∈ (images w).*1 ∧ t ∉ removed (cleanupBuildImages now w).1)
  ∧ history_file (cleanupBuildImages now w).2 = history_file w.
Proof.
  intros good keep.
  destruct (cleanup_spec now w) as (_ & Hh & _ & _ & _ & Hrem & Himg).
  split; [|split; [apply tagsToKeep_NoDup |split;
            [intros ? ? ? ?; apply first_in_period_unique | done]]].
  intros t. unfold keep, tagsToKeep. fold good.
  rewrite !elem_of_keep_periods, elem_of_keep_builds. tauto.
Qed.

Lemma retention_keeps_rolling_periods_witness :
  "20260116-121659" ∈ tagsToKeep march_17 (loadBuildHistory winter_host)
  ∧ "20251225-000000" ∈ removed (cleanupBuildImages march_17 winter_host).1
  ∧ "20251225-000000" ∉ (images (cleanupBuildImages march_17 winter_host).2).*1.
Proof.
  destruct (retention_keeps_rolling_periods march_17 winter_host)
    as (Hkeep & _ & _ & Hremoved & Himages & _).
  assert (Hgone : "20251225-000000" ∈ removed (cleanupBuildImages march_17 winter_host).1).
  { apply Hremoved. split; [|split; [|split]].
    - apply (bool_decide_unpack _). by vm_compute.
    - discriminate.
    - apply (bool_decide_unpack _). by vm_compute.
    - reflexivity. }
  split; [|split; [exact Hgone |]].
  - apply Hkeep. right. right. right.
    exists 2, (build_at "20260116-121659" (march_17 - 2 * ONE_MONTH - 1)).
    split; [lia |]. split; [|reflexivity].
    apply find_first_in_period. reflexivity.
  - intros Hin. apply Himages in Hin as [_ Hnot]. by apply Hnot.
Defined.

(** C3, as stated, fails: on 17 March the sweep keeps both builds of
    16 January, made one millisecond apart, one for each of the two 30-day
    periods that meet between them. They are in one calendar week and one
    calendar month, are not among the three most recent builds and are too
    old for any of the preceding four weeks. *)
Lemma retention_keeps_two_builds_of_one_month :
  "20260116-121700" ∈ tagsToKeep march_17 winter_history
  ∧ "20260116-121659" ∈ tagsToKeep march_17 winter_history
  ∧ calendar_month (march_17 - 2 * ONE_MONTH)
    = calendar_month (march_17 - 2 * ONE_MONTH - 1)
  ∧ calendar_week (march_17 - 2 * ONE_MONTH)
    = calendar_week (march_17 - 2 * ONE_MONTH - 1)
  ∧ ¬ calendar_keep_set march_17 winter_history (tagsToKeep march_17 winter_history).
Proof.
  assert (Hc : "20260116-121700" ∈ tagsToKeep march_17 winter_history)
    by (apply (bool_decide_unpack _); by vm_compute).
  assert (Hd : "20260116-121659" ∈ tagsToKeep march_17 winter_history)
    by (apply (bool_decide_unpack _); by vm_compute).
  split; [done |]. split; [done |]. split; [reflexivity |]. split; [reflexivity |].
  intros (weekly & monthly & Hwg & Hmg & Hweek & _ & _ & Hmonth1 & Hkeep).
  assert (Hgood : filter (λ b, retained_candidate b = true) winter_history = winter_history)
    by reflexivity.
  cbn zeta in Hwg, Hmg, Hkeep. rewrite Hgood in Hwg, Hmg, Hkeep.
  assert (Huniq : ∀ b b', b ∈ winter_history → b' ∈ winter_history →
                          tag b = tag b' → b = b').
  { intros b b' Hb Hb'. unfold winter_history in Hb, Hb'. set_unfold.
    destruct_or!; subst; first [by intros _ | by cbn]. }
  assert (Hin : ∀ b,
             b ∈ winter_history →
             tag b ∈ tagsToKeep march_17 winter_history →
             tag b ∉ sentinel_tags → tag b ∉ tag <$> take 3 winter_history →
             ¬ (0 ≤ calendar_week march_17 - calendar_week (timestamp b) ≤ 4)%Z →
             b ∈ monthly).
  { intros b Hb Ht Hs Hl Hold. apply Hkeep in Ht as [?|[?|[Hw|Hm]]]; try done.
    - apply list_elem_of_fmap in Hw as (b' & Htag & Hbw).
      assert (b' = b) as -> by (apply Huniq; [by apply Hwg | done | done]).
      apply Hweek in Hbw. done.
    - apply list_elem_of_fmap in Hm as (b' & Htag & Hbm).
      assert (b' = b) as -> by (apply Huniq; [by apply Hmg | done | done]).
      done. }
  assert (Hcm : build_at "20260116-121700" (march_17 - 2 * ONE_MONTH) ∈ monthly).
  { apply Hin; [| done | | |].
    - unfold winter_history. do 3 apply list_elem_of_further. apply list_elem_of_here.
    - apply (bool_decide_unpack _). by vm_compute.
    - apply (bool_decide_unpack _). by vm_compute.
    - vm_compute. intros [_ H]. by apply H. }
  assert (Hdm : build_at "20260116-121659" (march_17 - 2 * ONE_MONTH - 1) ∈ monthly).
  { apply Hin; [| done | | |].
    - unfold winter_history. do 4 apply list_elem_of_further. apply list_elem_of_here.
    - apply (bool_decide_unpack _). by vm_compute.
    - apply (bool_decide_unpack _). by vm_compute.
    - vm_compute. intros [_ H]. by apply H. }
  pose proof (Hmonth1 _ _ Hcm Hdm eq_refl) as Heq. discriminate Heq.
Qed.

(** ** Retention: idempotence *)




(* ===================================================================== *)
(** * Further properties of the code *)
(* ===================================================================== *)

(** ** Token store: authentication *)

Lemma verifyToken_inv hashToken raw now w e w' :
  verifyToken hashToken raw now w = (Some e, w') →
  JS.truthy raw = true
  ∧ ∃ i old,
      list_find (λ t, token_hash t = hashToken raw) (loadTokens w) = Some (i, old)
      ∧ e = touch now old
      ∧ w' = saveTokens (<[i := e]> (loadTokens w)) w.
Proof.
  unfold verifyToken. destruct (JS.truthy raw); [|done]. cbn [negb].
  destruct (list_find _ _) as [[i old]|]; [|done].
  intros [= <- <-]. split; [done |]. by exists i, old.
Qed.

Lemma verifyToken_found hashToken raw now w i old :
  JS.truthy raw = true →
  list_find (λ t, token_hash t = hashToken raw) (loadTokens w) = Some (i, old) →
  verifyToken hashToken raw now w
  = (Some (touch now old), saveTokens (<[i := touch now old]> (loadTokens w)) w).
Proof. intros Hraw Hfind. unfold verifyToken. by rewrite Hraw, Hfind. Qed.




(** X2. Start-up with a bootstrap credential: afterwards the credential
    authenticates, the tokens that were in the store are still there, in
    front and unaltered, and a second start-up changes nothing. *)
Theorem bootstrap_import_is_idempotent hashToken token rand now rand' now' w :
  JS.truthy token = true →
  let w1 := initTokenStore hashToken (Some token) rand now w in
  (∀ later, ∃ e w2, verifyToken hashToken token later w1 = (Some e, w2)
                    ∧ token_hash e = hashToken token)
  ∧ loadTokens w `prefix_of` loadTokens w1
  ∧ initTokenStore hashToken (Some token) rand' now' w1 = w1.
Proof.
  intros Htok w1. subst w1. unfold initTokenStore. rewrite Htok. cbn [negb].
  destruct (bool_decide (Exists _ (loadTokens w))) eqn:Hknown.
  - apply bool_decide_eq_true in Hknown. rewrite bool_decide_eq_true_2 by done.
    split; [|done]. intros later.
    apply Exists_exists in Hknown as (t & Hin & Ht).
    destruct (list_find_elem_of (λ t, token_hash t = hashToken token) _ _ Hin Ht)
      as [[i old] Hfind].
    eexists _, _. split; [by apply verifyToken_found |].
    by apply list_find_Some in Hfind as (_ & ? & _).
  - apply bool_decide_eq_false in Hknown. rewrite loadTokens_saveTokens.
    set (imported := {| tok_id := _ |}).
    assert (Hex : Exists (λ t, token_hash t = hashToken token)
                    (loadTokens w ++ [imported])).
    { apply Exists_app. right. by constructor. }
    rewrite bool_decide_eq_true_2 by done. split; [|split; [by eexists | done]].
    intros later.
    apply Exists_exists in Hex as (t & Hin & Ht).
    destruct (list_find_elem_of (λ t, token_hash t = hashToken token) _ _ Hin Ht)
      as [[i old] Hfind].
    eexists _, _. split.
    + apply verifyToken_found; [done |]. by rewrite loadTokens_saveTokens.
    + by apply list_find_Some in Hfind as (_ & ? & _).
Qed.

Lemma bootstrap_import_is_idempotent_witness :
  loadTokens (initTokenStore sample_hash (Some "b00tstrap") "0a0b0c" 0 one_token_host)
  = [ admin_token;
      {| tok_id := "tok_0a0b0c"; token_hash := sample_hash "b00tstrap";
         tok_label := "Admin (auto-imported from MCP_BEARER_TOKEN)";
         tok_role := "admin"; tok_created_at := 0; last_used_at := None |} ]
  ∧ initTokenStore sample_hash (Some "b00tstrap") "ffffff" 9
      (initTokenStore sample_hash (Some "b00tstrap") "0a0b0c" 0 one_token_host)
    = initTokenStore sample_hash (Some "b00tstrap") "0a0b0c" 0 one_token_host.
Proof.
  split; [reflexivity |].
  by destruct (bootstrap_import_is_idempotent sample_hash "b00tstrap" "0a0b0c" 0%Z
                 "ffffff" 9%Z one_token_host eq_refl) as (_ & _ & H).
Defined.

(** X3. A token created through POST /api/tokens and presented as
    [Bearer <token>] passes the gate of a server with a bootstrap credential;
    when no older entry carries the same hash it comes through as the new
    entry, with the id, label and role of the creation. The older entries
    are untouched. *)
Theorem created_token_authenticates
    hashToken envToken label role raw rand now w id tok lbl rl created w' :
  env_configured envToken = true →
  JS.truthy raw = true →
  post_tokens hashToken label role raw rand now w
  = (TokenCreate201 id tok lbl rl created, w') →
  tok = raw ∧ role ∈ ["admin"; "deployer"; "viewer"]
  ∧ loadTokens w `prefix_of` loadTokens w'
  ∧ ∀ later,
      ∃ e, (authMiddleware hashToken envToken (Some ("Bearer " +:+ raw)) later w').1
           = Next (Some e)
           ∧ token_hash e = hashToken raw
           ∧ (Forall (λ t, token_hash t ≠ hashToken raw) (loadTokens w) →
              tok_id e = id ∧ tok_label e = label ∧ tok_role e = role).
Proof.
  intros Henv Hraw. unfold post_tokens.
  destruct (JS.truthy label); [|done]. cbn [negb].
  case_bool_decide as Hrole; [|done]. cbn [negb].
  intros [= <- <- <- <- <- <-]. split; [done |]. split; [done |].
  rewrite loadTokens_saveTokens. split; [by eexists |].
  intros later. unfold authMiddleware. rewrite Henv. cbn [negb].
  assert (Hhead : JS.truthy ("Bearer " +:+ raw) = true) by done.
  rewrite Hhead. unfold JS.startsWith. rewrite prefix_append, replace_bearer. cbn [negb orb].
  set (entry := {| tok_id := _ |}).
  set (w' := saveTokens (loadTokens w ++ [entry]) w).
  assert (Hex : is_Some (list_find (λ t, token_hash t = hashToken raw) (loadTokens w'))).
  { apply list_find_elem_of with entry; [|done].
    subst w'. rewrite loadTokens_saveTokens. apply elem_of_app. right. by left. }
  destruct Hex as [[i old] Hfind].
  rewrite (verifyToken_found _ _ _ _ _ _ Hraw Hfind). cbn.
  exists (touch later old). split; [done |].
  pose proof Hfind as (Hi & Hhash & _)%list_find_Some.
  split; [done |]. intros Hfresh.
  subst w'. rewrite loadTokens_saveTokens in Hi.
  apply lookup_app_Some in Hi as [Hold|[_ Hnew]].
  - apply list_elem_of_lookup_2 in Hold. rewrite Forall_forall in Hfresh.
    by destruct (Hfresh old Hold).
  - apply list_lookup_singleton_Some in Hnew as [_ <-]. done.
Qed.

Lemma created_token_authenticates_witness :
  ∃ e, (authMiddleware sample_hash (Some "b00tstrap") (Some "Bearer n3w-t0ken") 5
          (post_tokens sample_hash "Ops" "viewer" "n3w-t0ken" "aabbcc" 1 one_token_host).2).1
       = Next (Some e)
       ∧ tok_role e = "viewer" ∧ tok_id e = "tok_aabbcc".
Proof.
  destruct (created_token_authenticates sample_hash (Some "b00tstrap")
              "Ops" "viewer" "n3w-t0ken" "aabbcc" 1%Z one_token_host
              _ _ _ _ _ _ eq_refl eq_refl eq_refl) as (_ & _ & _ & Hauth).
  destruct (Hauth 5%Z) as (e & He & _ & Hnew). exists e. split; [exact He |].
  destruct Hnew as (Hid & _ & Hrole); [|by split].
  repeat constructor. discriminate.
Defined.

(** X4. Revoking a token revokes no other: a token that authenticated as an
    entry with another id authenticates after the deletion too, as the same
    entry. *)
Theorem revocation_spares_other_tokens hashToken id raw now w e w0 rid rlabel w' :
  delete_tokens id w = (TokenDelete200 rid rlabel, w') →
  verifyToken hashToken raw now w = (Some e, w0) →
  tok_id e ≠ id →
  ∃ e' w1, verifyToken hashToken raw now w' = (Some e', w1) ∧ e' = e.
Proof.
  unfold delete_tokens.
  destruct (list_find (λ t, tok_id t = id) (loadTokens w)) as [[idx removed]|] eqn:Hid;
    [|done].
  case_bool_decide; [done |]. intros [= _ _ <-].
  intros (Hraw & i & old & Hfind & -> & _)%verifyToken_inv Hne.
  apply list_find_Some in Hid as (Hidx & Hrid & _).
  apply list_find_Some in Hfind as (Hi & Hhash & Hleast).
  assert (i ≠ idx) by (intros ->; cbn in Hne; congruence).
  set (i' := if decide (i < idx) then i else pred i).
  assert (Hfind' : list_find (λ t, token_hash t = hashToken raw)
                     (delete idx (loadTokens w)) = Some (i', old)).
  { apply list_find_Some. subst i'. split; [|split; [done |]].
    - destruct (decide (i < idx)).
      + by rewrite list_lookup_delete_lt.
      + rewrite list_lookup_delete_ge by lia. by replace (S (pred i)) with i by lia.
    - intros j y Hj Hlt. destruct (decide (j < idx)).
      + rewrite list_lookup_delete_lt in Hj by done.
        apply (Hleast j y Hj). destruct (decide (i < idx)); lia.
      + rewrite list_lookup_delete_ge in Hj by lia.
        apply (Hleast (S j) y Hj). destruct (decide (i < idx)); lia. }
  eexists _, _. split; [|reflexivity].
  apply verifyToken_found; [done |]. by rewrite loadTokens_saveTokens.
Qed.

Lemma revocation_spares_other_tokens_witness :
  ∃ e' w1,
    verifyToken sample_hash "s3cret-ci" 7 (delete_tokens "tok_000001" two_token_host).2
    = (Some e', w1)
    ∧ e' = touch 7 deployer_token.
Proof.
  exact (revocation_spares_other_tokens sample_hash "tok_000001" "s3cret-ci" 7%Z
           two_token_host (touch 7 deployer_token) _ "tok_000001" "Admin" _
           eq_refl eq_refl ltac:(discriminate)).
Defined.

(** ** The gate in front of the routes *)

Lemma authMiddleware_refuses hashToken envToken authorization now w :
  env_configured envToken = true →
  match credential_of authorization with
  | Some token => Forall (λ t, token_hash t ≠ hashToken token) (loadTokens w)
  | None => True
  end →
  ∃ why, authMiddleware hashToken envToken authorization now w = (Unauthorized why, w).
Proof.
  intros Henv. unfold authMiddleware, credential_of. rewrite Henv. cbn [negb].
  destruct authorization as [auth|]; [|by eexists].
  destruct (JS.truthy auth); cbn; [|by eexists].
  destruct (JS.startsWith "Bearer " auth); cbn; [|by eexists].
  destruct (JS.truthy (JS.replace "Bearer " "" auth)) eqn:Htok.
  - intros Hall. rewrite verifyToken_unknown by done. by eexists.
  - intros _. unfold verifyToken. rewrite Htok. by eexists.
Qed.




(** X6. With a bootstrap credential configured, a request that presents no
    bearer token, or one that matches no entry of the token store, changes
    nothing: whatever the request, the host is as before. *)
Theorem unauthenticated_request_changes_nothing
    hashToken envToken toISOString req authorization now w :
  env_configured envToken = true →
  match credential_of authorization with
  | Some token => Forall (λ t, token_hash t ≠ hashToken token) (loadTokens w)
  | None => True
  end →
  serve hashToken envToken toISOString req authorization now w = w.
Proof.
  intros Henv Hcred.
  destruct (authMiddleware_refuses hashToken envToken authorization now w Henv Hcred)
    as [why Hgate].
  destruct req; cbn; unfold route; by rewrite Hgate.
Qed.

Lemma unauthenticated_request_changes_nothing_witness :
  serve sample_hash (Some "b00tstrap") (λ _, "2026-01-01T00:00:00.000Z")
        (DeleteInstance "acme" true) (Some "Bearer guess") 3
        (set_tokens_file (Some [admin_token]) acme_host)
  = set_tokens_file (Some [admin_token]) acme_host.
Proof.
  apply unauthenticated_request_changes_nothing; [reflexivity |].
  repeat constructor. discriminate.
Defined.

(** ** Objects used as dictionaries *)

Lemma get_own_insert_index {V} n k (v : V) o k' :
  JS.get_own o k = None →
  JS.get_own (JS.insert_index n k v o) k'
  = if decide (k = k') then Some v else JS.get_own o k'.
Proof.
  induction o as [|[k0 v0] o IH]; intros Hfree; cbn in *.
  - done.
  - destruct (decide (k0 = k)) as [->|Hk0]; [done |].
    destruct (JS.array_index k0) as [n'|]; [destruct (n' <? n)%N |]; cbn;
      try done.
    rewrite IH by done.
    destruct (decide (k0 = k')) as [->|]; [|done].
    by rewrite decide_False by congruence.
Qed.

Lemma get_own_app_new {V} k (v : V) o k' :
  JS.get_own o k = None →
  JS.get_own (o ++ [(k, v)]) k' = if decide (k = k') then Some v else JS.get_own o k'.
Proof.
  induction o as [|[k0 v0] o IH]; intros Hfree; cbn in *; [done |].
  destruct (decide (k0 = k)) as [->|Hk0]; [done |].
  rewrite IH by done.
  destruct (decide (k0 = k')) as [->|]; [|done].
  by rewrite decide_False by congruence.
Qed.

Lemma get_own_replace_own {V} k (v : V) o k' :
  is_Some (JS.get_own o k) →
  JS.get_own (JS.replace_own k v o) k'
  = if decide (k = k') then Some v else JS.get_own o k'.
Proof.
  induction o as [|[k0 v0] o IH]; intros Hsome; cbn in *.
  - by destruct Hsome.
  - destruct (decide (k0 = k)) as [->|Hk0]; cbn.
    + destruct (decide (k = k')); done.
    + rewrite IH by done.
      destruct (decide (k0 = k')) as [->|]; [|done].
      by rewrite decide_False by congruence.
Qed.

(** Reading a property after an assignment. *)
Lemma get_own_set {V} k (v : V) o k' :
  JS.get_own (JS.set k v o) k' = if decide (k = k') then Some v else JS.get_own o k'.
Proof.
  unfold JS.set. destruct (JS.get_own o k) eqn:Hk.
  - by apply get_own_replace_own.
  - destruct (JS.array_index k); [by apply get_own_insert_index | by apply get_own_app_new].
Qed.

Lemma elem_of_insert_index {V} n k (v : V) o kv :
  kv ∈ JS.insert_index n k v o ↔ kv = (k, v) ∨ kv ∈ o.
Proof.
  induction o as [|[k0 v0] o IH]; cbn.
  - rewrite list_elem_of_singleton, elem_of_nil. tauto.
  - destruct (JS.array_index k0) as [n'|]; [destruct (n' <? n)%N |];
      rewrite ?elem_of_cons, ?IH, ?elem_of_cons; tauto.
Qed.

Lemma elem_of_replace_own {V} k (v : V) o kv :
  kv ∈ JS.replace_own k v o → kv = (k, v) ∨ kv ∈ o.
Proof.
  induction o as [|[k0 v0] o IH]; cbn; [by right |].
  destruct (decide (k0 = k)); rewrite !elem_of_cons; [tauto |].
  intros [->|?]; [tauto |]. destruct IH; tauto.
Qed.

(** An assignment adds the pair assigned and no other. *)
Lemma elem_of_set {V} k (v : V) o kv :
  kv ∈ JS.set k v o → kv = (k, v) ∨ kv ∈ o.
Proof.
  unfold JS.set. destruct (JS.get_own o k).
  - apply elem_of_replace_own.
  - destruct (JS.array_index k).
    + by intros ?%elem_of_insert_index.
    + rewrite elem_of_app, list_elem_of_singleton. tauto.
Qed.

Lemma elem_of_js_delete {V} k (o : JS.obj V) kv : kv ∈ JS.delete k o → kv ∈ o.
Proof. unfold JS.delete. by intros [_ ?]%list_elem_of_filter. Qed.

Lemma elem_of_get_own {V} (o : JS.obj V) k v :
  JS.get_own o k = Some v → (k, v) ∈ o.
Proof.
  induction o as [|[k0 v0] o IH]; cbn; [done |].
  destruct (decide (k0 = k)) as [->|].
  - intros [= ->]. left.
  - intros ?%IH. by right.
Qed.

(** ** Subprocesses that leave the files alone *)

Lemma exec_files c w : keeps_files c → files (exec c w).2 = files w.
Proof.
  intros Hc. unfold exec. destruct (fault w c); [done |].
  destruct c; cbn in *; repeat case_match; done.
Qed.

Lemma exec_same_state c w :
  match c with
  | DockerPsGrep _ | Chmod600 _ | GitRevParse _ | GitLogSubject _
  | DockerInspectId _ | ComposeRecreateApp _ | DockerImagesTags => True
  | _ => False
  end →
  same_state w (exec c w).2.
Proof.
  intros Hc. unfold exec. destruct (fault w c); [by repeat split |].
  destruct c; cbn in *; try done; repeat case_match; by repeat split.
Qed.

Lemma same_state_trans w1 w2 w3 : same_state w1 w2 → same_state w2 w3 → same_state w1 w3.
Proof.
  intros (? & ? & ? & ? & ? & ? & ?) (? & ? & ? & ? & ? & ? & ?).
  repeat split; congruence.
Qed.

Lemma same_state_refl w : same_state w w.
Proof. by repeat split. Qed.

(** ** Provisioning: the happy path and the collision check *)

Lemma join_lines_truthy l ls : JS.truthy l = true → JS.truthy (join_lines (l :: ls)) = true.
Proof. destruct l; [done |]. by destruct ls. Qed.

(** The answer of the container-name check. *)
Lemma ps_grep_spec name w :
  (exec (DockerPsGrep name) w).2 = log_cmd (DockerPsGrep name) w
  ∧ (ok (exec (DockerPsGrep name) w).1
     && JS.truthy (text (exec (DockerPsGrep name) w).1) = true
     ↔ fault w (DockerPsGrep name) = None
       ∧ ∃ c, c ∈ containers w ∧ c ∈ stack_containers name).
Proof.
  unfold exec. destruct (fault w (DockerPsGrep name)); cbn.
  - split; [done |]. split; [done | by intros [? _]].
  - destruct (filter _ (containers w)) as [|hit hits] eqn:Hhits; cbn.
    + split; [done |]. split; [done |]. intros (_ & c & Hc & Hs).
      assert (Hin : c ∈ filter (λ c, c ∈ stack_containers name) (containers w))
        by (by apply list_elem_of_filter).
      rewrite Hhits in Hin. by apply elem_of_nil in Hin.
    + split; [done |].
      assert (Hhit : hit ∈ filter (λ c, c ∈ stack_containers name) (containers w))
        by (rewrite Hhits; left).
      apply list_elem_of_filter in Hhit as [Hstack Hin].
      split; [intros _; split; [done | by exists hit] |]. intros _.
      unfold text. cbn [output exec_ok]. apply join_lines_truthy.
      unfold stack_containers in Hstack.
      apply elem_of_cons in Hstack as [->|Hstack]; [done |].
      by apply list_elem_of_singleton in Hstack as ->.
Qed.

Lemma append_cancel_l p a b : p +:+ a = p +:+ b → a = b.
Proof.
  induction p as [|c p IH]; [done |].
  change (String c p +:+ a) with (String c (p +:+ a)).
  change (String c p +:+ b) with (String c (p +:+ b)).
  intros [= H]. by apply IH.
Qed.

Lemma join_cancel d a b : join d a = join d b → a = b.
Proof.
  unfold join. by intros ?%append_cancel_l%append_cancel_l.
Qed.

Lemma env_path_ne_compose name : env_path name ≠ compose_path name.
Proof. unfold env_path, compose_path. by intros [=]%join_cancel. Qed.

(** What a provisioning that went through has done. *)
Lemma createInstance_done toISOString name display key pg rand_db rand_key
    now_env now_created w c w' :
  createInstance toISOString name display key pg rand_db rand_key now_env now_created w
  = (CreateDone c, w') →
  JS.has_truthy (instances (loadDeployments w)) name = false
  ∧ ∃ r,
      record_derived name r ∧ status r = "created"
      ∧ display_name r = display ∧ db_password r = rand_db
      ∧ api_key r = JS.or_else key ("sk_ship_" +:+ rand_key)
      ∧ cr_api_key c = api_key r ∧ cr_instance c = name ∧ cr_url c = url r
      ∧ instances (loadDeployments w')
        = (if cr_success c
           then JS.set name (set_status "running" r)
                  (JS.set name r (instances (loadDeployments w)))
           else JS.set name r (instances (loadDeployments w)))
      ∧ is_Some (files w' !! compose_path name)
      ∧ files w' !! env_path name
        = Some (generateEnv toISOString name display rand_db (api_key r) now_env)
      ∧ (∀ p, p ≠ compose_path name → p ≠ env_path name → files w' !! p = files w !! p)
      ∧ history_file w' = history_file w
      ∧ tokens_file w' = tokens_file w
      ∧ images w' = images w.
Proof.
  unfold createInstance.
  destruct (JS.has_truthy _ name) eqn:Hfree; [done |].
  pose proof (exec_same_state (DockerPsGrep name) w I) as Hs1.
  destruct (exec (DockerPsGrep name) w) as [nameCheck w1]. cbn [snd] in Hs1.
  destruct (ok nameCheck && JS.truthy (text nameCheck)); [done |].
  set (w2 := set_files _ (set_files _ w1)).
  pose proof (exec_same_state (Chmod600 (join (join APPS_DIR name) ".env")) w2 I) as Hs2.
  destruct (exec (Chmod600 _) w2) as [chmod w3]. cbn [snd] in Hs2.
  set (record := {| display_name := display |}).
  set (config1 := with_instances _ (loadDeployments w)).
  pose proof (exec_files (ComposeUp name) (saveDeployments config1 w3) I) as Hf4.
  pose proof (exec_documents (ComposeUp name) (saveDeployments config1 w3)) as (Ht4 & Hd4 & Hh4).
  pose proof (exec_fault (ComposeUp name) (saveDeployments config1 w3)) as Hfault4.
  assert (Hi4 : images (exec (ComposeUp name) (saveDeployments config1 w3)).2 = images w3).
  { unfold exec. destruct (fault _ _); done. }
  destruct (exec (ComposeUp name) (saveDeployments config1 w3)) as [start w4].
  cbn [fst snd] in *.
  intros [= <- <-]. split; [done |]. exists record.
  destruct Hs1 as (Ht1 & Hd1 & Hh1 & Hf1 & Hi1 & _).
  destruct Hs2 as (Ht2 & Hd2 & Hh2 & Hf2 & Hi2 & _).
  split; [by repeat split; [..|left] |]. do 7 (split; [done |]). split.
  { cbn [cr_success]. destruct (ok start); cbn.
    - done.
    - unfold loadDeployments. by rewrite Hd4. }
  change (files (saveDeployments config1 w3)) with (files w3) in Hf4.
  change (tokens_file (saveDeployments config1 w3)) with (tokens_file w3) in Ht4.
  change (history_file (saveDeployments config1 w3)) with (history_file w3) in Hh4.
  assert (Hfiles : files w4 = files w2) by congruence.
  assert (Hfinal : ∀ c,
    files (if ok start then saveDeployments c w4 else w4) = files w4
    ∧ history_file (if ok start then saveDeployments c w4 else w4) = history_file w4
    ∧ tokens_file (if ok start then saveDeployments c w4 else w4) = tokens_file w4
    ∧ images (if ok start then saveDeployments c w4 else w4) = images w4).
  { intros c0. by destruct (ok start). }
  match goal with |- context [saveDeployments ?c w4] =>
    destruct (Hfinal c) as (Hf5 & Hh5 & Ht5 & Hi5) end.
  assert (Hw2 : files w2
    = <[env_path name := generateEnv toISOString name display rand_db
                           (JS.or_else key ("sk_ship_" +:+ rand_key)) now_env]>
        (<[compose_path name :=
             generateCompose name
               (if JS.truthy pg then with_postgres_image pg (loadDeployments w)
                else loadDeployments w)]> (files w))).
  { subst w2. unfold env_path, compose_path. rewrite <- Hf1. reflexivity. }
  assert (Hw2' : history_file w2 = history_file w1 ∧ tokens_file w2 = tokens_file w1
                 ∧ images w2 = images w1) by done.
  destruct Hw2' as (Hh2' & Ht2' & Hi2').
  clearbody w2. rewrite Hf5, Hh5, Ht5, Hi5, Hfiles, Hw2.
  split.
  { rewrite lookup_insert_ne by apply env_path_ne_compose.
    rewrite lookup_insert_eq. by eexists. }
  split; [by rewrite lookup_insert_eq |].
  split; [intros p Hp1 Hp2; by rewrite !lookup_insert_ne by done |].
  repeat split; congruence.
Qed.

(** ** Removal *)

Lemma append_assoc_str a b c : (a +:+ b) +:+ c = a +:+ (b +:+ c).
Proof.
  induction a as [|x a IH]; [done |].
  change (String x a +:+ b) with (String x (a +:+ b)).
  change (String x (a +:+ b) +:+ c) with (String x ((a +:+ b) +:+ c)).
  change (String x a +:+ (b +:+ c)) with (String x (a +:+ (b +:+ c))).
  by rewrite IH.
Qed.

Lemma prefix_cancel p a b : String.prefix (p +:+ a) (p +:+ b) = String.prefix a b.
Proof.
  induction p as [|c p IH]; [done |].
  change (String c p +:+ a) with (String c (p +:+ a)).
  change (String c p +:+ b) with (String c (p +:+ b)).
  cbn [String.prefix]. by destruct (ascii_dec c c).
Qed.

(** Two path segments: the one is a prefix of the other only if they are
    the same segment. *)
Lemma prefix_segment a b rest :
  no_slash a → no_slash b →
  String.prefix (a +:+ "/") (b +:+ "/" +:+ rest) = true → a = b.
Proof.
  unfold no_slash. revert b. induction a as [|c a IH]; intros [|c' b] Ha Hb.
  - done.
  - change (String c' b +:+ "/" +:+ rest) with (String c' (b +:+ "/" +:+ rest)).
    change ("" +:+ "/") with "/". cbn [String.prefix].
    destruct (ascii_dec "/" c') as [<-|]; [|done].
    cbn in Hb. by apply not_elem_of_cons in Hb as [? _].
  - change (String c a +:+ "/") with (String c (a +:+ "/")).
    change ("" +:+ "/" +:+ rest) with (String "/" rest). cbn [String.prefix].
    destruct (ascii_dec c "/") as [->|]; [|done].
    cbn in Ha. by apply not_elem_of_cons in Ha as [? _].
  - change (String c a +:+ "/") with (String c (a +:+ "/")).
    change (String c' b +:+ "/" +:+ rest) with (String c' (b +:+ "/" +:+ rest)).
    cbn [String.prefix]. destruct (ascii_dec c c') as [->|]; [|done].
    cbn in Ha, Hb. apply not_elem_of_cons in Ha as [_ Ha].
    apply not_elem_of_cons in Hb as [_ Hb].
    intros H. f_equal. by apply IH.
Qed.

(** A file of one instance directory is not under another one. *)
Lemma instance_dirs_disjoint a b f :
  no_slash a → no_slash b → a ≠ b →
  JS.startsWith (join APPS_DIR a +:+ "/") (join (join APPS_DIR b) f) = false.
Proof.
  intros Ha Hb Hne. apply not_true_is_false. intros H. apply Hne.
  unfold JS.startsWith, join in H.
  rewrite !append_assoc_str in H. rewrite prefix_cancel in H.
  change ("/" +:+ a +:+ "/") with (String "/" (a +:+ "/")) in H.
  change ("/" +:+ b +:+ "/" +:+ f) with (String "/" (b +:+ "/" +:+ f)) in H.
  cbn [String.prefix] in H. destruct (ascii_dec "/" "/"); [|done].
  by apply (prefix_segment a b f).
Qed.

Lemma instance_dir_holds_its_files a f :
  JS.startsWith (join APPS_DIR a +:+ "/") (join (join APPS_DIR a) f) = true.
Proof.
  unfold JS.startsWith. unfold join at 2.
  rewrite <- append_assoc_str. apply prefix_append.
Qed.

Lemma not_elem_of_without gone l c : c ∈ gone → c ∉ without gone l.
Proof. unfold without. intros Hc [Hn _]%list_elem_of_filter. done. Qed.

(** What a removal that went through has done. *)
Lemma removeInstance_done name delete_data w res w' :
  removeInstance name delete_data w = (RemoveDone res, w') →
  JS.has_truthy (instances (loadDeployments w)) name = true
  ∧ rm_removed res = name ∧ rm_data_deleted res = delete_data
  ∧ instances (loadDeployments w') = JS.delete name (instances (loadDeployments w))
  ∧ history_file w' = history_file w
  ∧ tokens_file w' = tokens_file w
  ∧ images w' = images w
  ∧ fault w' = fault w
  ∧ (let teardown := if existsSync (compose_path name) w
                     then ComposeDown name delete_data else DockerRmF name in
     match fault w teardown with
     | None => ∀ c, c ∈ stack_containers name → c ∉ containers w'
     | Some _ => containers w' = containers w
     end)
  ∧ (if delete_data
     then match fault w (RmRf (join APPS_DIR name)) with
          | None =>
              rm_directory_deleted res = Some (exec_ok [])
              ∧ ∀ p, files w' !! p
                     = if JS.startsWith (join APPS_DIR name +:+ "/") p
                       then None else files w !! p
          | Some e =>
              rm_directory_deleted res = Some (exec_fail e) ∧ files w' = files w
          end
     else rm_directory_deleted res = None ∧ files w' = files w).
Proof.
  unfold removeInstance, compose_path.
  destruct (JS.has_truthy _ name); [|done]. cbn [negb].
  set (teardown := if existsSync _ w then ComposeDown name delete_data else DockerRmF name).
  assert (Hdown : ∃ r1 w1,
    (if existsSync (join (join APPS_DIR name) "docker-compose.yml") w
     then exec (ComposeDown name delete_data) w
     else let '(_, w0) := exec (DockerRmF name) w in
          (exec_ok ["Containers removed directly"], w0)) = (r1, w1)
    ∧ w1 = (exec teardown w).2).
  { subst teardown. destruct (existsSync _ w).
    - destruct (exec (ComposeDown name delete_data) w) as [r1 w1]. by eexists _, _.
    - destruct (exec (DockerRmF name) w) as [r1 w1]. by eexists _, _. }
  destruct Hdown as (r1 & w1 & -> & Hw1).
  assert (Hk : keeps_files teardown) by (subst teardown; by destruct (existsSync _ w)).
  pose proof (exec_files teardown w Hk) as Hf1.
  pose proof (exec_documents teardown w) as (Ht1 & Hd1 & Hh1).
  pose proof (exec_fault teardown w) as Hfl1.
  assert (Hi1 : images (exec teardown w).2 = images w).
  { unfold exec. subst teardown.
    destruct (existsSync _ w); (destruct (fault w _); [done |]); done. }
  assert (Hc1 : match fault w teardown with
                | None => ∀ c, c ∈ stack_containers name → c ∉ containers (exec teardown w).2
                | Some _ => containers (exec teardown w).2 = containers w
                end).
  { unfold exec. subst teardown.
    destruct (existsSync _ w); (destruct (fault w _); [done |]);
      intros c Hc; cbn; by apply not_elem_of_without. }
  rewrite <- Hw1 in *. clear Hw1. clearbody teardown.
  destruct delete_data.
  - pose proof (exec_documents (RmRf (join APPS_DIR name)) w1) as (Ht2 & Hd2 & Hh2).
    pose proof (exec_fault (RmRf (join APPS_DIR name)) w1) as Hfl2.
    assert (H2 : images (exec (RmRf (join APPS_DIR name)) w1).2 = images w1
                 ∧ containers (exec (RmRf (join APPS_DIR name)) w1).2 = containers w1
                 ∧ match fault w1 (RmRf (join APPS_DIR name)) with
                   | None =>
                       (exec (RmRf (join APPS_DIR name)) w1).1 = exec_ok []
                       ∧ files (exec (RmRf (join APPS_DIR name)) w1).2
                         = filter (λ kv, JS.startsWith (join APPS_DIR name +:+ "/") kv.1 = false)
                             (files w1)
                   | Some e =>
                       (exec (RmRf (join APPS_DIR name)) w1).1 = exec_fail e
                       ∧ files (exec (RmRf (join APPS_DIR name)) w1).2 = files w1
                   end).
    { unfold exec. by destruct (fault w1 _). }
    destruct H2 as (Hi2 & Hc2 & Hrm).
    destruct (exec (RmRf (join APPS_DIR name)) w1) as [r2 w2]. cbn [fst snd] in *.
    intros [= <- <-]. cbn.
    do 4 (split; [done |]). repeat split; try congruence.
    + destruct (fault w teardown); [congruence |]. intros c Hc. rewrite Hc2. by apply Hc1.
    + rewrite <- Hfl1. destruct (fault w1 _); destruct Hrm as [-> Hfiles].
      * split; [done | congruence].
      * split; [done |]. intros p. rewrite Hfiles, Hf1.
        destruct (JS.startsWith _ p) eqn:Hp.
        -- apply map_lookup_filter_None. right. intros x _. cbn.
           unfold JS.startsWith in Hp. by rewrite Hp.
        -- destruct (files w !! p) as [x|] eqn:Hx.
           ++ by apply map_lookup_filter_Some.
           ++ apply map_lookup_filter_None. by left.
  - intros [= <- <-]. cbn. by repeat split.
Qed.

(** X7. A provisioning that goes through registers the instance under its
    name with the record derived from it: subdomain and address built from
    the name, the API key that is returned to the caller, the status
    [running] when the stack started and [created] when it did not. The
    other entries of the registry are as before, the compose file and the
    secrets file of the instance are on disk, and the build history, the
    token store and the images are untouched. *)
Theorem provisioning_registers_instance toISOString name display key pg
    rand_db rand_key now_env now_created w c w' :
  createInstance toISOString name display key pg rand_db rand_key now_env now_created w
  = (CreateDone c, w') →
  (∃ r, JS.get_own (instances (loadDeployments w')) name = Some r
        ∧ record_derived name r
        ∧ status r = (if cr_success c then "running" else "created")
        ∧ display_name r = display
        ∧ api_key r = cr_api_key c
        ∧ url r = cr_url c)
  ∧ (∀ other, other ≠ name →
       JS.get_own (instances (loadDeployments w')) other
       = JS.get_own (instances (loadDeployments w)) other)
  ∧ existsSync (compose_path name) w' = true
  ∧ existsSync (env_path name) w' = true
  ∧ history_file w' = history_file w
  ∧ tokens_file w' = tokens_file w
  ∧ images w' = images w.
Proof.
  intros (_ & r & Hder & Hst & Hdn & _ & _ & Hkey & _ & Hurl & Hreg & Hcomp & Henv & _
          & Hh & Ht & Hi)%createInstance_done.
  split.
  { destruct (cr_success c).
    - exists (set_status "running" r). rewrite Hreg, get_own_set, decide_True by done.
      destruct Hder as (Hsub & Hu & _).
      split; [done |]. split; [by repeat split; [..|right] |].
      repeat split; cbn; congruence.
    - exists r. rewrite Hreg, get_own_set, decide_True by done.
      repeat split; try apply Hder; congruence. }
  split.
  { intros other Hne. rewrite Hreg.
    destruct (cr_success c); rewrite !get_own_set, !decide_False by done; done. }
  split; [by apply bool_decide_eq_true |].
  split; [apply bool_decide_eq_true; by rewrite Henv |]. done.
Qed.

Lemma provisioning_registers_instance_witness :
  ∃ r, JS.get_own
         (instances (loadDeployments
            (createInstance (λ _, "2026-01-01T00:00:00.000Z") "beta" "Beta" "" ""
               "deadbeef" "feedface" 0 0 acme_host).2)) "beta" = Some r
       ∧ status r = "running"
       ∧ api_key r = "sk_ship_feedface".
Proof.
  destruct (provisioning_registers_instance (λ _, "2026-01-01T00:00:00.000Z")
              "beta" "Beta" "" "" "deadbeef" "feedface" 0%Z 0%Z acme_host _ _ eq_refl)
    as ((r & Hr & _ & Hst & _ & Hk & _) & _).
  exists r. split; [exact Hr |]. split; [exact Hst | exact Hk].
Defined.

(** X8. Provisioning is refused in exactly two cases: the name is taken in
    the registry (a key of its own, or one every object inherits), or the
    container listing succeeds and shows a container of the stack of that
    name. When the listing itself fails the check is skipped: provisioning
    goes on even where such a container exists. A refusal writes nothing. *)
Theorem provisioning_refused_exactly_on_collision toISOString name display key pg
    rand_db rand_key now_env now_created w :
  let out := createInstance toISOString name display key pg rand_db rand_key
               now_env now_created w in
  ((∃ msg, out.1 = CreateError msg)
   ↔ JS.has_truthy (instances (loadDeployments w)) name = true
     ∨ (fault w (DockerPsGrep name) = None
        ∧ ∃ c, c ∈ containers w ∧ c ∈ stack_containers name))
  ∧ ((∃ msg, out.1 = CreateError msg) → same_state w out.2).
Proof.
  cbn zeta. unfold createInstance.
  destruct (JS.has_truthy _ name) eqn:Hfree.
  { cbn. split; [split; [by left | by eexists] |]. intros _. apply same_state_refl. }
  pose proof (ps_grep_spec name w) as [Hw1 Hhit].
  pose proof (exec_same_state (DockerPsGrep name) w I) as Hs1.
  destruct (exec (DockerPsGrep name) w) as [nameCheck w1]. cbn [fst snd] in *.
  destruct (ok nameCheck && JS.truthy (text nameCheck)) eqn:Hcheck.
  { cbn. split; [|done]. split; [intros _; right; by apply Hhit | by eexists]. }
  destruct (exec (Chmod600 _) _) as [chmod w3].
  destruct (exec (ComposeUp name) _) as [start w4]. cbn.
  split; [|by intros [? [=]]]. split; [by intros [? [=]] |].
  intros [[=]|Hc]. apply Hhit in Hc. congruence.
Qed.

(** X9. What a removal does to the files. Without [delete_data] no file is
    touched. With [delete_data], when the recursive delete succeeds, no file
    is left under the directory of the instance, and every file of another
    instance is as it was (names without a path separator); when the delete
    fails the files stay and the removal still reports success, carrying the
    failure of the delete. In all cases the stack of the instance has no
    container left once the teardown command succeeded. *)
Theorem removal_deletes_only_its_own_data name delete_data w res w' :
  no_slash name →
  removeInstance name delete_data w = (RemoveDone res, w') →
  (delete_data = false → files w' = files w)
  ∧ (delete_data = true → fault w (RmRf (join APPS_DIR name)) = None →
       (∀ f, files w' !! join (join APPS_DIR name) f = None)
       ∧ (∀ other f, no_slash other → other ≠ name →
            files w' !! join (join APPS_DIR other) f
            = files w !! join (join APPS_DIR other) f))
  ∧ (∀ e, delete_data = true → fault w (RmRf (join APPS_DIR name)) = Some e →
       files w' = files w ∧ rm_directory_deleted res = Some (exec_fail e))
  ∧ (fault w (ComposeDown name delete_data) = None → fault w (DockerRmF name) = None →
       ∀ c, c ∈ stack_containers name → c ∉ containers w').
Proof.
  intros Hname (_ & _ & _ & _ & _ & _ & _ & _ & Hdown & Hdata)%removeInstance_done.
  split; [by intros -> ; destruct Hdata |].
  split.
  { intros -> Hrm. rewrite Hrm in Hdata. destruct Hdata as [_ Hfiles]. split.
    - intros f. by rewrite Hfiles, instance_dir_holds_its_files.
    - intros other f Hother Hne. rewrite Hfiles, instance_dirs_disjoint; done. }
  split.
  { intros e -> Hrm. rewrite Hrm in Hdata. by destruct Hdata. }
  intros H1 H2. cbn zeta in Hdown.
  destruct (existsSync _ w); [rewrite H1 in Hdown | rewrite H2 in Hdown]; done.
Qed.

Lemma removal_deletes_only_its_own_data_witness :
  ∃ res w',
    removeInstance "acme" true acme_host = (RemoveDone res, w')
    ∧ files w' !! compose_path "acme" = None
    ∧ "ship-acme" ∉ containers w'.
Proof.
  eexists _, _. split; [vm_compute; reflexivity |].
  assert (Hname : no_slash "acme").
  { unfold no_slash. cbn. intros H. repeat (apply elem_of_cons in H as [[=]|H]).
    by apply elem_of_nil in H. }
  destruct (removal_deletes_only_its_own_data "acme" true acme_host _ _ Hname eq_refl)
    as (_ & Hgone & _ & Hdown).
  split.
  - exact (proj1 (Hgone eq_refl eq_refl) "docker-compose.yml").
  - apply (Hdown eq_refl eq_refl). left.
Defined.

(** X10. Provisioning an instance and then removing it leaves the registry
    as it was before the two calls: every name, the one of the instance
    included, looks up as before. With [delete_data] and a successful delete
    the compose file and the secrets file written by the provisioning are
    gone again. The build history and the images are untouched throughout. *)
Theorem provision_then_remove_restores_registry toISOString name display key pg
    rand_db rand_key now_env now_created delete_data w c w1 :
  createInstance toISOString name display key pg rand_db rand_key now_env now_created w
  = (CreateDone c, w1) →
  ∃ res w2,
    removeInstance name delete_data w1 = (RemoveDone res, w2)
    ∧ (∀ k, JS.get_own (instances (loadDeployments w2)) k
            = JS.get_own (instances (loadDeployments w)) k)
    ∧ (delete_data = true → fault w (RmRf (join APPS_DIR name)) = None →
         existsSync (compose_path name) w2 = false
         ∧ existsSync (env_path name) w2 = false)
    ∧ history_file w2 = history_file w
    ∧ images w2 = images w.
Proof.
  intros Hcreate.
  assert (Hfault : fault w1 = fault w).
  { revert Hcreate. unfold createInstance.
    destruct (JS.has_truthy _ name); [done |].
    pose proof (exec_fault (DockerPsGrep name) w) as Hf1.
    destruct (exec (DockerPsGrep name) w) as [nameCheck wa]. cbn [snd] in Hf1.
    destruct (ok nameCheck && JS.truthy (text nameCheck)); [done |].
    match goal with |- context [exec (Chmod600 ?p) ?x] =>
      pose proof (exec_fault (Chmod600 p) x) as Hf2;
      destruct (exec (Chmod600 p) x) as [chmod wb] end.
    match goal with |- context [exec (ComposeUp name) ?x] =>
      pose proof (exec_fault (ComposeUp name) x) as Hf3;
      destruct (exec (ComposeUp name) x) as [start wc] end.
    cbn [snd] in *. intros [= _ <-].
    destruct (ok start); cbn in *; congruence. }
  apply createInstance_done in Hcreate
    as (Hfree & r & _ & _ & _ & _ & _ & _ & _ & _ & Hreg & _ & _ & _ & Hh & _ & Hi).
  apply has_truthy_false in Hfree as [Hown _].
  assert (Hin : ∃ r', JS.get_own (instances (loadDeployments w1)) name = Some r').
  { rewrite Hreg. destruct (cr_success c); rewrite get_own_set, decide_True by done;
      by eexists. }
  destruct Hin as [r' Hin].
  destruct (removeInstance name delete_data w1) as [[msg|res] w2] eqn:Hremove.
  { exfalso. revert Hremove. unfold removeInstance.
    rewrite (has_truthy_own _ _ _ Hin). cbn [negb].
    repeat (case_match; try done). }
  exists res, w2. split; [done |].
  apply removeInstance_done in Hremove
    as (_ & _ & _ & Hreg2 & Hh2 & _ & Hi2 & _ & _ & Hdata).
  split.
  { intros k. rewrite Hreg2. destruct (decide (name = k)) as [<-|Hne].
    - by rewrite get_own_delete.
    - rewrite get_own_delete_ne, Hreg by done.
      destruct (cr_success c); rewrite !get_own_set, !decide_False by done; done. }
  split; [|split; congruence].
  intros -> Hrm. rewrite Hfault, Hrm in Hdata. destruct Hdata as [_ Hfiles].
  unfold existsSync, compose_path, env_path.
  rewrite !Hfiles, !instance_dir_holds_its_files.
  split; apply bool_decide_eq_false; by intros [? [=]].
Qed.

Lemma provision_then_remove_restores_registry_witness :
  ∃ res w2,
    removeInstance "beta" true
      (createInstance (λ _, "2026-01-01T00:00:00.000Z") "beta" "Beta" "" ""
         "deadbeef" "feedface" 0 0 acme_host).2 = (RemoveDone res, w2)
    ∧ JS.get_own (instances (loadDeployments w2)) "beta" = None
    ∧ JS.get_own (instances (loadDeployments w2)) "acme" = Some acme_record.
Proof.
  destruct (provision_then_remove_restores_registry (λ _, "2026-01-01T00:00:00.000Z")
              "beta" "Beta" "" "" "deadbeef" "feedface" 0%Z 0%Z true acme_host _ _ eq_refl)
    as (res & w2 & Hrm & Hreg & _).
  exists res, w2. split; [exact Hrm |]. split; [exact (Hreg "beta") | exact (Hreg "acme")].
Defined.

(** X11. Removing an instance without [delete_data] takes it out of the
    registry but leaves its compose file, and the start route looks at the
    compose file only: it does not answer 404, it runs [docker compose up]
    for the removed name and when that succeeds the containers of the stack
    are up again, while the registry still has no entry for the name. *)
Theorem removed_instance_with_kept_data_still_starts name w res w1 :
  removeInstance name false w = (RemoveDone res, w1) →
  existsSync (compose_path name) w = true →
  ∃ r w2,
    post_instance_start name w1 = (Start200 r, w2)
    ∧ JS.get_own (instances (loadDeployments w2)) name = None
    ∧ (fault w (ComposeUp name) = None →
         ok r = true ∧ ∀ c, c ∈ stack_containers name → c ∈ containers w2).
Proof.
  intros (_ & _ & _ & Hreg & _ & _ & _ & Hfault & _ & _ & Hfiles)%removeInstance_done
         Hexists.
  unfold post_instance_start.
  assert (Hstill : existsSync (join (join APPS_DIR name) "docker-compose.yml") w1 = true).
  { unfold existsSync in *. by rewrite Hfiles. }
  rewrite Hstill. cbn [negb].
  pose proof (exec_documents (ComposeUp name) w1) as (_ & Hd & _).
  assert (Hup : fault w1 (ComposeUp name) = None →
                ok (exec (ComposeUp name) w1).1 = true
                ∧ ∀ c, c ∈ stack_containers name
                       → c ∈ containers (exec (ComposeUp name) w1).2).
  { intros Hnf. unfold exec. rewrite Hnf. cbn. split; [done |].
    intros c Hc. apply elem_of_app. by right. }
  destruct (exec (ComposeUp name) w1) as [r w2]. cbn [fst snd] in *.
  exists r, w2. split; [done |]. split.
  - unfold loadDeployments in *. rewrite Hd, Hreg. apply get_own_delete.
  - intros Hnf. apply Hup. by rewrite Hfault.
Qed.

Lemma removed_instance_with_kept_data_still_starts_witness :
  ∃ r w2,
    post_instance_start "acme" (removeInstance "acme" false acme_host).2 = (Start200 r, w2)
    ∧ JS.get_own (instances (loadDeployments w2)) "acme" = None
    ∧ "ship-acme" ∈ containers w2.
Proof.
  destruct (removed_instance_with_kept_data_still_starts "acme" acme_host _ _ eq_refl eq_refl)
    as (r & w2 & Hstart & Hreg & Hup).
  exists r, w2. split; [exact Hstart |]. split; [exact Hreg |].
  apply (Hup eq_refl). left.
Defined.

(** ** The build pipeline *)

Lemma exec_host_frame c w : keeps_host c → host_frame w (exec c w).2.
Proof.
  intros Hc. unfold exec. destruct (fault w c); [by repeat split |].
  destruct c; cbn in *; repeat case_match; try done; by repeat split.
Qed.

Lemma host_frame_refl w : host_frame w w.
Proof. by repeat split. Qed.

Lemma host_frame_trans w1 w2 w3 : host_frame w1 w2 → host_frame w2 w3 → host_frame w1 w3.
Proof.
  intros (? & ? & ? & ? & ? & ?) (? & ? & ? & ? & ? & ?). repeat split; congruence.
Qed.

Lemma restart_targets_frame registry targets acc w :
  host_frame w (restart_targets registry targets acc w).2
  ∧ images (restart_targets registry targets acc w).2 = images w
  ∧ history_file (restart_targets registry targets acc w).2 = history_file w.
Proof.
  revert acc w. induction targets as [|t targets IH]; intros acc w; cbn [restart_targets].
  - split; [apply host_frame_refl | done].
  - destruct (JS.has_truthy registry t); cbn [negb]; [|apply IH].
    pose proof (exec_host_frame (ComposeRecreateApp t) w I) as Hfr.
    pose proof (exec_same_state (ComposeRecreateApp t) w I) as (_ & _ & Hh & _ & Hi & _).
    destruct (exec (ComposeRecreateApp t) w) as [r w1]. cbn [snd] in *.
    destruct (IH (JS.set t (RestartRan r) acc) w1) as (Hfr' & Hi' & Hh').
    split; [by eapply host_frame_trans |]. split; congruence.
Qed.

Lemma filter_all_true {A} (P : A → Prop) `{∀ x, Decision (P x)} (l : list A) :
  Forall P l → filter P l = l.
Proof.
  induction 1 as [|x l Hx _ IH]; [done |].
  by rewrite filter_cons, decide_True, IH.
Qed.



Lemma pretty_N_char_digit x : JS.is_digit (pretty_N_char x) = true.
Proof. destruct x as [|p]; [done |]. by do 4 (destruct p as [p|p|]; try done). Qed.

Lemma pretty_N_go_digit x s :
  (0 < x)%N → starts_with_digit (pretty_N_go x s).
Proof.
  revert s. induction (N.lt_wf_0 x) as [x _ IH]. intros s Hx.
  rewrite pretty_N_go_step by done.
  destruct (decide (x `div` 10 = 0)%N) as [->|Hne].
  - rewrite pretty_N_go_0. apply pretty_N_char_digit.
  - apply IH; [apply N.div_lt; lia | by apply N.neq_0_lt_0].
Qed.

Lemma pretty_nat_digit (n : nat) : starts_with_digit (pretty n).
Proof.
  unfold pretty, pretty_nat, pretty, pretty_N.
  destruct (decide (N.of_nat n = 0%N)); [done |]. apply pretty_N_go_digit. lia.
Qed.

Lemma starts_with_digit_app s s' : starts_with_digit s → starts_with_digit (s +:+ s').
Proof. by destruct s. Qed.

Lemma generateBuildTag_digit now : starts_with_digit (generateBuildTag now).
Proof. unfold generateBuildTag. apply starts_with_digit_app, pretty_nat_digit. Qed.

(** A build tag is no sentinel, no placeholder and no rollback record. *)
Lemma starts_with_digit_tag t :
  starts_with_digit t →
  JS.truthy t = true ∧ JS.startsWith "rollback" t = false
  ∧ t ≠ NONE_TAG ∧ (t ∉ sentinel_tags).
Proof.
  destruct t as [|c t]; [done |]. cbn [starts_with_digit]. intros Hc.
  split; [done |]. split.
  { unfold JS.startsWith. cbn [String.prefix].
    destruct (ascii_dec "r" c) as [<-|]; [by vm_compute in Hc | done]. }
  split; [intros [= -> _]; by vm_compute in Hc |].
  intros H. unfold sentinel_tags in H.
  repeat (apply elem_of_cons in H as [[= -> _]|H]; [by vm_compute in Hc |]).
  by apply elem_of_nil in H.
Qed.

(** ** What the sweep leaves in place *)

Lemma resolve_tag_untag_ne rows t k :
  k ≠ t → resolve_tag (untag t rows) k = resolve_tag rows k.
Proof.
  intros Hne. unfold untag. induction rows as [|[t' i] rows IH]; [done |].
  rewrite filter_cons. cbn [fst resolve_tag].
  destruct (decide (t' ≠ t)) as [Ht|Ht].
  - cbn [resolve_tag]. by rewrite IH.
  - apply dec_stable in Ht as ->. rewrite IH.
    destruct (decide (t = k ∧ k ≠ NONE_TAG)) as [[? _]|]; [congruence | done].
Qed.

Lemma sweep_frame keep tags acc w :
  host_frame w (sweep keep tags acc w).2
  ∧ ∀ t, t ∈ keep →
         resolve_tag (images (sweep keep tags acc w).2) t = resolve_tag (images w) t.
Proof.
  revert acc w. induction tags as [|t0 tags IH]; intros acc w; cbn [sweep].
  - split; [apply host_frame_refl | done].
  - destruct (bool_decide (t0 = NONE_TAG) || bool_decide (t0 ∈ keep)) eqn:Hskip;
      [apply IH |].
    apply orb_false_iff in Hskip as [_ Hout%bool_decide_eq_false].
    pose proof (exec_host_frame (DockerRmi t0) w I) as Hfr.
    assert (Hres : ∀ t, t ≠ t0 →
              resolve_tag (images (exec (DockerRmi t0) w).2) t = resolve_tag (images w) t).
    { intros t Hne. destruct (exec_rmi_cases t0 w) as [(_ & -> & _)|(_ & _ & _ & ->)];
        [done |]. cbn. by apply resolve_tag_untag_ne. }
    destruct (exec (DockerRmi t0) w) as [rm w1]. cbn [snd] in *.
    destruct (IH (if ok rm then acc ++ [t0] else acc) w1) as [Hfr' Hres'].
    split; [by eapply host_frame_trans |].
    intros t Ht. rewrite Hres' by done. apply Hres. congruence.
Qed.

Lemma cleanup_frame now w :
  host_frame w (cleanupBuildImages now w).2
  ∧ ∀ t, t ∈ tagsToKeep now (loadBuildHistory w) →
         resolve_tag (images (cleanupBuildImages now w).2) t = resolve_tag (images w) t.
Proof.
  unfold cleanupBuildImages.
  pose proof (exec_host_frame DockerImagesTags w I) as Hfr.
  pose proof (exec_same_state DockerImagesTags w I) as (_ & _ & _ & _ & Hi & _).
  destruct (exec DockerImagesTags w) as [listing w1]. cbn [snd] in *.
  match goal with |- context [sweep ?k ?l [] w1] =>
    pose proof (sweep_frame k l [] w1) as [Hfr' Hres];
    destruct (sweep k l [] w1) as [gone w2] end.
  cbn [snd] in *. split; [by eapply host_frame_trans |].
  intros t Ht. rewrite Hres by done. by rewrite Hi.
Qed.

Lemma sentinel_kept now history t : t ∈ sentinel_tags → t ∈ tagsToKeep now history.
Proof.
  intros Ht. unfold tagsToKeep.
  apply elem_of_keep_periods. left. apply elem_of_keep_periods. left.
  apply elem_of_keep_builds. by left.
Qed.

(** The newest build that qualifies is always kept. *)
Lemma newest_candidate_kept now e history :
  retained_candidate e = true → tag e ∈ tagsToKeep now (e :: history).
Proof.
  intros He. unfold tagsToKeep. rewrite filter_cons, decide_True by done.
  apply elem_of_keep_periods. left. apply elem_of_keep_periods. left.
  apply elem_of_keep_builds. right. cbn [take]. rewrite fmap_cons. left.
Qed.

Lemma exec_build_cases t src w :
  (∃ e, fault w (DockerBuild t src) = Some e
        ∧ exec (DockerBuild t src) w = (exec_fail e, log_cmd (DockerBuild t src) w))
  ∨ (fault w (DockerBuild t src) = None
     ∧ exec (DockerBuild t src) w
       = (exec_ok [],
          set_images (point_tag t (next_image w)
                        (point_tag "latest" (next_image w) (images w)))
                     (log_cmd (DockerBuild t src) w))).
Proof.
  unfold exec. destruct (fault w (DockerBuild t src)) as [e|]; [left; by exists e | by right].
Qed.

(** What a run of the pipeline that built the image has done. *)
Lemma rebuildInstances_built name triggered amb w s w' :
  rebuildInstances name false triggered amb w = (RebuildDone s, w') →
  let buildTag := generateBuildTag (tag_time amb) in
  fault w (DockerBuild buildTag (build_source w)) = None
  ∧ (∃ entry,
       loadBuildHistory w' = entry :: loadBuildHistory w
       ∧ success entry = true ∧ error entry = None
       ∧ tag entry = buildTag
       ∧ timestamp entry = started_at amb
       ∧ triggered_by entry = JS.or_else triggered "unknown"
       ∧ instances_restarted entry = restart_set name w
       ∧ image_id entry = rs_image_id s)
  ∧ rs_build_tag s = Some buildTag
  ∧ rs_instances_restarted s = restart_set name w
  ∧ resolve_tag (images w') "latest" = Some (next_image w)
  ∧ resolve_tag (images w') buildTag = Some (next_image w)
  ∧ (∀ i, resolve_tag (images w) "latest" = Some i →
          fault w (DockerTag "latest" "rollback") = None →
          resolve_tag (images w') "rollback" = Some i)
  ∧ host_frame w w'.
Proof.
  cbn zeta. unfold rebuildInstances. fold (build_source w). fold (restart_set name w).
  set (buildTag := generateBuildTag (tag_time amb)).
  destruct (starts_with_digit_tag buildTag (generateBuildTag_digit _))
    as (Htruthy & Hnotrb & Hnone & Hsent).
  assert (Hlatest : buildTag ≠ "latest").
  { intros ->. apply Hsent. unfold sentinel_tags. set_solver. }
  assert (Hrollback : buildTag ≠ "rollback").
  { intros ->. apply Hsent. unfold sentinel_tags. set_solver. }
  pose proof (exec_host_frame (GitRevParse (build_source w)) w I) as Hfr1.
  pose proof (exec_same_state (GitRevParse (build_source w)) w I) as (_ & _ & Hh1 & _ & Hi1 & _).
  destruct (exec (GitRevParse _) w) as [gitCommit w1]. cbn [snd] in *.
  pose proof (exec_host_frame (GitLogSubject (build_source w)) w1 I) as Hfr2.
  pose proof (exec_same_state (GitLogSubject (build_source w)) w1 I) as (_ & _ & Hh2 & _ & Hi2 & _).
  destruct (exec (GitLogSubject _) w1) as [gitLog w2]. cbn [snd negb] in *.
  pose proof (host_frame_trans _ _ _ Hfr1 Hfr2) as Hfr12. clear Hfr1 Hfr2.
  assert (Hfl2 : fault w2 = fault w) by apply Hfr12.
  (* the safety-net tag *)
  pose proof (exec_host_frame (DockerTag "latest" "rollback") w2 I) as Hfr3.
  pose proof (exec_documents (DockerTag "latest" "rollback") w2) as (_ & _ & Hh3).
  assert (Himg3 :
    resolve_tag (images (exec (DockerTag "latest" "rollback") w2).2) "latest"
    = resolve_tag (images w2) "latest"
    ∧ ∀ i, resolve_tag (images w2) "latest" = Some i →
           fault w2 (DockerTag "latest" "rollback") = None →
           resolve_tag (images (exec (DockerTag "latest" "rollback") w2).2) "rollback"
           = Some i).
  { destruct (exec_tag_cases "latest" "rollback" w2)
      as [(_ & -> & Hno & _)|(i & Hnf & Hi & _ & ->)].
    - split; [done |]. intros i Hi Hnf. rewrite (Hno Hnf) in Hi. done.
    - cbn. split; [by apply resolve_tag_point_ne |].
      intros i' Hi' _. rewrite resolve_tag_point_eq by done. congruence. }
  destruct Himg3 as [Hl3 Hrb3].
  destruct (exec (DockerTag "latest" "rollback") w2) as [safety w3]. cbn [snd] in *.
  pose proof (host_frame_trans _ _ _ Hfr12 Hfr3) as Hfr123. clear Hfr12 Hfr3.
  (* the build *)
  destruct (exec_build_cases buildTag (build_source w) w3)
    as [(e & _ & ->)|(Hnf4 & ->)]; [done |].
  cbn [ok exec_ok negb].
  set (w4 := set_images _ (log_cmd _ w3)).
  assert (Hfr4 : host_frame w w4).
  { eapply host_frame_trans; [exact Hfr123 |]. by repeat split. }
  assert (Hh4 : history_file w4 = history_file w) by (cbn; congruence).
  assert (Hl4 : resolve_tag (images w4) "latest" = Some (next_image w)).
  { subst w4. cbn. rewrite resolve_tag_point_ne by done.
    rewrite resolve_tag_point_eq by done. f_equal. apply Hfr123. }
  assert (Hb4 : resolve_tag (images w4) buildTag = Some (next_image w)).
  { subst w4. cbn. rewrite resolve_tag_point_eq by done. f_equal. apply Hfr123. }
  assert (Hr4 : resolve_tag (images w4) "rollback" = resolve_tag (images w3) "rollback").
  { subst w4. cbn. by rewrite !resolve_tag_point_ne by done. }
  clearbody w4.
  pose proof (exec_host_frame (DockerInspectId "latest") w4 I) as Hfr5.
  pose proof (exec_same_state (DockerInspectId "latest") w4 I) as (_ & _ & Hh5 & _ & Hi5 & _).
  destruct (exec (DockerInspectId "latest") w4) as [imgInspect w5]. cbn [snd] in *.
  pose proof (restart_targets_frame (instances (loadDeployments w)) (restart_set name w) [] w5)
    as (Hfr6 & Hi6 & Hh6).
  destruct (restart_targets _ _ [] w5) as [restarts w6]. cbn [fst snd] in *.
  match goal with |- context [recordBuild ?e w6] => set (entry := e) end.
  pose proof (cleanup_frame (swept_at amb) (recordBuild entry w6)) as [Hfr7 Hkeep].
  assert (Hcand : retained_candidate entry = true).
  { unfold retained_candidate. subst entry. cbn [success tag]. by rewrite Htruthy, Hnotrb. }
  change (loadBuildHistory (recordBuild entry w6)) with (entry :: loadBuildHistory w6) in Hkeep.
  pose proof (cleanup_spec (swept_at amb) (recordBuild entry w6)) as (_ & Hh7 & _).
  destruct (cleanupBuildImages (swept_at amb) (recordBuild entry w6)) as [cleanup w7].
  cbn [snd] in *. intros [= <- <-]. cbn [rs_build_tag rs_instances_restarted rs_image_id].
  assert (Hfr : host_frame w w7).
  { eapply host_frame_trans; [|exact Hfr7].
    eapply host_frame_trans; [|by apply (host_frame_trans _ _ _ Hfr6)].
    eapply host_frame_trans; [exact Hfr4 | exact Hfr5]. }
  split.
  { destruct Hfr123 as (_ & _ & _ & _ & <- & _). exact Hnf4. }
  split.
  { exists entry. unfold loadBuildHistory in *. rewrite Hh7. cbn.
    split; [unfold loadBuildHistory; by rewrite Hh6, Hh5, Hh4 |]. done. }
  do 2 (split; [done |]).
  split.
  { rewrite Hkeep by (apply sentinel_kept; unfold sentinel_tags; set_solver).
    cbn. by rewrite Hi6, Hi5. }
  split.
  { rewrite Hkeep by (apply (newest_candidate_kept _ entry), Hcand).
    cbn. by rewrite Hi6, Hi5. }
  split; [|done].
  intros i Hi Hnf. rewrite Hkeep by (apply sentinel_kept; unfold sentinel_tags; set_solver).
  cbn. rewrite Hi6, Hi5, Hr4. apply Hrb3.
  - by rewrite Hi2, Hi1.
  - by rewrite Hfl2.
Qed.

Lemma restart_every_frame targets acc w :
  host_frame w (restart_every targets acc w).2.
Proof.
  revert acc w. induction targets as [|t targets IH]; intros acc w; cbn [restart_every].
  - apply host_frame_refl.
  - pose proof (exec_host_frame (ComposeRecreateApp t) w I) as Hfr.
    destruct (exec (ComposeRecreateApp t) w) as [r w1]. cbn [snd] in *.
    eapply host_frame_trans; [exact Hfr | apply IH].
Qed.

(** What a rollback that went through has done to the tags and the history. *)
Lemma rollbackBuild_done target rand now w r w' :
  rollbackBuild target rand now w = (RollbackDone r, w') →
  JS.truthy target = true
  ∧ host_frame w w'
  ∧ (∃ entry, loadBuildHistory w' = entry :: loadBuildHistory w
              ∧ tag entry = "rollback-to-" +:+ target
              ∧ instances_restarted entry = JS.keys (instances (loadDeployments w)))
  ∧ (target ≠ "pre-rollback" →
       is_Some (resolve_tag (images w) target)
       ∧ resolve_tag (images w') "latest" = resolve_tag (images w) target)
  ∧ (∀ t, t ≠ "latest" → t ≠ "pre-rollback" →
          resolve_tag (images w') t = resolve_tag (images w) t)
  ∧ (∀ i, resolve_tag (images w) "latest" = Some i →
          fault w (DockerTag "latest" "pre-rollback") = None →
          resolve_tag (images w') "pre-rollback" = Some i).
Proof.
  unfold rollbackBuild. destruct (JS.truthy target) eqn:Htruthy; [|done]. cbn [negb].
  pose proof (exec_host_frame (DockerInspectId target) w I) as Hfr1.
  pose proof (exec_same_state (DockerInspectId target) w I) as (_ & _ & Hh1 & _ & Hi1 & _).
  destruct (exec_inspect target w) as (_ & Hok & _).
  destruct (exec (DockerInspectId target) w) as [check w1]. cbn [fst snd] in *.
  destruct (ok check) eqn:Hcheck; [|done]. cbn [negb].
  apply proj1 in Hok. destruct (Hok eq_refl) as [_ Hres].
  pose proof (exec_host_frame (DockerTag "latest" "pre-rollback") w1 I) as Hfr2.
  pose proof (exec_documents (DockerTag "latest" "pre-rollback") w1) as (_ & _ & Hh2).
  assert (Himg2 :
    (∀ t, t ≠ "pre-rollback" →
          resolve_tag (images (exec (DockerTag "latest" "pre-rollback") w1).2) t
          = resolve_tag (images w1) t)
    ∧ ∀ i, resolve_tag (images w1) "latest" = Some i →
           fault w1 (DockerTag "latest" "pre-rollback") = None →
           resolve_tag (images (exec (DockerTag "latest" "pre-rollback") w1).2)
             "pre-rollback" = Some i).
  { destruct (exec_tag_cases "latest" "pre-rollback" w1)
      as [(_ & -> & Hno & _)|(i & Hnf & Hi & _ & ->)].
    - split; [done |]. intros i Hi Hnf. rewrite (Hno Hnf) in Hi. done.
    - cbn. split; [intros t Ht; by apply resolve_tag_point_ne |].
      intros i' Hi' _. rewrite resolve_tag_point_eq by done. congruence. }
  destruct Himg2 as [Hother2 Hpre2].
  destruct (exec (DockerTag "latest" "pre-rollback") w1) as [safety w2]. cbn [snd] in *.
  pose proof (exec_host_frame (DockerTag target "latest") w2 I) as Hfr3.
  pose proof (exec_documents (DockerTag target "latest") w2) as (_ & Hd3 & Hh3).
  assert (Himg3 :
    ok (exec (DockerTag target "latest") w2).1 = true →
    resolve_tag (images (exec (DockerTag target "latest") w2).2) "latest"
    = resolve_tag (images w2) target
    ∧ ∀ t, t ≠ "latest" →
           resolve_tag (images (exec (DockerTag target "latest") w2).2) t
           = resolve_tag (images w2) t).
  { destruct (exec_tag_cases target "latest" w2)
      as [(-> & _)|(i & Hnf & Hi & _ & ->)]; [done |].
    intros _. cbn. split; [by rewrite resolve_tag_point_eq |].
    intros t Ht. by apply resolve_tag_point_ne. }
  destruct (exec (DockerTag target "latest") w2) as [retag w3]. cbn [fst snd] in *.
  destruct (ok retag); [|done]. cbn [negb].
  destruct (Himg3 eq_refl) as [Hl3 Hother3].
  assert (Hcfg : loadDeployments w3 = loadDeployments w).
  { unfold loadDeployments. f_equal.
    destruct Hfr1 as (_ & Hd1 & _), Hfr2 as (_ & Hd2 & _). congruence. }
  rewrite Hcfg.
  pose proof (restart_every_frame (JS.keys (instances (loadDeployments w))) [] w3) as Hfr4.
  destruct (restart_every_spec (JS.keys (instances (loadDeployments w))) [] w3)
    as [(_ & _ & Hh4 & _ & Hi4 & _) _].
  destruct (restart_every _ [] w3) as [restarts w4]. cbn [snd] in *.
  intros [= <- <-].
  split; [done |]. split.
  { eapply host_frame_trans; [exact Hfr1 |]. eapply host_frame_trans; [exact Hfr2 |].
    eapply host_frame_trans; [exact Hfr3 |]. eapply host_frame_trans; [exact Hfr4 |].
    by repeat split. }
  split.
  { eexists. split.
    - change (loadBuildHistory (recordBuild ?e w4)) with (e :: loadBuildHistory w4).
      apply (f_equal (cons _)). unfold loadBuildHistory. congruence.
    - split; reflexivity. }
  split.
  { intros Hne. split; [done |]. cbn. rewrite Hi4, Hl3, Hother2 by done. by rewrite Hi1. }
  split.
  { intros t Ht1 Ht2. cbn. rewrite Hi4, Hother3, Hother2 by done. by rewrite Hi1. }
  intros i Hi Hnf. cbn. rewrite Hi4, Hother3 by done. apply Hpre2.
  - by rewrite Hi1.
  - destruct Hfr1 as (_ & _ & _ & _ & -> & _). done.
Qed.

(** A rollback goes through when the tag names an image and neither the
    check nor the re-tag subprocess fails. *)
Lemma rollbackBuild_succeeds target rand now w :
  JS.truthy target = true →
  is_Some (resolve_tag (images w) target) →
  fault w (DockerInspectId target) = None →
  fault w (DockerTag target "latest") = None →
  ∃ r w', rollbackBuild target rand now w = (RollbackDone r, w').
Proof.
  intros Htruthy Hres Hnf1 Hnf2. unfold rollbackBuild. rewrite Htruthy. cbn [negb].
  pose proof (exec_host_frame (DockerInspectId target) w I) as Hfr1.
  pose proof (exec_same_state (DockerInspectId target) w I) as (_ & _ & _ & _ & Hi1 & _).
  destruct (exec_inspect target w) as (_ & Hok & _).
  destruct (exec (DockerInspectId target) w) as [check w1]. cbn [fst snd] in *.
  rewrite (proj2 Hok (conj Hnf1 Hres)). cbn [negb].
  destruct (safety_tag_step "pre-rollback" w1) as (Hf2 & _ & _ & _ & Hother & Hsame);
    [done |].
  destruct (exec (DockerTag "latest" "pre-rollback") w1) as [safety w2]. cbn [snd] in *.
  assert (Hres2 : is_Some (resolve_tag (images w2) target)).
  { destruct (decide (target = "pre-rollback")) as [->|Hne].
    - apply Hsame. by rewrite Hi1.
    - rewrite Hother by done. by rewrite Hi1. }
  destruct (exec_tag_cases target "latest" w2)
    as [(_ & _ & Hnone & _)|(i & _ & _ & Hok3 & _)].
  { destruct Hres2 as [j Hj]. rewrite Hnone in Hj; [done |].
    rewrite Hf2. destruct Hfr1 as (_ & _ & _ & _ & -> & _). done. }
  destruct (exec (DockerTag target "latest") w2) as [retag w3]. cbn [fst snd] in *.
  rewrite Hok3. cbn [negb].
  destruct (restart_every _ [] w3) as [restarts w4]. by eexists _, _.
Qed.



(** X14. A build followed by a rollback to the [rollback] safety tag puts
    the image that was current before the build back under the current tag.
    The image just built stays reachable under its build tag and under the
    [pre-rollback] safety tag, and the history gains two records: the build,
    and above it the rollback. *)
Theorem rollback_after_build_restores_previous_image name triggered amb rand now
    w s w1 i :
  rebuildInstances name false triggered amb w = (RebuildDone s, w1) →
  resolve_tag (images w) "latest" = Some i →
  fault w (DockerTag "latest" "rollback") = None →
  fault w (DockerInspectId "rollback") = None →
  fault w (DockerTag "rollback" "latest") = None →
  ∃ r w2 undo build,
    rollbackBuild "rollback" rand now w1 = (RollbackDone r, w2)
    ∧ resolve_tag (images w2) "latest" = Some i
    ∧ resolve_tag (images w2) (generateBuildTag (tag_time amb)) = Some (next_image w)
    ∧ (fault w (DockerTag "latest" "pre-rollback") = None →
         resolve_tag (images w2) "pre-rollback" = Some (next_image w))
    ∧ loadBuildHistory w2 = undo :: build :: loadBuildHistory w
    ∧ tag undo = "rollback-to-rollback"
    ∧ tag build = generateBuildTag (tag_time amb).
Proof.
  intros Hbuild Hi Hnf1 Hnf2 Hnf3.
  apply rebuildInstances_built in Hbuild
    as (_ & (build & Hh & _ & _ & Ht & _) & _ & _ & Hl & Hb & Hrb & Hfr).
  cbn zeta in *. specialize (Hrb i Hi Hnf1).
  assert (Hfault : fault w1 = fault w) by apply Hfr.
  destruct (rollbackBuild_succeeds "rollback" rand now w1) as (r & w2 & Hroll);
    [done | by rewrite Hrb | by rewrite Hfault | by rewrite Hfault |].
  exists r, w2. pose proof Hroll as Hdone.
  apply rollbackBuild_done in Hdone
    as (_ & _ & (undo & Hh2 & Ht2 & _) & Hlatest & Hother & Hpre).
  exists undo, build. split; [done |].
  destruct (Hlatest ltac:(done)) as [_ Hl2].
  destruct (starts_with_digit_tag _ (generateBuildTag_digit (tag_time amb)))
    as (_ & _ & _ & Hsent).
  split; [congruence |]. split.
  { rewrite Hother; [done | |]; intros Heq; apply Hsent; rewrite Heq;
      unfold sentinel_tags; set_solver. }
  split; [intros Hnf; apply Hpre; [done | by rewrite Hfault] |].
  split; [by rewrite Hh2, Hh |]. done.
Qed.

Lemma rollback_after_build_restores_previous_image_witness :
  ∃ s w1 r w2,
    rebuildInstances "" false "api" sample_ambient acme_host = (RebuildDone s, w1)
    ∧ rollbackBuild "rollback" "0a0b0c" 1767229200000 w1 = (RollbackDone r, w2)
    ∧ resolve_tag (images w2) "latest" = Some "sha256:aaaaaaaaaaaaaaaa"
    ∧ resolve_tag (images w2) (generateBuildTag (tag_time sample_ambient))
      = Some "sha256:cccccccccccccccc".
Proof.
  destruct (rebuildInstances "" false "api" sample_ambient acme_host)
    as [[f|s] w1] eqn:Hrun.
  { exfalso. vm_compute in Hrun. discriminate Hrun. }
  destruct (rollback_after_build_restores_previous_image "" "api" sample_ambient
              "0a0b0c" 1767229200000%Z acme_host s w1 "sha256:aaaaaaaaaaaaaaaa"
              Hrun eq_refl eq_refl eq_refl eq_refl)
    as (r & w2 & _ & _ & Hroll & Hl & Hb & _).
  exists s, w1, r, w2. split; [reflexivity |]. split; [exact Hroll |].
  split; [exact Hl | exact Hb].
Defined.

(** What a run of the pipeline whose build failed has recorded. *)
Lemma rebuildInstances_failed name skip_build triggered amb w f w' :
  rebuildInstances name skip_build triggered amb w = (RebuildFailed f, w') →
  skip_build = false
  ∧ rf_step f = "build"
  ∧ ∃ entry,
      loadBuildHistory w' = entry :: loadBuildHistory w
      ∧ success entry = false
      ∧ error entry = Some (rf_error f)
      ∧ triggered_by entry = JS.or_else triggered "unknown"
      ∧ instances_restarted entry = [].
Proof.
  unfold rebuildInstances. fold (build_source w). fold (restart_set name w).
  pose proof (exec_documents (GitRevParse (build_source w)) w) as (_ & _ & Hh1).
  destruct (exec (GitRevParse _) w) as [gitCommit w1]. cbn [snd] in *.
  pose proof (exec_documents (GitLogSubject (build_source w)) w1) as (_ & _ & Hh2).
  destruct (exec (GitLogSubject _) w1) as [gitLog w2]. cbn [snd] in *.
  destruct skip_build; cbn [negb].
  { destruct (restart_targets _ _ [] w2) as [restarts w3]. done. }
  pose proof (exec_documents (DockerTag "latest" "rollback") w2) as (_ & _ & Hh3).
  destruct (exec (DockerTag "latest" "rollback") w2) as [safety w3]. cbn [snd] in *.
  pose proof (exec_documents (DockerBuild (generateBuildTag (tag_time amb)) (build_source w)) w3)
    as (_ & _ & Hh4).
  destruct (exec (DockerBuild _ _) w3) as [build w4]. cbn [snd] in *.
  destruct (ok build); cbn [negb].
  { destruct (exec (DockerInspectId "latest") w4) as [imgInspect w5].
    destruct (restart_targets _ _ [] w5) as [restarts w6].
    destruct (cleanupBuildImages _ _) as [cleanup w7]. done. }
  intros [= <- <-]. split; [done |]. split; [done |].
  eexists. split.
  - change (loadBuildHistory (recordBuild ?e w4)) with (e :: loadBuildHistory w4).
    apply (f_equal (cons _)). unfold loadBuildHistory. congruence.
  - done.
Qed.

(** X15. The REST route of the pipeline answers 200 or 500, and 500 exactly
    when the image build failed. A run that builds leaves exactly one new
    record at the head of the history, a success record under 200 and a
    failure record with no restarted instance under 500, and the record
    names the caller by the label of the token that passed the gate, or
    [api] when the gate is open or the label is empty. *)
Theorem rest_rebuild_records_the_caller name amb tokenEntry w :
  let out := post_rebuild name false amb tokenEntry w in
  let caller := match tokenEntry with
                | Some e => if JS.truthy (tok_label e) then tok_label e else "api"
                | None => "api"
                end in
  ∃ entry,
    loadBuildHistory out.2 = entry :: loadBuildHistory w
    ∧ triggered_by entry = caller
    ∧ (out.1.1 = 200 ∧ success entry = true ∧ (∃ s, out.1.2 = RebuildDone s)
       ∨ out.1.1 = 500 ∧ success entry = false ∧ instances_restarted entry = []
         ∧ (∃ f, out.1.2 = RebuildFailed f)).
Proof.
  cbn zeta. unfold post_rebuild.
  set (label := match tokenEntry with Some e => tok_label e | None => "" end).
  assert (Hcaller :
    JS.or_else (JS.or_else label "api") "unknown"
    = match tokenEntry with
      | Some e => if JS.truthy (tok_label e) then tok_label e else "api"
      | None => "api"
      end).
  { subst label. destruct tokenEntry as [e|]; [|done].
    unfold JS.or_else. destruct (JS.truthy (tok_label e)) eqn:Hl; [by rewrite Hl | done]. }
  destruct (rebuildInstances name false (JS.or_else label "api") amb w)
    as [[f|s] w'] eqn:Hrun; cbn [fst snd].
  - apply rebuildInstances_failed in Hrun as (_ & _ & entry & Hh & Hs & _ & Hby & Hr).
    exists entry. split; [done |]. split; [congruence |]. right. eauto.
  - apply rebuildInstances_built in Hrun as (_ & (entry & Hh & Hs & _ & _ & _ & Hby & _) & _).
    exists entry. split; [done |]. split; [congruence |]. left. eauto.
Qed.

(** ** The documents across a request *)

Lemma history_grows_refl w w' : history_file w' = history_file w → history_grows w w'.
Proof. intros H. left. unfold loadBuildHistory. by rewrite H. Qed.

Lemma rebuildInstances_frame name skip_build triggered amb w :
  host_frame w (rebuildInstances name skip_build triggered amb w).2
  ∧ history_grows w (rebuildInstances name skip_build triggered amb w).2
  ∧ (skip_build = true →
       history_file (rebuildInstances name skip_build triggered amb w).2 = history_file w).
Proof.
  unfold rebuildInstances. fold (build_source w). fold (restart_set name w).
  pose proof (exec_host_frame (GitRevParse (build_source w)) w I) as Hfr1.
  pose proof (exec_documents (GitRevParse (build_source w)) w) as (_ & _ & Hh1).
  destruct (exec (GitRevParse _) w) as [gitCommit w1]. cbn [snd] in *.
  pose proof (exec_host_frame (GitLogSubject (build_source w)) w1 I) as Hfr2.
  pose proof (exec_documents (GitLogSubject (build_source w)) w1) as (_ & _ & Hh2).
  destruct (exec (GitLogSubject _) w1) as [gitLog w2]. cbn [snd] in *.
  pose proof (host_frame_trans _ _ _ Hfr1 Hfr2) as Hfr12.
  destruct skip_build; cbn [negb].
  { pose proof (restart_targets_frame (instances (loadDeployments w)) (restart_set name w) [] w2)
      as (Hfr3 & _ & Hh3).
    destruct (restart_targets _ _ [] w2) as [restarts w3]. cbn [snd] in *.
    split; [by eapply host_frame_trans |].
    split; [apply history_grows_refl |]; congruence. }
  pose proof (exec_host_frame (DockerTag "latest" "rollback") w2 I) as Hfr3.
  pose proof (exec_documents (DockerTag "latest" "rollback") w2) as (_ & _ & Hh3).
  destruct (exec (DockerTag "latest" "rollback") w2) as [safety w3]. cbn [snd] in *.
  pose proof (exec_host_frame (DockerBuild (generateBuildTag (tag_time amb)) (build_source w)) w3 I)
    as Hfr4.
  pose proof (exec_documents (DockerBuild (generateBuildTag (tag_time amb)) (build_source w)) w3)
    as (_ & _ & Hh4).
  destruct (exec (DockerBuild _ _) w3) as [build w4]. cbn [snd] in *.
  assert (Hfr : host_frame w w4) by eauto using host_frame_trans.
  assert (Hh : history_file w4 = history_file w) by congruence.
  destruct (ok build); cbn [negb].
  - pose proof (exec_host_frame (DockerInspectId "latest") w4 I) as Hfr5.
    pose proof (exec_documents (DockerInspectId "latest") w4) as (_ & _ & Hh5).
    destruct (exec (DockerInspectId "latest") w4) as [imgInspect w5]. cbn [snd] in *.
    pose proof (restart_targets_frame (instances (loadDeployments w)) (restart_set name w) [] w5)
      as (Hfr6 & _ & Hh6).
    destruct (restart_targets _ _ [] w5) as [restarts w6]. cbn [snd] in *.
    match goal with |- context [recordBuild ?e w6] => set (entry := e) end.
    pose proof (cleanup_frame (swept_at amb) (recordBuild entry w6)) as [Hfr7 _].
    pose proof (cleanup_spec (swept_at amb) (recordBuild entry w6)) as (_ & Hh7 & _).
    destruct (cleanupBuildImages (swept_at amb) (recordBuild entry w6)) as [cleanup w7].
    cbn [snd] in *. split; [|split; [|done]].
    + eapply host_frame_trans; [|exact Hfr7].
      eapply host_frame_trans; [|by apply (host_frame_trans _ _ _ Hfr6)].
      eapply host_frame_trans; [exact Hfr | exact Hfr5].
    + right. exists entry. unfold loadBuildHistory at 1. rewrite Hh7.
      change (entry :: loadBuildHistory w6 = entry :: loadBuildHistory w).
      f_equal. unfold loadBuildHistory. congruence.
  - cbn [snd]. split; [|split; [|done]].
    + eapply host_frame_trans; [exact Hfr |]. by repeat split.
    + right. eexists.
      change (loadBuildHistory (recordBuild ?e w4)) with (e :: loadBuildHistory w4).
      apply (f_equal (cons _)). unfold loadBuildHistory. congruence.
Qed.

Lemma rollbackBuild_frame target rand now w :
  host_frame w (rollbackBuild target rand now w).2
  ∧ history_grows w (rollbackBuild target rand now w).2.
Proof.
  destruct (rollbackBuild target rand now w) as [[e|r] w'] eqn:Hroll; cbn [snd].
  - revert Hroll. unfold rollbackBuild.
    destruct (JS.truthy target); cbn [negb];
      [|intros [= _ <-]; split; [apply host_frame_refl | by apply history_grows_refl]].
    pose proof (exec_host_frame (DockerInspectId target) w I) as Hfr1.
    pose proof (exec_documents (DockerInspectId target) w) as (_ & _ & Hh1).
    destruct (exec (DockerInspectId target) w) as [check w1]. cbn [snd] in *.
    destruct (ok check); cbn [negb];
      [|intros [= _ <-]; split; [done | by apply history_grows_refl]].
    pose proof (exec_host_frame (DockerTag "latest" "pre-rollback") w1 I) as Hfr2.
    pose proof (exec_documents (DockerTag "latest" "pre-rollback") w1) as (_ & _ & Hh2).
    destruct (exec (DockerTag "latest" "pre-rollback") w1) as [safety w2]. cbn [snd] in *.
    pose proof (exec_host_frame (DockerTag target "latest") w2 I) as Hfr3.
    pose proof (exec_documents (DockerTag target "latest") w2) as (_ & _ & Hh3).
    destruct (exec (DockerTag target "latest") w2) as [retag w3]. cbn [snd] in *.
    destruct (ok retag); cbn [negb].
    + destruct (restart_every _ [] w3) as [restarts w4]. done.
    + intros [= _ <-]. split; [eauto using host_frame_trans |].
      apply history_grows_refl. congruence.
  - apply rollbackBuild_done in Hroll as (_ & Hfr & (entry & Hh & _) & _).
    split; [done |]. right. by exists entry.
Qed.

(** The gate writes the token store only. *)
Lemma authMiddleware_docs hashToken envToken authorization now w :
  deployments_file (authMiddleware hashToken envToken authorization now w).2
  = deployments_file w
  ∧ history_file (authMiddleware hashToken envToken authorization now w).2
    = history_file w.
Proof.
  unfold authMiddleware. destruct (negb _); [done |].
  destruct authorization as [auth|]; [|done].
  destruct (_ || _); [done |].
  unfold verifyToken. destruct (negb _); [done |].
  destruct (list_find _ _) as [[i e]|]; done.
Qed.

(** The host a route leaves: the one the gate left, or the one the handler
    left after the gate. *)
Lemma route_world hashToken envToken {R} roles
    (handler : option TokenRecord → World → R * World) authorization now w :
  ∃ w1,
    deployments_file w1 = deployments_file w
    ∧ history_file w1 = history_file w
    ∧ ((route hashToken envToken roles handler authorization now w).2 = w1
       ∨ ∃ entry, (route hashToken envToken roles handler authorization now w).2
                  = (handler entry w1).2).
Proof.
  unfold route.
  pose proof (authMiddleware_docs hashToken envToken authorization now w) as [Hd Hh].
  destruct (authMiddleware _ _ _ _ _) as [[entry|why] w1]; cbn [snd] in *.
  - exists w1. split; [done |]. split; [done |].
    destruct (match roles with Some rs => requireRole rs entry | None => true end).
    + right. exists entry. by destruct (handler entry w1).
    + by left.
  - exists w1. split; [done |]. split; [done |]. by left.
Qed.

Lemma createInstance_refused toISOString name display key pg rand_db rand_key
    now_env now_created w msg w' :
  createInstance toISOString name display key pg rand_db rand_key now_env now_created w
  = (CreateError msg, w') →
  same_state w w'.
Proof.
  unfold createInstance. destruct (JS.has_truthy _ name).
  { intros [= _ <-]. apply same_state_refl. }
  pose proof (exec_same_state (DockerPsGrep name) w I) as Hs1.
  destruct (exec (DockerPsGrep name) w) as [nameCheck w1]. cbn [snd] in *.
  destruct (ok nameCheck && JS.truthy (text nameCheck)); [by intros [= _ <-] |].
  destruct (exec (Chmod600 _) _) as [chmod w3].
  destruct (exec (ComposeUp name) _) as [start w4]. done.
Qed.

Lemma post_instances_docs toISOString name display key pg rand_db rand_key
    now_env now_created w :
  let w' := (post_instances toISOString name display key pg rand_db rand_key
               now_env now_created w).2 in
  history_file w' = history_file w
  ∧ (registry_derived w → registry_derived w').
Proof.
  cbn zeta. unfold post_instances.
  destruct (_ || _); [done |]. destruct (negb (Regex.test _ _)); [done |].
  destruct (createInstance _ _ _ _ _ _ _ _ _ w) as [[msg|c] w'] eqn:Hcreate; cbn [snd].
  - apply createInstance_refused in Hcreate as (_ & Hd & Hh & _).
    split; [done |]. unfold registry_derived, loadDeployments. by rewrite Hd.
  - apply createInstance_done in Hcreate
      as (_ & r & Hder & _ & _ & _ & _ & _ & _ & _ & Hreg & _ & _ & _ & Hh & _).
    split; [done |]. intros Hinv k r' Hin. rewrite Hreg in Hin.
    assert (Hrun : record_derived name (set_status "running" r)).
    { destruct Hder as (? & ? & _). by repeat split; [..|right]. }
    destruct (cr_success c).
    + apply elem_of_set in Hin as [[= -> ->]|Hin]; [done |].
      apply elem_of_set in Hin as [[= -> ->]|Hin]; [done | by apply Hinv].
    + apply elem_of_set in Hin as [[= -> ->]|Hin]; [done | by apply Hinv].
Qed.

Lemma removeInstance_docs name delete_data w :
  let w' := (removeInstance name delete_data w).2 in
  history_file w' = history_file w
  ∧ (registry_derived w → registry_derived w').
Proof.
  cbn zeta.
  destruct (removeInstance name delete_data w) as [[msg|res] w'] eqn:Hremove; cbn [snd].
  - revert Hremove. unfold removeInstance. destruct (negb _).
    + by intros [= _ <-].
    + repeat (case_match; try done).
  - apply removeInstance_done in Hremove as (_ & _ & _ & Hreg & Hh & _).
    split; [done |]. intros Hinv k r Hin. rewrite Hreg in Hin.
    apply elem_of_js_delete in Hin. by apply Hinv.
Qed.

Lemma history_grows_after w w1 w2 :
  history_file w1 = history_file w → history_grows w1 w2 → history_grows w w2.
Proof. unfold history_grows, loadBuildHistory. by intros ->. Qed.

(** X16. The build history is append-only. None of the requests of [serve]
    (provisioning, removal, start, rebuild, rollback, retention sweep,
    token creation and deletion) drops or rewrites a record: after the
    request the history is the one before it, or that one with a single new
    record on top. Only a rebuild that builds and a rollback can add the
    record; provisioning, removal, start, a restart-only run, the retention
    sweep and the token routes leave the history document as it is,
    whatever they answer. *)
Theorem build_history_is_append_only hashToken envToken toISOString req
    authorization now w :
  let w' := serve hashToken envToken toISOString req authorization now w in
  history_grows w w'
  ∧ (records_build req = false → history_file w' = history_file w).
Proof.
  cbn zeta. unfold serve.
  destruct req as [name display key pg rand_db rand_key now_env now_created
                  |name delete_data|name|name skip_build amb
                  |body_tag query_tag rand at_ms|at_ms
                  |label role rawToken rand at_ms|id];
    match goal with |- context [route _ _ ?roles ?h _ _ _] =>
      destruct (route_world hashToken envToken roles h authorization now w)
        as (w1 & _ & Hh1 & [->|(entry & ->)])
    end;
    try (split; [by apply history_grows_refl | done]); cbn [records_build].
  - pose proof (post_instances_docs toISOString name display key pg rand_db rand_key
                  now_env now_created w1) as [Hh _].
    split; [apply history_grows_refl |]; congruence.
  - pose proof (removeInstance_docs name delete_data w1) as [Hh _].
    split; [apply history_grows_refl |]; congruence.
  - unfold post_instance_start. destruct (negb _); cbn [snd].
    + split; [by apply history_grows_refl | done].
    + pose proof (exec_documents (ComposeUp name) w1) as (_ & _ & Hh).
      destruct (exec (ComposeUp name) w1) as [r w2]. cbn [snd] in *.
      split; [apply history_grows_refl |]; congruence.
  - unfold post_rebuild.
    match goal with |- context [rebuildInstances name skip_build ?t amb w1] =>
      pose proof (rebuildInstances_frame name skip_build t amb w1) as (_ & Hg & Hskip);
      destruct (rebuildInstances name skip_build t amb w1) as [result w2] end.
    cbn [snd] in *. split; [by eapply history_grows_after |].
    intros Hs. apply negb_false_iff in Hs. rewrite Hskip by done. done.
  - unfold post_rollback. split; [|done]. destruct (negb _); cbn [snd].
    + by apply history_grows_refl.
    + pose proof (rollbackBuild_frame (JS.or_else body_tag query_tag) rand at_ms w1)
        as [_ Hg].
      destruct (rollbackBuild _ rand at_ms w1) as [result w2]. cbn [snd] in *.
      by eapply history_grows_after.
  - pose proof (cleanup_spec at_ms w1) as (_ & Hh & _).
    split; [apply history_grows_refl |]; congruence.
  - unfold post_tokens. split; [apply history_grows_refl |];
      repeat (case_match; cbn; try done).
  - unfold delete_tokens. split; [apply history_grows_refl |];
      repeat (case_match; cbn; try done).
Qed.

Lemma registry_derived_same w w' :
  deployments_file w' = deployments_file w → registry_derived w → registry_derived w'.
Proof. unfold registry_derived, loadDeployments. by intros ->. Qed.

(** X17. Every entry of the registry is as provisioning wrote it, and none
    of the requests of [serve] breaks that: if each record has the
    subdomain and the address derived from the name it is filed under and
    the status [created] or [running], the same holds after the request.
    Requests other than provisioning and removal do not write the registry
    at all; in particular start, rebuild and rollback never change a
    status. *)
Theorem registry_records_stay_derived hashToken envToken toISOString req
    authorization now w :
  registry_derived w →
  let w' := serve hashToken envToken toISOString req authorization now w in
  registry_derived w'
  ∧ (writes_registry req = false → deployments_file w' = deployments_file w).
Proof.
  intros Hinv. cbn zeta. unfold serve.
  destruct req as [name display key pg rand_db rand_key now_env now_created
                  |name delete_data|name|name skip_build amb
                  |body_tag query_tag rand at_ms|at_ms
                  |label role rawToken rand at_ms|id];
    match goal with |- context [route _ _ ?roles ?h _ _ _] =>
      destruct (route_world hashToken envToken roles h authorization now w)
        as (w1 & Hd1 & _ & [->|(entry & ->)])
    end;
    try (split; [by apply (registry_derived_same w) | done]);
    cbn [writes_registry];
    pose proof (registry_derived_same w w1 Hd1 Hinv) as Hinv1.
  - split; [|done]. by apply post_instances_docs.
  - split; [|done]. by apply removeInstance_docs.
  - assert (Hd : deployments_file (post_instance_start name w1).2 = deployments_file w1).
    { unfold post_instance_start. destruct (negb _); [done |].
      pose proof (exec_documents (ComposeUp name) w1) as (_ & Hd & _).
      by destruct (exec (ComposeUp name) w1). }
    split; [by apply (registry_derived_same w1) | congruence].
  - assert (Hd : deployments_file (post_rebuild name skip_build amb entry w1).2
                 = deployments_file w1).
    { unfold post_rebuild.
      match goal with |- context [rebuildInstances name skip_build ?t amb w1] =>
        pose proof (rebuildInstances_frame name skip_build t amb w1) as ((_ & Hd & _) & _);
        by destruct (rebuildInstances name skip_build t amb w1) end. }
    split; [by apply (registry_derived_same w1) | congruence].
  - assert (Hd : deployments_file (post_rollback body_tag query_tag rand at_ms w1).2
                 = deployments_file w1).
    { unfold post_rollback. destruct (negb _); [done |].
      pose proof (rollbackBuild_frame (JS.or_else body_tag query_tag) rand at_ms w1)
        as ((_ & Hd & _) & _).
      by destruct (rollbackBuild _ rand at_ms w1). }
    split; [by apply (registry_derived_same w1) | congruence].
  - pose proof (cleanup_spec at_ms w1) as (_ & _ & Hd & _).
    split; [by apply (registry_derived_same w1) | congruence].
  - assert (Hd : deployments_file (post_tokens hashToken label role rawToken rand at_ms w1).2
                 = deployments_file w1).
    { unfold post_tokens. repeat (case_match; cbn; try done). }
    split; [by apply (registry_derived_same w1) | congruence].
  - assert (Hd : deployments_file (delete_tokens id w1).2 = deployments_file w1).
    { unfold delete_tokens. repeat (case_match; cbn; try done). }
    split; [by apply (registry_derived_same w1) | congruence].
Qed.

Lemma registry_records_stay_derived_witness :
  registry_derived acme_host
  ∧ registry_derived
      (serve sample_hash None (λ _, "2026-01-01T00:00:00.000Z")
         (ProvisionInstance "beta" "Beta" "" "" "deadbeef" "feedface" 0 0)
         None 0 acme_host).
Proof.
  assert (Hacme : registry_derived acme_host).
  { intros name r Hin. cbn in Hin. apply list_elem_of_singleton in Hin as [= -> ->].
    by repeat split; [..|right]. }
  split; [exact Hacme |].
  exact (proj1 (registry_records_stay_derived sample_hash None
                  (λ _, "2026-01-01T00:00:00.000Z")
                  (ProvisionInstance "beta" "Beta" "" "" "deadbeef" "feedface" 0%Z 0%Z)
                  None 0%Z acme_host Hacme)).
Defined.

(** ** Size of the keep-set *)

Lemma set_add_length x s : length (set_add x s) ≤ S (length s).
Proof.
  unfold set_add. destruct (bool_decide _); [lia |]. rewrite length_app. cbn. lia.
Qed.

Lemma keep_builds_length keep (bs : list BuildRecord) :
  length (foldl (λ keep b, set_add (tag b) keep) keep bs) ≤ length keep + length bs.
Proof.
  revert keep. induction bs as [|b bs IH]; intros keep; cbn [foldl length]; [lia |].
  specialize (IH (set_add (tag b) keep)). pose proof (set_add_length (tag b) keep). lia.
Qed.

Lemma keep_periods_length now period n builds keep :
  length (keep_periods now period n builds keep) ≤ length keep + n.
Proof.
  unfold keep_periods.
  assert (Hks : ∀ ks keep0,
    length (foldl (λ keep k,
                     match List.find (in_period now period (Z.of_nat k)) builds with
                     | Some b => set_add (tag b) keep
                     | None => keep
                     end) keep0 ks) ≤ length keep0 + length ks).
  { induction ks as [|k ks IH]; intros keep0; cbn [foldl length]; [lia |].
    destruct (List.find _ builds) as [b|].
    - specialize (IH (set_add (tag b) keep0)).
      pose proof (set_add_length (tag b) keep0). lia.
    - specialize (IH keep0). lia. }
  specialize (Hks (seq 0 n) keep). by rewrite length_seq in Hks.
Qed.

Lemma filter_filter_same {A} (P : A → Prop) `{∀ x, Decision (P x)} (l : list A) :
  filter P (filter P l) = filter P l.
Proof.
  apply filter_all_true, Forall_forall. by intros x [? _]%list_elem_of_filter.
Qed.

(** X18. The keep-set of the retention policy never holds more than
    thirteen tags, however long the history is: the three sentinels and at
    most ten build tags (three recent, four weekly, three monthly). It holds
    no tag twice, and it depends only on the successful non-rollback builds
    of the history: failed builds and rollback records do not shift what is
    kept. *)
Theorem retention_keep_set_is_bounded now history :
  length (tagsToKeep now history) ≤ 13
  ∧ NoDup (tagsToKeep now history)
  ∧ tagsToKeep now history
    = tagsToKeep now (filter (λ b, retained_candidate b = true) history).
Proof.
  split; [|split; [apply tagsToKeep_NoDup |]].
  - unfold tagsToKeep.
    set (builds := filter _ history).
    pose proof (keep_builds_length sentinel_tags (take 3 builds)) as H1.
    pose proof (length_take builds 3) as H0.
    set (k1 := foldl _ sentinel_tags (take 3 builds)) in *.
    pose proof (keep_periods_length now ONE_WEEK 4 builds k1) as H2.
    set (k2 := keep_periods now ONE_WEEK 4 builds k1) in *.
    pose proof (keep_periods_length now ONE_MONTH 3 builds k2) as H3.
    change (length sentinel_tags) with 3 in H1. lia.
  - unfold tagsToKeep. by rewrite filter_filter_same.
Qed.

(** X19. The retention sweep only removes tags. A tag of the keep-set, so
    in particular the current tag and the two safety tags, names the same
    image after the sweep as before and is never reported as removed; a tag
    reported as removed named an image before and names none afterwards.
    The sweep restarts nothing and leaves the registry, the files, the
    containers, the token store and the build history alone. *)
Theorem retention_sweep_only_removes_tags now w :
  let out := cleanupBuildImages now w in
  (∀ t, t ∈ tagsToKeep now (loadBuildHistory w) →
        resolve_tag (images out.2) t = resolve_tag (images w) t
        ∧ t ∉ removed out.1)
  ∧ (∀ t, t ∈ sentinel_tags → t ∉ removed out.1)
  ∧ (∀ t, t ∈ removed out.1 →
          is_Some (resolve_tag (images w) t) ∧ resolve_tag (images out.2) t = None)
  ∧ host_frame w out.2
  ∧ history_file out.2 = history_file w
  ∧ restarts_in (trace out.2) = restarts_in (trace w).
Proof.
  cbn zeta.
  pose proof (cleanup_frame now w) as [Hfr Hres].
  pose proof (cleanup_spec now w) as (_ & Hh & _ & Hrs & _ & Hgone & Hleft).
  cbn zeta in *.
  assert (Hkept : ∀ t, t ∈ tagsToKeep now (loadBuildHistory w) →
                       t ∉ removed (cleanupBuildImages now w).1).
  { intros t Ht Hrm. apply Hgone in Hrm as (_ & _ & Hout & _). done. }
  split; [intros t Ht; split; [by apply Hres | by apply Hkept] |].
  split; [intros t Ht; by apply Hkept, sentinel_kept |].
  split; [|done].
  intros t Hrm. split.
  - apply Hgone in Hrm as (Hlisted & Hnone & _).
    apply elem_of_listed_tags in Hlisted as (_ & _ & Hin).
    by apply resolve_tag_elem.
  - destruct (resolve_tag (images (cleanupBuildImages now w).2) t) as [i|] eqn:Hi; [|done].
    apply resolve_tag_Some_elem in Hi as [Hin _]. apply Hleft in Hin as [_ Hnot]. done.
Qed.

(** ** Reading the history *)

(** X20. The page of GET /api/build-history. The total always counts the
    whole history, failed builds included, also when they are filtered out
    of the page. The page is a prefix of the history (of its successful
    records, unless failed ones are asked for), newest first. A positive
    [limit] caps the page; a missing, non-numeric or zero [limit] caps it at
    50; a negative [limit] is no cap: it drops that many of the oldest
    records and returns all the others. *)
Theorem history_page_limits limit_query include_failed w :
  let page := get_build_history limit_query include_failed w in
  let candidates :=
    if include_failed then loadBuildHistory w
    else filter (λ b, success b = true) (loadBuildHistory w) in
  page_total page = length (loadBuildHistory w)
  ∧ page_builds page `prefix_of` candidates
  ∧ (include_failed = false → Forall (λ b, success b = true) (page_builds page))
  ∧ match limit_query with
    | Some l =>
        if (l <? 0)%Z
        then page_builds page = take (length candidates - Z.to_nat (- l)) candidates
        else if (l =? 0)%Z
        then page_builds page = take 50 candidates
        else page_builds page = take (Z.to_nat l) candidates
    | None => page_builds page = take 50 candidates
    end.
Proof.
  cbn zeta. unfold get_build_history, getBuildHistory. cbn [page_total page_builds].
  set (candidates := if include_failed then loadBuildHistory w else filter _ _).
  assert (Hc : (if negb include_failed
                then filter (λ b, success b = true) (loadBuildHistory w)
                else loadBuildHistory w) = candidates).
  { subst candidates. by destruct include_failed. }
  rewrite Hc.
  set (limit := match limit_query with
                | Some l => if (l =? 0)%Z then 50%Z else l
                | None => 50%Z
                end).
  assert (Hlimit : (limit =? 0)%Z = false).
  { subst limit. destruct limit_query as [l|]; [|done].
    destruct (l =? 0)%Z eqn:Hl; done. }
  rewrite Hlimit.
  assert (Hpre : slice_to limit candidates `prefix_of` candidates).
  { unfold slice_to. destruct (limit <? 0)%Z; apply prefix_take. }
  split; [done |]. split; [done |]. split.
  - intros ->. subst candidates. cbn in Hpre.
    destruct Hpre as [rest Hrest].
    assert (Hall : Forall (λ b, success b = true)
                     (filter (λ b, success b = true) (loadBuildHistory w))).
    { apply Forall_forall. by intros b [? _]%list_elem_of_filter. }
    rewrite Hrest in Hall. by apply Forall_app in Hall as [? _].
  - subst limit. unfold slice_to. destruct limit_query as [l|]; [|done].
    destruct (l =? 0)%Z eqn:Hz.
    + apply Z.eqb_eq in Hz as ->. done.
    + destruct (l <? 0)%Z; done.
Qed.

(** ** Host paths *)


(** ** The project name of [ship init] *)

Lemma hyphen_class : Regex.lower_alnum_hyphen hyphen = true.
Proof. done. Qed.

Lemma class_not_hyphen c :
  Regex.lower_alnum_hyphen c = true → c ≠ hyphen → Regex.lower_alnum c = true.
Proof.
  unfold Regex.lower_alnum_hyphen. intros [H|H]%orb_true_iff Hne; [done |].
  exfalso. apply Hne. unfold Regex.in_range in H.
  apply andb_true_iff in H as [H1%Nat.leb_le H2%Nat.leb_le].
  rewrite <- (ascii_nat_embedding c).
  replace (nat_of_ascii c) with 45 by lia. done.
Qed.

Lemma dash_foreign_class s : Forall (λ c, Regex.lower_alnum_hyphen c = true) (dash_foreign s).
Proof.
  unfold dash_foreign. apply Forall_fmap, Forall_forall. intros c _. cbn.
  destruct (Regex.lower_alnum_hyphen c) eqn:Hc; [done | apply hyphen_class].
Qed.

Lemma drop_hyphens_suffix s : drop_hyphens s `suffix_of` s.
Proof.
  induction s as [|c s IH]; [done |]. cbn.
  destruct (decide (c = hyphen)); [by apply suffix_cons_r | done].
Qed.

Lemma drop_hyphens_head s : head (drop_hyphens s) ≠ Some hyphen.
Proof.
  induction s as [|c s IH]; [done |]. cbn.
  destruct (decide (c = hyphen)); [done |]. cbn. congruence.
Qed.

Lemma last_suffix {A} (l' l : list A) : l' `suffix_of` l → l' ≠ [] → last l' = last l.
Proof.
  intros [k ->] Hne. induction k as [|x k IH]; [done |].
  cbn [app]. rewrite IH. destruct (k ++ l') eqn:Hk; [|done].
  by apply app_eq_nil in Hk as [_ ?].
Qed.

Lemma trim_hyphens_spec (P : ascii → Prop) s :
  Forall P s →
  Forall P (trim_hyphens s)
  ∧ head (trim_hyphens s) ≠ Some hyphen
  ∧ last (trim_hyphens s) ≠ Some hyphen.
Proof.
  intros Hs. unfold trim_hyphens.
  set (d := drop_hyphens s). set (d' := drop_hyphens (reverse d)).
  assert (Hd : Forall P d).
  { destruct (drop_hyphens_suffix s) as [k Hk]. rewrite Hk in Hs.
    by apply Forall_app in Hs as [_ ?]. }
  assert (Hd' : Forall P d').
  { destruct (drop_hyphens_suffix (reverse d)) as [k Hk].
    apply Forall_reverse in Hd. rewrite Hk in Hd. by apply Forall_app in Hd as [_ ?]. }
  split; [by apply Forall_reverse |]. split.
  - rewrite head_reverse. destruct d' as [|x d''] eqn:Hd''; [done |].
    rewrite <- Hd''. rewrite (last_suffix d' (reverse d)).
    + rewrite last_reverse. apply drop_hyphens_head.
    + apply drop_hyphens_suffix.
    + by rewrite Hd''.
  - rewrite last_reverse. apply drop_hyphens_head.
Qed.

Lemma squeeze_hyphens_nonempty s : s ≠ [] → squeeze_hyphens s ≠ [].
Proof.
  induction s as [|c s IH]; [done |]. intros _. cbn [squeeze_hyphens].
  destruct s as [|c' s']; [done |].
  destruct (decide (c = hyphen ∧ c' = hyphen)); [by apply IH | done].
Qed.

Lemma squeeze_hyphens_spec (P : ascii → Prop) s :
  Forall P s →
  Forall P (squeeze_hyphens s)
  ∧ (head s ≠ Some hyphen → head (squeeze_hyphens s) = head s)
  ∧ last (squeeze_hyphens s) = last s.
Proof.
  induction s as [|c s IH]; [done |]. intros Hs.
  apply Forall_cons in Hs as [Hc Hs]. destruct (IH Hs) as (IH1 & IH2 & IH3).
  cbn [squeeze_hyphens]. destruct s as [|c' s'].
  { split; [by apply Forall_cons |]. done. }
  destruct (decide (c = hyphen ∧ c' = hyphen)) as [[-> ->]|Hno].
  - split; [done |]. split; [done |]. rewrite IH3. done.
  - split; [by apply Forall_cons |]. split; [done |].
    change (last (c :: c' :: s')) with (last (c' :: s')). rewrite <- IH3.
    pose proof (squeeze_hyphens_nonempty (c' :: s') ltac:(done)) as Hne.
    destruct (squeeze_hyphens (c' :: s')) as [|x xs]; done.
Qed.

Lemma single_test c : Regex.test Regex.single_re (String c "") = Regex.lower_alnum c.
Proof. unfold Regex.test, Regex.single_re. cbn. by destruct (Regex.lower_alnum c). Qed.

(** X22. The project name [ship init] derives from the working directory is
    never rejected by its own check: whatever the directory is called, the
    derived name is empty (and the command stops with the message that no
    name could be determined) or it passes the project-name check. *)
Theorem derived_project_name_is_valid toLowerCase basename :
  let derived := derived_project_name toLowerCase basename in
  (derived = "" ∨ ship_init_name_ok derived = true)
  ∧ ∀ projectName, init_project_name toLowerCase "" basename ≠ NameInvalid projectName.
Proof.
  cbn zeta.
  assert (Hvalid : derived_project_name toLowerCase basename = ""
                   ∨ ship_init_name_ok (derived_project_name toLowerCase basename) = true).
  { unfold derived_project_name.
    set (raw := dash_foreign (list_ascii_of_string (toLowerCase basename))).
    destruct (trim_hyphens_spec (λ c, Regex.lower_alnum_hyphen c = true) raw
                (dash_foreign_class _)) as (Hall & Hhead & Hlast).
    destruct (squeeze_hyphens_spec _ _ Hall) as (Hall' & Hhead' & Hlast').
    rewrite <- Hlast' in Hlast. specialize (Hhead' Hhead). rewrite <- Hhead' in Hhead.
    clear Hhead' Hlast' Hall.
    set (l := squeeze_hyphens (trim_hyphens raw)) in *. clearbody l.
    destruct l as [|a l]; [by left |]. right.
    apply Forall_cons in Hall' as [Ha Hall].
    assert (Ha' : Regex.lower_alnum a = true).
    { apply class_not_hyphen; [done |]. intros ->. by apply Hhead. }
    unfold ship_init_name_ok. apply negb_true_iff, andb_false_iff.
    destruct l as [|z mid _] using rev_ind.
    - right. apply negb_false_iff. cbn [string_of_list_ascii]. by rewrite single_test.
    - left. apply negb_false_iff. apply RegexFacts.slug_test_spec.
      exists a, mid, z. rewrite list_ascii_of_string_of_list_ascii.
      apply Forall_app in Hall as [Hmid Hz%Forall_cons_1].
      split; [done |]. split; [done |]. split; [done |].
      apply class_not_hyphen; [apply Hz |]. intros ->. apply Hlast.
      change (a :: mid ++ [hyphen]) with ((a :: mid) ++ [hyphen]). by rewrite last_snoc. }
  split; [done |].
  intros projectName. unfold init_project_name. cbn [JS.truthy].
  destruct Hvalid as [->| ->]; [done |]. by destruct (negb _).
Qed.
